(** * Dominoes game engine: a shallow embedding of [dominoes_game.py]

    The engine of the web-served dominoes game (class [Tile] and class
    [DominoesGame]) is embedded as pure functions over an explicit [State]
    record.  Python integers are [Z]; Python lists are Rocq lists; methods
    that mutate [self] return the new state; methods that can raise return
    an [outcome]. *)

From Stdlib Require Import ZArith String List Bool Lia Permutation.
From Stdlib Require Import SpecFloat.
Import ListNotations.

Local Open Scope Z_scope.

(** ** Outcomes of fallible code *)

(** The Python exceptions the engine's code can raise. *)
Inductive exn : Type :=
| KeyError        (* dict lookup with an absent key *)
| ValueError      (* [list.remove] of an absent item, [max] of an empty list *)
| IndexError      (* [list.pop] of an empty list *)
| TypeError       (* subscript of a value that has none, unhashable dict key *)
| AttributeError. (* [.get] on a value that is no dict *)

(** [Ok a]: the call returned [a].  [Raise e]: the call raised [e].
    [OutOfFuel]: a [while True] loop was cut after the given number of
    iterations (only the two drawing loops can produce it). *)
Inductive outcome (A : Type) : Type :=
| Ok (a : A)
| Raise (e : exn)
| OutOfFuel.

Arguments Ok {A} a.
Arguments Raise {A} e.
Arguments OutOfFuel {A}.

Definition bind {A B : Type} (m : outcome A) (k : A -> outcome B) : outcome B :=
  match m with
  | Ok a => k a
  | Raise e => Raise e
  | OutOfFuel => OutOfFuel
  end.

Notation "x <- m ;; k" := (bind m (fun x => k))
  (at level 61, m at next level, right associativity).
Notation "' p <- m ;; k" := (bind m (fun x => let p := x in k))
  (at level 61, p pattern, m at next level, right associativity).

(** ** class Tile *)

(** A transported tile, [{'left': int, 'right': int}]: the value of
    [Tile.to_dict] and the [tile_dict] argument of [play_player_tile]. *)
Record TileDict : Type := mkTileDict { d_left : Z; d_right : Z }.

(** Python [x == v] where [x] is an int and [v] is an int or [None]. *)
Definition int_eq (x : Z) (v : option Z) : bool :=
  match v with
  | Some y => x =? y
  | None => false
  end.

Module Tile.

Record t : Type := mk { left : Z; right : Z }.

(** [Tile.__eq__] (the [isinstance] test holds for every [t]). *)
Definition eqb (self other : t) : bool :=
  ((left self =? left other) && (right self =? right other))
  || ((left self =? right other) && (right self =? left other)).

Definition is_double (self : t) : bool := left self =? right self.

Definition has_value (self : t) (value : option Z) : bool :=
  int_eq (left self) value || int_eq (right self) value.

Definition get_other_value (self : t) (value : option Z) : option Z :=
  if int_eq (left self) value then Some (right self)
  else if int_eq (right self) value then Some (left self)
  else None.

Definition to_dict (self : t) : TileDict := mkTileDict (left self) (right self).

End Tile.

(** ** Python list operations used by the engine *)

(** [x in l], decided by [__eq__]. *)
Definition list_in (x : Tile.t) (l : list Tile.t) : bool :=
  existsb (fun item => Tile.eqb item x) l.

(** [l.remove(x)]: drops the first item equal to [x]; [ValueError] if none. *)
Fixpoint list_remove (x : Tile.t) (l : list Tile.t) : outcome (list Tile.t) :=
  match l with
  | [] => Raise ValueError
  | item :: rest =>
      if Tile.eqb item x then Ok rest
      else rest' <- list_remove x rest ;; Ok (item :: rest')
  end.

(** [l.pop()]: removes and returns the last item; [IndexError] if empty. *)
Definition list_pop {A : Type} (l : list A) : outcome (A * list A) :=
  match rev l with
  | [] => Raise IndexError
  | x :: r => Ok (x, rev r)
  end.

(** [max(l, key=key)]: the first item with the greatest key. *)
Fixpoint max_from {A : Type} (key : A -> Z) (best : A) (l : list A) : A :=
  match l with
  | [] => best
  | x :: rest => max_from key (if key best <? key x then x else best) rest
  end.

Definition list_max {A : Type} (key : A -> Z) (l : list A) : outcome A :=
  match l with
  | [] => Raise ValueError
  | x :: rest => Ok (max_from key x rest)
  end.

(** Truth value of a list: [if l:]. *)
Definition nonempty {A : Type} (l : list A) : bool :=
  match l with
  | [] => false
  | _ :: _ => true
  end.

(** [sum(...)] over integers. *)
Definition sum_Z (l : list Z) : Z := fold_right Z.add 0 l.

(** ** class DominoesGame: the state *)

(** [current_player] and [winner] only ever hold ['player'] or ['ai']. *)
Inductive Player : Type := player | ai.

Definition Player_eqb (a b : Player) : bool :=
  match a, b with
  | player, player | ai, ai => true
  | _, _ => false
  end.

(** The fields of a [DominoesGame] the engine reads after construction
    ([self.tiles] is only sliced by [_deal_tiles] and never read again). *)
Record State : Type := mkState {
  player_hand : list Tile.t;
  ai_hand : list Tile.t;
  board : list Tile.t;
  boneyard : list Tile.t;
  current_player : Player;
  game_over : bool;
  winner : option Player
}.

Definition set_player_hand (h : list Tile.t) (s : State) : State :=
  mkState h (ai_hand s) (board s) (boneyard s) (current_player s) (game_over s) (winner s).
Definition set_ai_hand (h : list Tile.t) (s : State) : State :=
  mkState (player_hand s) h (board s) (boneyard s) (current_player s) (game_over s) (winner s).
Definition set_board (b : list Tile.t) (s : State) : State :=
  mkState (player_hand s) (ai_hand s) b (boneyard s) (current_player s) (game_over s) (winner s).
Definition set_boneyard (b : list Tile.t) (s : State) : State :=
  mkState (player_hand s) (ai_hand s) (board s) b (current_player s) (game_over s) (winner s).
Definition set_current_player (p : Player) (s : State) : State :=
  mkState (player_hand s) (ai_hand s) (board s) (boneyard s) p (game_over s) (winner s).
Definition set_game_over (g : bool) (w : option Player) (s : State) : State :=
  mkState (player_hand s) (ai_hand s) (board s) (boneyard s) (current_player s) g w.

(** ** Tile set *)

(** [range(a, b)] for naturals, as integers. *)
Definition range (a b : nat) : list Z := map Z.of_nat (seq a (b - a)).

Definition _create_domino_set : list Tile.t :=
  flat_map (fun i => map (fun j => Tile.mk (Z.of_nat i) j) (range i 7)) (seq 0 7).

Definition _tile_value (tile : Tile.t) : Z := Tile.left tile + Tile.right tile.

Definition _get_highest_tile (hand : list Tile.t) : outcome Tile.t :=
  list_max _tile_value hand.

(** ** Board ends and legality *)

Definition get_board_ends (board : list Tile.t) : option Z * option Z :=
  match board with
  | [] => (None, None)
  | first :: _ => (Some (Tile.left first), Some (Tile.right (last board first)))
  end.

(** The dict [{'left': bool, 'right': bool}] returned by [can_play_tile]. *)
Record Playable : Type := mkPlayable { pl_left : bool; pl_right : bool }.

(** [playable[key]]. *)
Definition playable_get (d : Playable) (key : string) : outcome bool :=
  if String.eqb key "left" then Ok (pl_left d)
  else if String.eqb key "right" then Ok (pl_right d)
  else Raise KeyError.

Definition can_play_tile (board : list Tile.t) (tile : Tile.t) : Playable :=
  if negb (nonempty board) then mkPlayable true true
  else
    let '(left_end, right_end) := get_board_ends board in
    let can_play_left := Tile.has_value tile left_end in
    let can_play_right := Tile.has_value tile right_end in
    mkPlayable can_play_left can_play_right.

(** [play_tile(tile, position, hand)]: mutates [self.board] and the list
    [hand]; here both are returned next to the boolean result. *)
Definition play_tile (board : list Tile.t) (tile : Tile.t) (position : string)
    (hand : list Tile.t) : outcome (bool * list Tile.t * list Tile.t) :=
  if negb (list_in tile hand) then Ok (false, board, hand)
  else if negb (nonempty board) then
    hand' <- list_remove tile hand ;;
    Ok (true, board ++ [tile], hand')
  else
    let '(left_end, right_end) := get_board_ends board in
    if String.eqb position "left" && Tile.has_value tile left_end then
      let board' :=
        if int_eq (Tile.right tile) left_end then tile :: board
        else Tile.mk (Tile.right tile) (Tile.left tile) :: board in
      hand' <- list_remove tile hand ;;
      Ok (true, board', hand')
    else if String.eqb position "right" && Tile.has_value tile right_end then
      let board' :=
        if int_eq (Tile.left tile) right_end then board ++ [tile]
        else board ++ [Tile.mk (Tile.right tile) (Tile.left tile)] in
      hand' <- list_remove tile hand ;;
      Ok (true, board', hand')
    else Ok (false, board, hand).

(** Does some tile of [hand] fit either end?  This is the scan shared by
    [player_draw_until_playable], [_check_game_over] and
    [can_player_play_any_tile]. *)
Definition any_playable (board : list Tile.t) (hand : list Tile.t) : bool :=
  existsb (fun tile =>
             let playable := can_play_tile board tile in
             pl_left playable || pl_right playable) hand.

(** ** Game over *)

Definition _check_game_over (s : State) : State :=
  if negb (nonempty (player_hand s)) then set_game_over true (Some player) s
  else if negb (nonempty (ai_hand s)) then set_game_over true (Some ai) s
  else if negb (nonempty (boneyard s)) then
    let player_can_play := any_playable (board s) (player_hand s) in
    let ai_can_play := any_playable (board s) (ai_hand s) in
    if negb player_can_play && negb ai_can_play then
      let player_total := sum_Z (map _tile_value (player_hand s)) in
      let ai_total := sum_Z (map _tile_value (ai_hand s)) in
      set_game_over true (Some (if player_total <? ai_total then player else ai)) s
    else s
  else s.

(** ** Dealing and the opening *)

(** [_ai_play_opening_double] and [_ai_play_opening_tile] have the same body. *)
Definition _ai_play_opening_double (double_tile : Tile.t) (s : State) : outcome State :=
  let s1 := set_board (board s ++ [double_tile]) s in
  hand' <- list_remove double_tile (ai_hand s1) ;;
  Ok (set_current_player player (set_ai_hand hand' s1)).

Definition _ai_play_opening_tile (tile : Tile.t) (s : State) : outcome State :=
  let s1 := set_board (board s ++ [tile]) s in
  hand' <- list_remove tile (ai_hand s1) ;;
  Ok (set_current_player player (set_ai_hand hand' s1)).

(** [max(doubles, key=lambda t: t.left) if doubles else None]. *)
Definition highest_double (hand : list Tile.t) : outcome (option Tile.t) :=
  let doubles := filter Tile.is_double hand in
  if nonempty doubles then t <- list_max Tile.left doubles ;; Ok (Some t)
  else Ok None.

(** A [Tile] object is always true in a condition, [None] is false. *)
Definition _determine_starting_player (s : State) : outcome State :=
  player_highest_double <- highest_double (player_hand s) ;;
  ai_highest_double <- highest_double (ai_hand s) ;;
  match ai_highest_double, player_highest_double with
  | Some a, Some p =>
      if Tile.left a >? Tile.left p
      then _ai_play_opening_double a (set_current_player ai s)
      else Ok (set_current_player player s)
  | Some a, None =>
      _ai_play_opening_double a (set_current_player ai s)
  | None, Some _ =>
      Ok (set_current_player player s)
  | None, None =>
      player_highest <- _get_highest_tile (player_hand s) ;;
      ai_highest <- _get_highest_tile (ai_hand s) ;;
      if _tile_value ai_highest >? _tile_value player_highest
      then _ai_play_opening_tile ai_highest (set_current_player ai s)
      else Ok (set_current_player player s)
  end.

(** [_deal_tiles], on the list [tiles] as [random.shuffle] left it. *)
Definition _deal_tiles (tiles : list Tile.t) (s : State) : outcome State :=
  let s1 := set_player_hand (firstn 7 tiles) s in
  let s2 := set_ai_hand (firstn 7 (skipn 7 tiles)) s1 in
  let s3 := set_boneyard (skipn 14 tiles) s2 in
  _determine_starting_player s3.

(** [DominoesGame.__init__]; [shuffled] is what [random.shuffle] makes of
    [_create_domino_set ()], an arbitrary permutation of it. *)
Definition __init__ (shuffled : list Tile.t) : outcome State :=
  _deal_tiles shuffled (mkState [] [] [] [] player false None).

(** ** The player's move *)

(** [{'success': ..., 'message': ...}]. *)
Record Response : Type := mkResponse { success : bool; message : string }.

(** The [for t in self.player_hand] scan: the first tile whose two fields
    equal the two fields of [tile_dict]. *)
Definition find_tile (hand : list Tile.t) (tile_dict : TileDict) : option Tile.t :=
  find (fun t => (Tile.left t =? d_left tile_dict) && (Tile.right t =? d_right tile_dict)) hand.

(** [play_player_tile] on arguments of the annotated types, a dict of two
    ints and a str; [play_player_tile_dyn] below takes any request value. *)
Definition play_player_tile (s : State) (tile_dict : TileDict) (position : string)
  : outcome (State * Response) :=
  if negb (Player_eqb (current_player s) player) || game_over s then
    Ok (s, mkResponse false "Not your turn or game over")
  else
    match find_tile (player_hand s) tile_dict with
    | None => Ok (s, mkResponse false "Tile not in your hand")
    | Some tile =>
        let playable := can_play_tile (board s) tile in
        allowed <- playable_get playable position ;;
        if negb allowed then
          Ok (s, mkResponse false ("Cannot play tile on " ++ position ++ " side"))
        else
          '(ok, board', hand') <- play_tile (board s) tile position (player_hand s) ;;
          let s1 := set_player_hand hand' (set_board board' s) in
          if ok then
            Ok (_check_game_over (set_current_player ai s1),
                mkResponse true "Tile played successfully")
          else Ok (s1, mkResponse false "Failed to play tile")
    end.

(** ** Request values *)

(** The arguments of [play_player_tile] are annotated [Dict] and [str],
    but nothing checks them: the route hands over whatever the request
    held.  These are the Python values [json.loads] builds, which is what
    [request.get_json()] returns: [None], a [bool], an [int], a [float], a
    [str], a [list], or a [dict] with [str] keys.  A float is kept as the
    sign, mantissa and exponent of its binary representation; a dict as its
    items, a key being bound by its first occurrence. *)
#[warnings="-register-all"] Inductive PyValue : Type :=
| PyNone
| PyBool (b : bool)
| PyInt (n : Z)
| PyFloat (f : spec_float)
| PyStr (s : string)
| PyList (items : list PyValue)
| PyDict (items : list (string * PyValue)).

(** Is the float [f] the integer [x]?  A finite float is
    [(-1)^sign * m * 2^e]; infinities and NaN equal no integer. *)
Definition float_eq_int (f : spec_float) (x : Z) : bool :=
  match f with
  | S754_zero _ => x =? 0
  | S754_infinity _ => false
  | S754_nan => false
  | S754_finite sign m e =>
      let v := if sign then Z.neg m else Z.pos m in
      if 0 <=? e then x =? v * 2 ^ e else x * 2 ^ (- e) =? v
  end.

(** Python [x == v] where [x] is an int and [v] any request value:
    numbers are compared by value, [True] and [False] counting as 1 and 0;
    an int equals nothing else. *)
Definition py_int_eq (x : Z) (v : PyValue) : bool :=
  match v with
  | PyInt y => x =? y
  | PyBool b => x =? (if b then 1 else 0)
  | PyFloat f => float_eq_int f x
  | _ => false
  end.

(** The value bound to [key] in the items of a dict. *)
Fixpoint dict_get (items : list (string * PyValue)) (key : string) : option PyValue :=
  match items with
  | [] => None
  | (k, v) :: rest => if String.eqb k key then Some v else dict_get rest key
  end.

(** [v[key]] with a str [key]: the bound value of a dict, [KeyError] if
    there is none; [TypeError] on [None], a number, a str or a list, none
    of which can be subscripted with a str. *)
Definition py_getitem (v : PyValue) (key : string) : outcome PyValue :=
  match v with
  | PyDict items =>
      match dict_get items key with
      | Some x => Ok x
      | None => Raise KeyError
      end
  | _ => Raise TypeError
  end.

(** [v.get(key)]: the bound value of a dict or [None]; only a dict has
    the method. *)
Definition py_get (v : PyValue) (key : string) : outcome PyValue :=
  match v with
  | PyDict items =>
      match dict_get items key with
      | Some x => Ok x
      | None => Ok PyNone
      end
  | _ => Raise AttributeError
  end.

(** The characters of a str. *)
Definition py_str (v : PyValue) : string :=
  match v with
  | PyStr s => s
  | _ => EmptyString
  end.

(** ** The player's move, on request values *)

(** The [for t in self.player_hand] scan with any value as [tile_dict]:
    each iteration evaluates [tile_dict['left']] and, only when that equals
    [t.left], [tile_dict['right']].  An empty hand evaluates neither. *)
Fixpoint find_tile_dyn (hand : list Tile.t) (tile_dict : PyValue)
  : outcome (option Tile.t) :=
  match hand with
  | [] => Ok None
  | t :: rest =>
      l <- py_getitem tile_dict "left" ;;
      if py_int_eq (Tile.left t) l then
        r <- py_getitem tile_dict "right" ;;
        if py_int_eq (Tile.right t) r then Ok (Some t)
        else find_tile_dyn rest tile_dict
      else find_tile_dyn rest tile_dict
  end.

(** [playable[position]] with any value as [position].  The lookup hashes
    its key first: a list or a dict cannot be hashed, [TypeError]; any
    other value that is not one of the two keys is absent, [KeyError]. *)
Definition playable_get_dyn (d : Playable) (position : PyValue) : outcome bool :=
  match position with
  | PyStr key => playable_get d key
  | PyList _ => Raise TypeError
  | PyDict _ => Raise TypeError
  | _ => Raise KeyError
  end.

(** [play_player_tile] with any two request values as its arguments.
    Once [playable[position]] has returned, [position] is one of the two
    keys, a str. *)
Definition play_player_tile_dyn (s : State) (tile_dict position : PyValue)
  : outcome (State * Response) :=
  if negb (Player_eqb (current_player s) player) || game_over s then
    Ok (s, mkResponse false "Not your turn or game over")
  else
    found <- find_tile_dyn (player_hand s) tile_dict ;;
    match found with
    | None => Ok (s, mkResponse false "Tile not in your hand")
    | Some tile =>
        let playable := can_play_tile (board s) tile in
        allowed <- playable_get_dyn playable position ;;
        let side := py_str position in
        if negb allowed then
          Ok (s, mkResponse false ("Cannot play tile on " ++ side ++ " side"))
        else
          '(ok, board', hand') <- play_tile (board s) tile side (player_hand s) ;;
          let s1 := set_player_hand hand' (set_board board' s) in
          if ok then
            Ok (_check_game_over (set_current_player ai s1),
                mkResponse true "Tile played successfully")
          else Ok (s1, mkResponse false "Failed to play tile")
    end.

(** ** The AI's move *)

(** The three shapes of the dict [ai_play] returns (its ['message'] text
    is formatted from the other fields and is left out):
    [{'played': False, 'message': 'Not AI turn or game over'}],
    [{'played': True, 'tile': ..., 'position': ..., 'drew_count': ...}],
    [{'played': False, 'drew_tile': ..., 'drew_count': ...}]. *)
Inductive AiResult : Type :=
| AiRefused
| AiPlayed (tile : TileDict) (position : string) (drew_count : nat)
| AiPassed (drew_tile : bool) (drew_count : nat).

(** The list [playable_moves] built by the inner [for] loop. *)
Definition playable_moves (board : list Tile.t) (hand : list Tile.t)
  : list (Tile.t * string) :=
  flat_map (fun tile =>
              let playable := can_play_tile board tile in
              (if pl_left playable then [(tile, "left"%string)] else [])
              ++ (if pl_right playable then [(tile, "right"%string)] else []))
           hand.

(** The [while True] loop of [ai_play]; one unit of [fuel] per iteration. *)
Fixpoint ai_play_loop (fuel : nat) (s : State) (drawn_tiles : list Tile.t)
  : outcome (State * AiResult) :=
  match fuel with
  | O => OutOfFuel
  | S fuel' =>
      let moves := playable_moves (board s) (ai_hand s) in
      (* the part of the body after the [if playable_moves:] block *)
      let draw_or_pass (s : State) : outcome (State * AiResult) :=
        if nonempty (boneyard s) then
          '(drawn_tile, rest) <- list_pop (boneyard s) ;;
          ai_play_loop fuel'
            (set_ai_hand (ai_hand s ++ [drawn_tile]) (set_boneyard rest s))
            (drawn_tiles ++ [drawn_tile])
        else
          Ok (set_current_player player s,
              AiPassed (0 <? length drawn_tiles)%nat (length drawn_tiles)) in
      if nonempty moves then
        best_move <- list_max (fun x => _tile_value (fst x)) moves ;;
        let '(tile, position) := best_move in
        '(ok, board', hand') <- play_tile (board s) tile position (ai_hand s) ;;
        let s1 := set_ai_hand hand' (set_board board' s) in
        if ok then
          Ok (_check_game_over (set_current_player player s1),
              AiPlayed (Tile.to_dict tile) position (length drawn_tiles))
        else draw_or_pass s1
      else draw_or_pass s
  end.

Definition ai_play (fuel : nat) (s : State) : outcome (State * AiResult) :=
  if negb (Player_eqb (current_player s) ai) || game_over s then Ok (s, AiRefused)
  else ai_play_loop fuel s [].

(** ** The player's forced draw *)

(** The shapes of the dict [player_draw_until_playable] returns:
    [{'success': False, 'message': ...}],
    [{'success': True, 'drew_count': ..., 'can_play': True}],
    [{'success': True, 'drew_count': ..., 'can_play': False, 'passed': True}]. *)
Inductive DrawResult : Type :=
| DrawRefused (message : string)
| DrawCanPlay (drew_count : nat)
| DrawPassed (drew_count : nat).

Fixpoint player_draw_loop (fuel : nat) (s : State) (drawn_tiles : list Tile.t)
  : outcome (State * DrawResult) :=
  match fuel with
  | O => OutOfFuel
  | S fuel' =>
      let can_play_any := any_playable (board s) (player_hand s) in
      if can_play_any then Ok (s, DrawCanPlay (length drawn_tiles))
      else if nonempty (boneyard s) then
        '(drawn_tile, rest) <- list_pop (boneyard s) ;;
        player_draw_loop fuel'
          (set_player_hand (player_hand s ++ [drawn_tile]) (set_boneyard rest s))
          (drawn_tiles ++ [drawn_tile])
      else Ok (set_current_player ai s, DrawPassed (length drawn_tiles))
  end.

Definition player_draw_until_playable (fuel : nat) (s : State)
  : outcome (State * DrawResult) :=
  if negb (Player_eqb (current_player s) player) || game_over s then
    Ok (s, DrawRefused "Not your turn or game over")
  else if negb (nonempty (boneyard s)) then
    Ok (s, DrawRefused "No tiles left to draw")
  else player_draw_loop fuel s [].

(** ** Queries *)

Definition can_player_play_any_tile (s : State) : bool :=
  let hand := if Player_eqb (current_player s) player then player_hand s else ai_hand s in
  any_playable (board s) hand.

Record GameState : Type := mkGameState {
  gs_current_player : Player;
  gs_game_over : bool;
  gs_winner : option Player;
  gs_player_tile_count : nat;
  gs_ai_tile_count : nat;
  gs_boneyard_count : nat;
  gs_board_ends : option Z * option Z;
  gs_player_can_play : bool
}.

Definition get_game_state (s : State) : GameState :=
  let '(left_end, right_end) := get_board_ends (board s) in
  mkGameState (current_player s) (game_over s) (winner s)
    (length (player_hand s)) (length (ai_hand s)) (length (boneyard s))
    (left_end, right_end)
    (if Player_eqb (current_player s) player then can_player_play_any_tile s else true).

(** ** Reachable states *)

(** One public operation that returns.  A call that raises leaves the
    object as it was (see [play_player_tile_raises_only_KeyError]), and a
    call of [play_player_tile] on request values of any type that returns
    is one of these steps or changes nothing (see
    [play_player_tile_dyn_reachable]). *)
Inductive step : State -> State -> Prop :=
| step_play_player_tile s tile_dict position s' r :
    play_player_tile s tile_dict position = Ok (s', r) -> step s s'
| step_ai_play s fuel s' r :
    ai_play fuel s = Ok (s', r) -> step s s'
| step_player_draw s fuel s' r :
    player_draw_until_playable fuel s = Ok (s', r) -> step s s'.

Inductive reachable : State -> Prop :=
| reachable_init shuffled s :
    Permutation shuffled _create_domino_set ->
    __init__ shuffled = Ok s -> reachable s
| reachable_step s s' :
    reachable s -> step s s' -> reachable s'.

(** * Definitions used in the statements *)

(** ** The rules in plain terms *)

(** What the rules of the game say, written on the tiles and lists
    themselves: none of these uses a function of the engine, they are what
    the engine's functions are compared with. *)

(** A double: the two pips are equal. *)
Definition is_a_double (t : Tile.t) : Prop := Tile.left t = Tile.right t.

(** The pips of a tile, and of a hand. *)
Definition pips (t : Tile.t) : Z := Tile.left t + Tile.right t.

Fixpoint pips_of_hand (hand : list Tile.t) : Z :=
  match hand with
  | [] => 0
  | t :: rest => pips t + pips_of_hand rest
  end.

(** The tile shows the value [v] on one of its halves. *)
Definition shows (t : Tile.t) (v : Z) : Prop := Tile.left t = v \/ Tile.right t = v.

(** The open ends of the chain: the left value of its first tile, the
    right value of its last tile. *)
Definition left_end (board : list Tile.t) (v : Z) : Prop :=
  exists first rest, board = first :: rest /\ Tile.left first = v.

Definition right_end (board : list Tile.t) (v : Z) : Prop :=
  exists rest final, board = rest ++ [final] /\ Tile.right final = v.

(** The tile may be laid on that side: the side is "left" or "right",
    and the board is empty or the tile shows the value of that end. *)
Definition fits (board : list Tile.t) (t : Tile.t) (position : string) : Prop :=
  (position = "left"%string
   /\ (board = [] \/ exists v, left_end board v /\ shows t v))
  \/ (position = "right"%string
      /\ (board = [] \/ exists v, right_end board v /\ shows t v)).

(** Some tile of the hand may be laid on some side. *)
Definition can_move (board hand : list Tile.t) : Prop :=
  exists t position, In t hand /\ fits board t position.

(** The unordered pair a tile stands for: the smaller pip first. *)
Definition norm (tile : Tile.t) : Tile.t :=
  Tile.mk (Z.min (Tile.left tile) (Tile.right tile)) (Z.max (Tile.left tile) (Tile.right tile)).

(** The tile with its two values exchanged, [Tile(tile.right, tile.left)]. *)
Definition flipped (tile : Tile.t) : Tile.t := Tile.mk (Tile.right tile) (Tile.left tile).

(** [hand'] is [hand] without its first item equal to [tile]. *)
Definition removed_first (tile : Tile.t) (hand hand' : list Tile.t) : Prop :=
  exists l1 y l2, hand = l1 ++ y :: l2 /\ hand' = l1 ++ l2
                  /\ Tile.eqb y tile = true /\ list_in tile l1 = false.

(** Deciding that two lists hold the same tiles (same orientation). *)
Definition Tile_same (a b : Tile.t) : bool :=
  (Tile.left a =? Tile.left b) && (Tile.right a =? Tile.right b).

Fixpoint take_out (x : Tile.t) (l : list Tile.t) : option (list Tile.t) :=
  match l with
  | [] => None
  | y :: rest =>
      if Tile_same y x then Some rest
      else match take_out x rest with
           | Some rest' => Some (y :: rest')
           | None => None
           end
  end.

Fixpoint same_tiles (l1 l2 : list Tile.t) : bool :=
  match l1 with
  | [] => negb (nonempty l2)
  | x :: rest =>
      match take_out x l2 with
      | Some l2' => same_tiles rest l2'
      | None => false
      end
  end.

Notation "a :|: b" := (Tile.mk a b) (at level 30, no associativity).

(** A shuffle that gives the player every tile with a six and the AI
    seven tiles with neither a six nor a double. *)
Definition deal1 : list Tile.t :=
  [6:|:6; 5:|:6; 4:|:6; 3:|:6; 2:|:6; 1:|:6; 0:|:6;
   0:|:1; 0:|:2; 0:|:3; 0:|:4; 0:|:5; 1:|:2; 1:|:3;
   0:|:0; 1:|:1; 2:|:2; 3:|:3; 4:|:4; 5:|:5; 1:|:4;
   1:|:5; 2:|:3; 2:|:4; 2:|:5; 3:|:4; 3:|:5; 4:|:5].

(** The game constructed from [deal1]: the player holds the only double
    dealt, so the board is empty and the player is to move. *)
Definition game1 : State :=
  {| player_hand := [6:|:6; 5:|:6; 4:|:6; 3:|:6; 2:|:6; 1:|:6; 0:|:6];
     ai_hand := [0:|:1; 0:|:2; 0:|:3; 0:|:4; 0:|:5; 1:|:2; 1:|:3];
     board := [];
     boneyard := [0:|:0; 1:|:1; 2:|:2; 3:|:3; 4:|:4; 5:|:5; 1:|:4;
                  1:|:5; 2:|:3; 2:|:4; 2:|:5; 3:|:4; 3:|:5; 4:|:5];
     current_player := player;
     game_over := false;
     winner := None |}.

(** [game1] after the player has opened with the double six. *)
Definition game2 : State :=
  {| player_hand := [5:|:6; 4:|:6; 3:|:6; 2:|:6; 1:|:6; 0:|:6];
     ai_hand := ai_hand game1;
     board := [6:|:6];
     boneyard := boneyard game1;
     current_player := ai;
     game_over := false;
     winner := None |}.

(** The state after a successful play of [t] from the player's hand. *)
Definition after_player_play (s : State) (board' hand' : list Tile.t) : State :=
  _check_game_over (set_current_player ai (set_player_hand hand' (set_board board' s))).

(** [d] is a double of [hand] with the greatest pip value. *)
Definition is_highest_double (hand : list Tile.t) (d : Tile.t) : Prop :=
  In d hand /\ is_a_double d
  /\ forall d', In d' hand -> is_a_double d' -> Tile.left d' <= Tile.left d.

Definition no_double (hand : list Tile.t) : Prop :=
  forall d, In d hand -> ~ is_a_double d.

(** [t] is a tile of [hand] with the greatest [left + right]. *)
Definition is_highest_tile (hand : list Tile.t) (t : Tile.t) : Prop :=
  In t hand /\ forall t', In t' hand -> pips t' <= pips t.

(** The player starts: nothing is laid, the player is to move. *)
Definition player_starts (s s' : State) : Prop :=
  s' = set_current_player player s.

(** The AI starts: it lays [t] as the first tile, [t] leaves its hand,
    and the turn goes to the player. *)
Definition ai_opens (s s' : State) (t : Tile.t) : Prop :=
  exists hand',
    list_remove t (ai_hand s) = Ok hand'
    /\ s' = mkState (player_hand s) hand' (board s ++ [t]) (boneyard s)
                    player (game_over s) (winner s).

(** A deal with no double in either hand and the same highest sum, 9, on
    both sides: [3|6] for the player, [4|5] for the AI. *)
Definition dealt_tie : State :=
  {| player_hand := [3:|:6; 2:|:6; 1:|:6; 0:|:6; 0:|:1; 0:|:2; 0:|:3];
     ai_hand := [4:|:5; 3:|:5; 2:|:5; 1:|:5; 0:|:5; 0:|:4; 1:|:2];
     board := [];
     boneyard := [0:|:0; 1:|:1; 2:|:2; 3:|:3; 4:|:4; 5:|:5; 6:|:6;
                  1:|:3; 1:|:4; 2:|:3; 2:|:4; 3:|:4; 4:|:6; 5:|:6];
     current_player := player;
     game_over := false;
     winner := None |}.

(** The game constructed from [deal2] after the player has answered the
    AI's opening [3|3] with [1|3] on the right: the AI is to move and may
    lay [3|4], [0|3] or [3|6] on the left, or [1|2] on the right. *)
Definition game3 : State :=
  {| player_hand := [2:|:4; 0:|:1; 0:|:2; 2:|:6; 3:|:5; 2:|:3];
     ai_hand := [4:|:5; 3:|:4; 0:|:3; 0:|:0; 3:|:6; 1:|:2];
     board := [3:|:3; 3:|:1];
     boneyard := [1:|:1; 2:|:2; 4:|:4; 1:|:5; 0:|:4; 1:|:4; 0:|:5;
                  1:|:6; 6:|:6; 5:|:6; 2:|:5; 4:|:6; 5:|:5; 0:|:6];
     current_player := ai;
     game_over := false;
     winner := None |}.

(** The state [_deal_tiles] builds from a shuffle before it settles who
    starts. *)
Definition dealt (shuffled : list Tile.t) : State :=
  mkState (firstn 7 shuffled) (firstn 7 (skipn 7 shuffled)) [] (skipn 14 shuffled)
          player false None.

(** Two hands whose highest doubles are equal (not a deal of one set). *)
Definition equal_doubles : State :=
  {| player_hand := [2:|:2; 0:|:1];
     ai_hand := [0:|:3; 2:|:2];
     board := [];
     boneyard := [];
     current_player := player;
     game_over := false;
     winner := None |}.

(** The state after the AI has drawn [x], leaving [rest] in the boneyard. *)
Definition ai_draw (x : Tile.t) (rest : list Tile.t) (s : State) : State :=
  set_ai_hand (ai_hand s ++ [x]) (set_boneyard rest s).

(** The state after the AI has played, [board'] and [hand'] being what
    [play_tile] made of the board and of the AI's hand. *)
Definition after_ai_play (s : State) (board' hand' : list Tile.t) : State :=
  _check_game_over (set_current_player player (set_ai_hand hand' (set_board board' s))).

(** [(tile, position)] is a playable pair with the greatest [left + right]. *)
Definition best_move (board hand : list Tile.t) (tile : Tile.t) (position : string) : Prop :=
  In (tile, position) (playable_moves board hand)
  /\ forall t p, In (t, p) (playable_moves board hand) -> _tile_value t <= _tile_value tile.

(** By the rules: [tile] is in the hand and may be laid on [position],
    and no tile of the hand that may be laid somewhere has more pips. *)
Definition best_fit (board hand : list Tile.t) (tile : Tile.t) (position : string) : Prop :=
  In tile hand /\ fits board tile position
  /\ forall t p, In t hand -> fits board t p -> pips t <= pips tile.

(** [(tile, position)] is the pair [max(playable_moves, key=...)] picks. *)
Definition chosen_move (board hand : list Tile.t) (tile : Tile.t) (position : string) : Prop :=
  list_max (fun x => _tile_value (fst x)) (playable_moves board hand) = Ok (tile, position).

(** A run of the loop of [ai_play] from state [s] with [drawn_tiles]
    already drawn: the final state, the result, the number of iterations. *)
Inductive ai_run : State -> list Tile.t -> State -> AiResult -> nat -> Prop :=
| ai_run_play s drawn_tiles tile position board' hand' :
    chosen_move (board s) (ai_hand s) tile position ->
    play_tile (board s) tile position (ai_hand s) = Ok (true, board', hand') ->
    ai_run s drawn_tiles (after_ai_play s board' hand')
           (AiPlayed (Tile.to_dict tile) position (length drawn_tiles)) 1
| ai_run_draw s drawn_tiles x rest s' r n :
    playable_moves (board s) (ai_hand s) = [] ->
    boneyard s = rest ++ [x] ->
    ai_run (ai_draw x rest s) (drawn_tiles ++ [x]) s' r n ->
    ai_run s drawn_tiles s' r (S n)
| ai_run_pass s drawn_tiles :
    playable_moves (board s) (ai_hand s) = [] ->
    boneyard s = [] ->
    ai_run s drawn_tiles (set_current_player player s)
           (AiPassed (0 <? length drawn_tiles)%nat (length drawn_tiles)) 1.

(** What a run of the AI's loop amounts to, [more] being the tiles it
    draws, in the order drawn. *)
Definition ai_run_result (s : State) (drawn_tiles : list Tile.t) (s' : State)
    (r : AiResult) (more : list Tile.t) : Prop :=
  boneyard s = boneyard s' ++ rev more
  /\ player_hand s' = player_hand s
  /\ current_player s' = player
  /\ (forall k, (k < length more)%nat ->
                playable_moves (board s) (ai_hand s ++ firstn k more) = [])
  /\ ((exists tile position,
          r = AiPlayed (Tile.to_dict tile) position (length (drawn_tiles ++ more))
          /\ best_move (board s) (ai_hand s ++ more) tile position
          /\ play_tile (board s) tile position (ai_hand s ++ more)
             = Ok (true, board s', ai_hand s')
          /\ exists s1, s' = _check_game_over s1)
      \/ (r = AiPassed (0 <? length (drawn_tiles ++ more))%nat (length (drawn_tiles ++ more))
          /\ boneyard s' = []
          /\ playable_moves (board s) (ai_hand s ++ more) = []
          /\ board s' = board s
          /\ ai_hand s' = ai_hand s ++ more
          /\ game_over s' = game_over s
          /\ winner s' = winner s)).

(** The state after the player has drawn [x], leaving [rest] in the boneyard. *)
Definition player_draw (x : Tile.t) (rest : list Tile.t) (s : State) : State :=
  set_player_hand (player_hand s ++ [x]) (set_boneyard rest s).

(** A run of the loop of [player_draw_until_playable]. *)
Inductive draw_run : State -> list Tile.t -> State -> DrawResult -> nat -> Prop :=
| draw_run_can_play s drawn_tiles :
    any_playable (board s) (player_hand s) = true ->
    draw_run s drawn_tiles s (DrawCanPlay (length drawn_tiles)) 1
| draw_run_draw s drawn_tiles x rest s' r n :
    any_playable (board s) (player_hand s) = false ->
    boneyard s = rest ++ [x] ->
    draw_run (player_draw x rest s) (drawn_tiles ++ [x]) s' r n ->
    draw_run s drawn_tiles s' r (S n)
| draw_run_pass s drawn_tiles :
    any_playable (board s) (player_hand s) = false ->
    boneyard s = [] ->
    draw_run s drawn_tiles (set_current_player ai s) (DrawPassed (length drawn_tiles)) 1.

Definition Tile_eq_dec (a b : Tile.t) : {a = b} + {a <> b}.
Proof. decide equality; apply Z.eq_dec. Defined.

(** How many tiles of [l] stand for the unordered pair [t]. *)
Definition cnt (t : Tile.t) (l : list Tile.t) : nat :=
  count_occ Tile_eq_dec (map norm l) t.

(** The four collections of a state, one after the other. *)
Definition all_tiles (s : State) : list Tile.t :=
  player_hand s ++ ai_hand s ++ boneyard s ++ board s.

(** The four collections hold each tile of the double-six set once. *)
Definition full_set (s : State) : Prop :=
  forall t, (cnt t (player_hand s) + cnt t (ai_hand s) + cnt t (boneyard s) + cnt t (board s))%nat
            = count_occ Tile_eq_dec _create_domino_set t.

(** Reading a collection of an updated state. *)
Ltac read_fields :=
  cbn [player_hand ai_hand boneyard board current_player game_over winner
       ai_draw player_draw set_player_hand set_ai_hand set_board set_boneyard
       set_current_player set_game_over] in *.

(** Deciding that no tile occurs twice in a list. *)
Fixpoint distinct (l : list Tile.t) : bool :=
  match l with
  | [] => true
  | x :: rest => negb (existsb (Tile_same x) rest) && distinct rest
  end.

(** A position on the board [[1|2]] with an empty boneyard, [who] to
    move. *)
Definition blocking (ph ah : list Tile.t) (who : Player) : State :=
  mkState ph ah [1:|:2] [] who false None.

(** A position where the player is to move and holds nothing that fits
    the ends 1 and 2; the boneyard's last tile, [2|5], fits. *)
Definition before_player_draw : State :=
  mkState [4:|:4] [5:|:5] [1:|:2] [6:|:6; 2:|:5] player false None.

(** A position with an empty boneyard where the player is to move: once
    [2|3] is laid on the right of [[1|2]], neither [4|4] nor [2|6] fits the
    ends 1 and 3, and both hands count 8 pips. *)
Definition before_block : State :=
  {| player_hand := [2:|:3; 4:|:4];
     ai_hand := [2:|:6];
     board := [1:|:2];
     boneyard := [];
     current_player := player;
     game_over := false;
     winner := None |}.

(** Any number of operations, one after the other. *)
Inductive steps : State -> State -> Prop :=
| steps_refl s : steps s s
| steps_step s s1 s2 : steps s s1 -> step s1 s2 -> steps s s2.

(** A blocked position: the boneyard is empty, both sides still hold
    tiles, and no tile of either hand fits an end of the board. *)
Definition blocked (s : State) : Prop :=
  boneyard s = []
  /\ player_hand s <> []
  /\ ai_hand s <> []
  /\ any_playable (board s) (player_hand s) = false
  /\ any_playable (board s) (ai_hand s) = false.

(** A blocked position in which the game has not been declared over and
    the winner field holds [w]. *)
Definition stuck (w : option Player) (s : State) : Prop :=
  blocked s /\ game_over s = false /\ winner s = w.

(** A call of one of the three operations. *)
Inductive Op : Type :=
| OpPlay (tile_dict : TileDict) (position : string)
| OpAi (fuel : nat)
| OpDraw (fuel : nat).

Definition apply_op (o : Op) (s : State) : outcome State :=
  match o with
  | OpPlay tile_dict position =>
      '(s', _) <- play_player_tile s tile_dict position ;; Ok s'
  | OpAi fuel => '(s', _) <- ai_play fuel s ;; Ok s'
  | OpDraw fuel => '(s', _) <- player_draw_until_playable fuel s ;; Ok s'
  end.

Fixpoint run_ops (ops : list Op) (s : State) : outcome State :=
  match ops with
  | [] => Ok s
  | o :: rest => s1 <- apply_op o s ;; run_ops rest s1
  end.

(** A shuffle on which the AI opens with [3|3]. *)
Definition deal2 : list Tile.t :=
  [2:|:4; 0:|:1; 0:|:2; 2:|:6; 3:|:5; 1:|:3; 2:|:3;
   4:|:5; 3:|:4; 0:|:3; 0:|:0; 3:|:6; 1:|:2; 3:|:3;
   1:|:1; 2:|:2; 4:|:4; 1:|:5; 0:|:4; 1:|:4; 0:|:5;
   1:|:6; 6:|:6; 5:|:6; 2:|:5; 4:|:6; 5:|:5; 0:|:6].

(** Five moves of the player, each answered by the AI; at its fifth turn
    the AI draws the fourteen tiles of the boneyard and passes. *)
Definition deadlock_game : list Op :=
  [OpPlay (mkTileDict 1 3) "right"; OpAi 29;
   OpPlay (mkTileDict 0 1) "right"; OpAi 29;
   OpPlay (mkTileDict 2 6) "left"; OpAi 29;
   OpPlay (mkTileDict 2 3) "left"; OpAi 29;
   OpPlay (mkTileDict 3 5) "right"; OpAi 29].

(** Where [deadlock_game] ends: all seven tiles with a three lie on the
    board, whose two ends are threes; the boneyard is empty; the game is
    not over. *)
Definition deadlock : State :=
  {| player_hand := [2:|:4; 0:|:2];
     ai_hand := [0:|:0; 1:|:2; 0:|:6; 5:|:5; 4:|:6; 2:|:5; 5:|:6; 6:|:6;
                 1:|:6; 0:|:5; 1:|:4; 0:|:4; 1:|:5; 4:|:4; 2:|:2; 1:|:1];
     board := [3:|:2; 2:|:6; 6:|:3; 3:|:3; 3:|:1; 1:|:0; 0:|:3; 3:|:4; 4:|:5; 5:|:3];
     boneyard := [];
     current_player := player;
     game_over := false;
     winner := None |}.

(** The player holds one tile that fits nothing, one tile is left to draw,
    and it does not fit either. *)
Definition before_player_pass : State :=
  {| player_hand := [4:|:4];
     ai_hand := [5:|:5];
     board := [1:|:2];
     boneyard := [6:|:6];
     current_player := player;
     game_over := false;
     winner := None |}.

(** ** Requests that make [play_player_tile] raise *)

(** A list or a dict cannot be hashed, so it cannot be looked up in a
    dict. *)
Definition unhashable (v : PyValue) : Prop :=
  (exists items, v = PyList items) \/ (exists items, v = PyDict items).

(** The tile spec [tile_dict] names the tile [t] of [hand]: it is a dict
    whose ['left'] and ['right'] entries equal the two fields of [t]. *)
Definition names_tile (hand : list Tile.t) (tile_dict : PyValue) (t : Tile.t) : Prop :=
  exists items l r,
    tile_dict = PyDict items
    /\ dict_get items "left" = Some l /\ dict_get items "right" = Some r
    /\ In t hand
    /\ py_int_eq (Tile.left t) l = true /\ py_int_eq (Tile.right t) r = true.

(** The requests that cannot be served, with the exception each one
    meets, for a player holding [hand]. *)
Inductive request_raises (hand : list Tile.t) (tile_dict position : PyValue)
  : exn -> Prop :=
| raises_not_a_dict :
    (* the tile spec is no dict, and there is a tile to compare it with *)
    hand <> [] ->
    (forall items, tile_dict <> PyDict items) ->
    request_raises hand tile_dict position TypeError
| raises_no_left (items : list (string * PyValue)) :
    (* the tile spec has no ['left'] entry *)
    hand <> [] ->
    tile_dict = PyDict items ->
    dict_get items "left" = None ->
    request_raises hand tile_dict position KeyError
| raises_no_right (items : list (string * PyValue)) (l : PyValue) (t : Tile.t) :
    (* the ['left'] entry is that of a tile of the hand, and there is no
       ['right'] entry *)
    tile_dict = PyDict items ->
    dict_get items "left" = Some l ->
    dict_get items "right" = None ->
    In t hand ->
    py_int_eq (Tile.left t) l = true ->
    request_raises hand tile_dict position KeyError
| raises_unhashable_side (t : Tile.t) :
    (* the tile is held and the side is a list or a dict *)
    names_tile hand tile_dict t ->
    unhashable position ->
    request_raises hand tile_dict position TypeError
| raises_unknown_side (t : Tile.t) :
    (* the tile is held and the side is neither 'left' nor 'right' *)
    names_tile hand tile_dict t ->
    ~ unhashable position ->
    position <> PyStr "left" ->
    position <> PyStr "right" ->
    request_raises hand tile_dict position KeyError.

(** ** Serialisation: [get_player_hand], [get_board] *)

Definition get_player_hand (s : State) : list TileDict := map Tile.to_dict (player_hand s).

Definition get_board (s : State) : list TileDict := map Tile.to_dict (board s).

(** The legacy name of the forced draw. *)
Definition player_draw_tile (fuel : nat) (s : State) : outcome (State * DrawResult) :=
  player_draw_until_playable fuel s.

(** ** The chain on the board *)

(** Adjacent tiles of the board match at their join. *)
Fixpoint chained (board : list Tile.t) : Prop :=
  match board with
  | [] => True
  | a :: rest =>
      match rest with
      | [] => True
      | b :: _ => Tile.right a = Tile.left b
      end /\ chained rest
  end.

(** ** Hands keep the orientation of the deal *)

(** Every tile off the board is stored with [left <= right]. *)
Definition as_dealt (s : State) : Prop :=
  forall t, In t (player_hand s) \/ In t (ai_hand s) \/ In t (boneyard s) ->
            Tile.left t <= Tile.right t.

(** ** A finished game *)

(** A game that has ended blocked: [before_block] after the player's
    last move. *)
Definition finished : State :=
  {| player_hand := [4:|:4];
     ai_hand := [2:|:6];
     board := [1:|:2; 2:|:3];
     boneyard := [];
     current_player := ai;
     game_over := true;
     winner := Some ai |}.

(** The winner field is set exactly when the game is over. *)
Definition winner_iff_over (s : State) : Prop :=
  (game_over s = false -> winner s = None)
  /\ (game_over s = true -> winner s <> None).

(** ** The forced draw of the player *)

(** What a run of the player's loop amounts to, [more] being the tiles
    drawn, in the order drawn. *)
Definition draw_run_result (s : State) (drawn_tiles : list Tile.t) (s' : State)
    (r : DrawResult) (more : list Tile.t) : Prop :=
  boneyard s = boneyard s' ++ rev more
  /\ player_hand s' = player_hand s ++ more
  /\ ai_hand s' = ai_hand s /\ board s' = board s
  /\ game_over s' = game_over s /\ winner s' = winner s
  /\ (forall k, (k < length more)%nat ->
                any_playable (board s) (player_hand s ++ firstn k more) = false)
  /\ ((r = DrawCanPlay (length (drawn_tiles ++ more))
       /\ any_playable (board s') (player_hand s') = true
       /\ current_player s' = current_player s)
      \/ (r = DrawPassed (length (drawn_tiles ++ more))
          /\ any_playable (board s') (player_hand s') = false
          /\ boneyard s' = []
          /\ current_player s' = ai)).

(** ** [get_starting_info] *)

(** The ['reason'] text of [get_starting_info], which is formatted from
    one of six templates and a tile. *)
Inductive StartReason : Type :=
| AiHasHighestDouble (t : Tile.t)
| PlayerHasHighestDouble (t : Tile.t)
| AiHasOnlyDouble (t : Tile.t)
| PlayerHasOnlyDouble (t : Tile.t)
| AiHasHighestTile (t : Tile.t)
| PlayerHasHighestTile (t : Tile.t).

(** [{'starter': ..., 'reason': ..., 'opening_tile': ...}]. *)
Record StartingInfo : Type := mkStartingInfo {
  starter : Player;
  reason : StartReason;
  opening_tile : option TileDict
}.

Definition get_starting_info (s : State) : outcome StartingInfo :=
  player_highest_double <- highest_double (player_hand s) ;;
  ai_highest_double <- highest_double (ai_hand s) ;;
  match ai_highest_double, player_highest_double with
  | Some a, Some p =>
      if Tile.left a >? Tile.left p
      then Ok (mkStartingInfo ai (AiHasHighestDouble a) (Some (Tile.to_dict a)))
      else Ok (mkStartingInfo player (PlayerHasHighestDouble p) None)
  | Some a, None =>
      Ok (mkStartingInfo ai (AiHasOnlyDouble a) (Some (Tile.to_dict a)))
  | None, Some p =>
      Ok (mkStartingInfo player (PlayerHasOnlyDouble p) None)
  | None, None =>
      player_highest <- _get_highest_tile (player_hand s) ;;
      ai_highest <- _get_highest_tile (ai_hand s) ;;
      if _tile_value ai_highest >? _tile_value player_highest
      then Ok (mkStartingInfo ai (AiHasHighestTile ai_highest)
                 (Some (Tile.to_dict ai_highest)))
      else Ok (mkStartingInfo player (PlayerHasHighestTile player_highest) None)
  end.

(** ** The server's state *)

(** The keys of the Flask [session] the routes use; a key may be absent. *)
Record Session : Type := mkSession {
  game_id : option string;
  player_wins : option Z;
  ai_wins : option Z
}.

(** [session.get(key, default)]. *)
Definition session_get (v : option Z) (default : Z) : Z :=
  match v with
  | Some x => x
  | None => default
  end.

(** The module-level dict [games], from game id to game object. *)
Definition Games : Type := list (string * State).

Fixpoint games_get (games : Games) (key : string) : option State :=
  match games with
  | [] => None
  | (k, g) :: rest => if String.eqb k key then Some g else games_get rest key
  end.

(** [games[key] = g]; also what mutating the object [games[key]] in place
    amounts to. *)
Fixpoint games_set (games : Games) (key : string) (g : State) : Games :=
  match games with
  | [] => [(key, g)]
  | (k, g0) :: rest =>
      if String.eqb k key then (k, g) :: rest else (k, g0) :: games_set rest key g
  end.

(** What the routes read and write: the dict [games] and the session of
    the one client considered. *)
Record World : Type := mkWorld {
  games : Games;
  session : Session
}.

(** ** Replies *)

(** The four entries every game reply ends with: ['player_hand'],
    ['board'], ['game_state'], ['session_score']. *)
Record View : Type := mkView {
  v_player_hand : list TileDict;
  v_board : list TileDict;
  v_game_state : GameState;
  v_session_score : Z * Z
}.

Definition view (game : State) (sess : Session) : View :=
  mkView (get_player_hand game) (get_board game) (get_game_state game)
         (session_get (player_wins sess) 0, session_get (ai_wins sess) 0).

(** A route answers [404] with [{'error': 'Game not found'}], or a JSON
    body. *)
Inductive Reply (A : Type) : Type :=
| NotFound
| Json (body : A).

Arguments NotFound {A}.
Arguments Json {A} body.

(** The body of [/api/new-game]; [ng_ai_opening_move] is the ['tile'] of
    ['ai_opening_move'], [None] when that entry is null. *)
Record NewGameBody : Type := mkNewGameBody {
  ng_game_id : string;
  ng_ai_opening_move : option TileDict;
  ng_view : View
}.

(** The body of [/api/play-tile]: the result of [play_player_tile], the
    ['ai_move'] entry when there is one, and the view. *)
Record PlayTileBody : Type := mkPlayTileBody {
  pt_result : Response;
  pt_ai_move : option AiResult;
  pt_view : View
}.

(** The body of [/api/draw-tile]. *)
Record DrawTileBody : Type := mkDrawTileBody {
  dt_result : DrawResult;
  dt_ai_move : option AiResult;
  dt_view : View
}.

(** ** The routes *)

(** [new_game]; [new_id] is the [str(uuid.uuid4())] drawn and [shuffled]
    the shuffle made by the constructor. *)
Definition new_game (new_id : string) (shuffled : list Tile.t) (w : World)
  : outcome (World * NewGameBody) :=
  let sess := session w in
  let sess1 :=
    mkSession (game_id sess)
      (match player_wins sess with None => Some 0 | Some x => Some x end)
      (ai_wins sess) in
  let sess2 :=
    mkSession (game_id sess1) (player_wins sess1)
      (match ai_wins sess1 with None => Some 0 | Some x => Some x end) in
  game <- __init__ shuffled ;;
  let games' := games_set (games w) new_id game in
  let sess3 := mkSession (Some new_id) (player_wins sess2) (ai_wins sess2) in
  let ai_opening_move :=
    if nonempty (get_board game) then hd_error (get_board game) else None in
  Ok (mkWorld games' sess3, mkNewGameBody new_id ai_opening_move (view game sess3)).

(** The lookup both game routes start with:
    [if not game_id or game_id not in games]. *)
Definition find_game (w : World) : option (string * State) :=
  match game_id (session w) with
  | None => None
  | Some gid =>
      if String.eqb gid "" then None
      else match games_get (games w) gid with
           | None => None
           | Some game => Some (gid, game)
           end
  end.

(** Truth value of the [winner] entry: [None] is false, a name is true. *)
Definition winner_named (w : option Player) : bool :=
  match w with
  | Some _ => true
  | None => false
  end.

(** The score update of [play_tile]. *)
Definition count_win (game_state : GameState) (sess : Session) : Session :=
  if gs_game_over game_state && winner_named (gs_winner game_state)
  then
    match gs_winner game_state with
    | Some player =>
        mkSession (game_id sess) (Some (session_get (player_wins sess) 0 + 1)) (ai_wins sess)
    | _ =>
        mkSession (game_id sess) (player_wins sess) (Some (session_get (ai_wins sess) 0 + 1))
    end
  else sess.

(** The route [play_tile]; [tile] and [position] are the two entries of
    the request. *)
Definition route_play_tile (fuel : nat) (w : World) (tile : TileDict) (position : string)
  : outcome (World * Reply PlayTileBody) :=
  match find_game w with
  | None => Ok (w, NotFound)
  | Some (gid, game) =>
      '(game1, result) <- play_player_tile game tile position ;;
      if success result then
        '(game2, ai_result) <- ai_play fuel game1 ;;
        let sess' := count_win (get_game_state game2) (session w) in
        Ok (mkWorld (games_set (games w) gid game2) sess',
            Json (mkPlayTileBody result (Some ai_result) (view game2 sess')))
      else
        Ok (mkWorld (games_set (games w) gid game1) (session w),
            Json (mkPlayTileBody result None (view game1 (session w))))
  end.

(** The route [play_tile] on the value [data] that [request.get_json()]
    returned: [data.get('tile')] and [data.get('position')] are handed to
    [play_player_tile] as they are. *)
Definition route_play_tile_dyn (fuel : nat) (w : World) (data : PyValue)
  : outcome (World * Reply PlayTileBody) :=
  match find_game w with
  | None => Ok (w, NotFound)
  | Some (gid, game) =>
      tile <- py_get data "tile" ;;
      position <- py_get data "position" ;;
      '(game1, result) <- play_player_tile_dyn game tile position ;;
      if success result then
        '(game2, ai_result) <- ai_play fuel game1 ;;
        let sess' := count_win (get_game_state game2) (session w) in
        Ok (mkWorld (games_set (games w) gid game2) sess',
            Json (mkPlayTileBody result (Some ai_result) (view game2 sess')))
      else
        Ok (mkWorld (games_set (games w) gid game1) (session w),
            Json (mkPlayTileBody result None (view game1 (session w))))
  end.

(** [result.get('passed')]. *)
Definition draw_passed (r : DrawResult) : bool :=
  match r with
  | DrawPassed _ => true
  | _ => false
  end.

(** The route [draw_tile]. *)
Definition route_draw_tile (fuel : nat) (w : World)
  : outcome (World * Reply DrawTileBody) :=
  match find_game w with
  | None => Ok (w, NotFound)
  | Some (gid, game) =>
      '(game1, result) <- player_draw_until_playable fuel game ;;
      if draw_passed result then
        '(game2, ai_result) <- ai_play fuel game1 ;;
        Ok (mkWorld (games_set (games w) gid game2) (session w),
            Json (mkDrawTileBody result (Some ai_result) (view game2 (session w))))
      else
        Ok (mkWorld (games_set (games w) gid game1) (session w),
            Json (mkDrawTileBody result None (view game1 (session w))))
  end.

(** [get_session_score] and [reset_session_score]. *)
Definition get_session_score (w : World) : Z * Z :=
  (session_get (player_wins (session w)) 0, session_get (ai_wins (session w)) 0).

Definition reset_session_score (w : World) : World :=
  mkWorld (games w) (mkSession (game_id (session w)) (Some 0) (Some 0)).

(** ** Worlds the server can be in *)

(** One request that is answered (a request on which [play_player_tile]
    raises leaves the world as it was). *)
Inductive wstep : World -> World -> Prop :=
| wstep_new_game new_id shuffled w w' body :
    Permutation shuffled _create_domino_set ->
    new_game new_id shuffled w = Ok (w', body) -> wstep w w'
| wstep_play_tile fuel w tile position w' reply :
    route_play_tile fuel w tile position = Ok (w', reply) -> wstep w w'
| wstep_draw_tile fuel w w' reply :
    route_draw_tile fuel w = Ok (w', reply) -> wstep w w'
| wstep_reset w :
    wstep w (reset_session_score w).

(** The worlds reached from the start of the server: no game stored, an
    empty session. *)
Inductive wreachable : World -> Prop :=
| wreachable_start : wreachable (mkWorld [] (mkSession None None None))
| wreachable_step w w' : wreachable w -> wstep w w' -> wreachable w'.

(** A stored game as the routes leave it: reachable for the engine, and
    with the player to move unless it is over. *)
Definition served (g : State) : Prop :=
  reachable g /\ (current_player g = player \/ game_over g = true).

Definition all_served (w : World) : Prop :=
  forall k g, games_get (games w) k = Some g -> served g.

(** The server after one [new_game] request that drew the id "g1" and the
    shuffle [deal1]. *)
Definition world1 : World :=
  mkWorld [("g1"%string, game1)] (mkSession (Some "g1"%string) (Some 0) (Some 0)).

(** ** A finished game on the server *)





(** * Properties *)

(** ** Basic facts about the data and the list operations *)

Section TileFacts.

Lemma Tile_eqb_refl (a : Tile.t) : Tile.eqb a a = true.
Proof. unfold Tile.eqb. rewrite !Z.eqb_refl. reflexivity. Qed.

Lemma Tile_eqb_sym (a b : Tile.t) : Tile.eqb a b = Tile.eqb b a.
Proof.
  unfold Tile.eqb.
  rewrite (Z.eqb_sym (Tile.left a) (Tile.left b)), (Z.eqb_sym (Tile.right a) (Tile.right b)),
    (Z.eqb_sym (Tile.left a) (Tile.right b)), (Z.eqb_sym (Tile.right a) (Tile.left b)).
  destruct (Tile.left b =? Tile.left a), (Tile.right b =? Tile.right a),
    (Tile.right b =? Tile.left a), (Tile.left b =? Tile.right a); reflexivity.
Qed.

Lemma Tile_eqb_true (a b : Tile.t) :
  Tile.eqb a b = true <->
  (Tile.left a = Tile.left b /\ Tile.right a = Tile.right b)
  \/ (Tile.left a = Tile.right b /\ Tile.right a = Tile.left b).
Proof.
  unfold Tile.eqb. rewrite orb_true_iff, !andb_true_iff, !Z.eqb_eq. tauto.
Qed.

Lemma has_value_Some (tile : Tile.t) (v : Z) :
  Tile.has_value tile (Some v) = true <-> Tile.left tile = v \/ Tile.right tile = v.
Proof.
  unfold Tile.has_value, int_eq. rewrite orb_true_iff, !Z.eqb_eq. tauto.
Qed.

End TileFacts.

Lemma norm_eq_iff (a b : Tile.t) : norm a = norm b <-> Tile.eqb a b = true.
Proof.
  rewrite Tile_eqb_true. destruct a as [al ar], b as [bl br]; unfold norm; simpl.
  split.
  - intros H. injection H as Hmin Hmax. lia.
  - intros H. f_equal; lia.
Qed.

Section ListFacts.

Lemma list_in_true (x : Tile.t) (l : list Tile.t) :
  list_in x l = true <-> exists y, In y l /\ Tile.eqb y x = true.
Proof. unfold list_in. apply existsb_exists. Qed.

Lemma list_in_In (x : Tile.t) (l : list Tile.t) : In x l -> list_in x l = true.
Proof. intros H. apply list_in_true. exists x. split; [assumption | apply Tile_eqb_refl]. Qed.

(** What [remove] does when it returns: it splits the list at the first
    item equal to [x]. *)
Lemma list_remove_Ok (x : Tile.t) (l l' : list Tile.t) :
  list_remove x l = Ok l' ->
  exists l1 y l2, l = l1 ++ y :: l2 /\ l' = l1 ++ l2
                  /\ Tile.eqb y x = true /\ list_in x l1 = false.
Proof.
  revert l'. induction l as [|item rest IH]; intros l' H; simpl in H.
  - discriminate.
  - destruct (Tile.eqb item x) eqn:E.
    + injection H as <-. exists [], item, rest. auto.
    + destruct (list_remove x rest) as [r| |] eqn:R; simpl in H; try discriminate.
      injection H as <-.
      destruct (IH r eq_refl) as (l1 & y & l2 & -> & -> & Hy & Hl1).
      exists (item :: l1), y, l2. simpl. rewrite E. auto.
Qed.

(** [remove] does not raise when [x in l]. *)
Lemma list_remove_in (x : Tile.t) (l : list Tile.t) :
  list_in x l = true -> exists l', list_remove x l = Ok l'.
Proof.
  induction l as [|item rest IH]; simpl; intros H.
  - discriminate.
  - destruct (Tile.eqb item x) eqn:E.
    + eauto.
    + simpl in H. destruct (IH H) as [l' ->]. simpl. eauto.
Qed.

Lemma list_remove_perm (x : Tile.t) (l l' : list Tile.t) :
  list_remove x l = Ok l' -> Permutation (map norm l) (norm x :: map norm l').
Proof.
  intros H. destruct (list_remove_Ok _ _ _ H) as (l1 & y & l2 & -> & -> & Hy & _).
  apply norm_eq_iff in Hy. rewrite <- Hy, !map_app. simpl.
  symmetry. apply Permutation_middle.
Qed.

Lemma list_remove_length (x : Tile.t) (l l' : list Tile.t) :
  list_remove x l = Ok l' -> length l = S (length l').
Proof.
  intros H. destruct (list_remove_Ok _ _ _ H) as (l1 & y & l2 & -> & -> & _).
  rewrite !length_app. simpl. lia.
Qed.

(** [pop] on a non-empty list returns its last item and the rest. *)
Lemma list_pop_nonempty {A : Type} (l : list A) :
  nonempty l = true -> exists x r, list_pop l = Ok (x, r) /\ l = r ++ [x].
Proof.
  intros H. unfold list_pop. destruct (rev l) as [|x r] eqn:E.
  - apply (f_equal (@rev A)) in E. rewrite rev_involutive in E. subst l. discriminate.
  - exists x, (rev r). split; [reflexivity|].
    apply (f_equal (@rev A)) in E. rewrite rev_involutive in E. exact E.
Qed.

Lemma list_pop_Ok {A : Type} (l : list A) (x : A) (r : list A) :
  list_pop l = Ok (x, r) -> l = r ++ [x].
Proof.
  unfold list_pop. destruct (rev l) as [|y r'] eqn:E; intros H; [discriminate|].
  injection H as <- <-.
  apply (f_equal (@rev A)) in E. rewrite rev_involutive in E. exact E.
Qed.

Lemma nonempty_true {A : Type} (l : list A) : nonempty l = true <-> l <> [].
Proof. destruct l; simpl; split; congruence. Qed.

Lemma nonempty_false {A : Type} (l : list A) : nonempty l = false <-> l = [].
Proof. destruct l; simpl; split; congruence. Qed.

(** [max_from] returns an item of the list (or the start value) with the
    greatest key. *)
Lemma max_from_spec {A : Type} (key : A -> Z) (l : list A) (best : A) :
  let m := max_from key best l in
  (m = best \/ In m l) /\ key best <= key m /\ (forall x, In x l -> key x <= key m).
Proof.
  revert best. induction l as [|x rest IH]; intros best; simpl.
  - repeat split; auto; try lia; intros x [].
  - destruct (IH (if key best <? key x then x else best)) as (Hin & Hge & Hall).
    destruct (Z.ltb_spec (key best) (key x)) as [Hlt|Hle].
    + repeat split.
      * destruct Hin as [->|Hin]; auto.
      * lia.
      * intros y [<-|Hy]; [lia | auto].
    + repeat split.
      * destruct Hin as [->|Hin]; auto.
      * lia.
      * intros y [<-|Hy]; [lia | auto].
Qed.

Lemma list_max_spec {A : Type} (key : A -> Z) (l : list A) :
  l <> [] ->
  exists m, list_max key l = Ok m /\ In m l /\ (forall x, In x l -> key x <= key m).
Proof.
  destruct l as [|x rest]; [congruence|]. intros _.
  exists (max_from key x rest). simpl.
  destruct (max_from_spec key rest x) as (Hin & Hge & Hall).
  repeat split.
  - destruct Hin as [->|Hin]; auto.
  - intros y [<-|Hy]; [lia | auto].
Qed.

Lemma last_indep {A : Type} (x : A) (l : list A) (d d' : A) :
  last (x :: l) d = last (x :: l) d'.
Proof.
  revert x. induction l as [|y l IH]; intros x; [reflexivity|].
  change (last (y :: l) d = last (y :: l) d'). apply IH.
Qed.

End ListFacts.

(** ** The engine's helpers against the rules *)

Lemma is_double_true (t : Tile.t) : Tile.is_double t = true <-> is_a_double t.
Proof. unfold Tile.is_double, is_a_double. apply Z.eqb_eq. Qed.

Lemma is_double_false (t : Tile.t) : Tile.is_double t = false <-> ~ is_a_double t.
Proof. unfold Tile.is_double, is_a_double. apply Z.eqb_neq. Qed.

Lemma tile_value_pips (t : Tile.t) : _tile_value t = pips t.
Proof. reflexivity. Qed.

Lemma sum_tile_values (hand : list Tile.t) :
  sum_Z (map _tile_value hand) = pips_of_hand hand.
Proof.
  induction hand as [|t rest IH]; [reflexivity|].
  simpl. rewrite <- IH, tile_value_pips. reflexivity.
Qed.

(** ** Legality: [can_play_tile] *)

Lemma get_board_ends_cons (first : Tile.t) (rest : list Tile.t) :
  get_board_ends (first :: rest)
  = (Some (Tile.left first), Some (Tile.right (last (first :: rest) first))).
Proof. reflexivity. Qed.

Lemma get_board_ends_Some (board : list Tile.t) (l r : Z) :
  get_board_ends board = (Some l, Some r) -> nonempty board = true.
Proof. destruct board; simpl; [discriminate | reflexivity]. Qed.

Lemma can_play_tile_ends (board : list Tile.t) (tile : Tile.t) (l r : Z) :
  get_board_ends board = (Some l, Some r) ->
  can_play_tile board tile
  = mkPlayable (Tile.has_value tile (Some l)) (Tile.has_value tile (Some r)).
Proof.
  intros H. unfold can_play_tile. rewrite (get_board_ends_Some _ _ _ H), H. reflexivity.
Qed.



(** ** Placement: [play_tile] *)



Lemma play_tile_not_in_hand (board : list Tile.t) (tile : Tile.t) (position : string)
    (hand : list Tile.t) :
  list_in tile hand = false -> play_tile board tile position hand = Ok (false, board, hand).
Proof. intros H. unfold play_tile. rewrite H. reflexivity. Qed.

Lemma play_tile_right (board : list Tile.t) (tile : Tile.t) (hand : list Tile.t) (l r : Z) :
  get_board_ends board = (Some l, Some r) ->
  list_in tile hand = true ->
  Tile.has_value tile (Some r) = true ->
  exists hand',
    list_remove tile hand = Ok hand'
    /\ play_tile board tile "right" hand
       = Ok (true, board ++ [if Tile.left tile =? r then tile else flipped tile], hand').
Proof.
  intros Hends Hin Hval. destruct (list_remove_in _ _ Hin) as [hand' Hrm].
  exists hand'. split; [assumption|].
  unfold play_tile. rewrite Hin, (get_board_ends_Some _ _ _ Hends), Hends, Hval, Hrm.
  simpl. destruct (Tile.left tile =? r); reflexivity.
Qed.

Lemma play_tile_left (board : list Tile.t) (tile : Tile.t) (hand : list Tile.t) (l r : Z) :
  get_board_ends board = (Some l, Some r) ->
  list_in tile hand = true ->
  Tile.has_value tile (Some l) = true ->
  exists hand',
    list_remove tile hand = Ok hand'
    /\ play_tile board tile "left" hand
       = Ok (true, (if Tile.right tile =? l then tile else flipped tile) :: board, hand').
Proof.
  intros Hends Hin Hval. destruct (list_remove_in _ _ Hin) as [hand' Hrm].
  exists hand'. split; [assumption|].
  unfold play_tile. rewrite Hin, (get_board_ends_Some _ _ _ Hends), Hends, Hval, Hrm.
  simpl. destruct (Tile.right tile =? l); reflexivity.
Qed.

Lemma play_tile_empty_board (tile : Tile.t) (position : string) (hand : list Tile.t) :
  list_in tile hand = true ->
  exists hand', list_remove tile hand = Ok hand'
                /\ play_tile [] tile position hand = Ok (true, [tile], hand').
Proof.
  intros Hin. destruct (list_remove_in _ _ Hin) as [hand' Hrm].
  exists hand'. split; [assumption|]. unfold play_tile. rewrite Hin, Hrm. reflexivity.
Qed.

Lemma play_tile_wrong_side (board : list Tile.t) (tile : Tile.t) (position : string)
    (hand : list Tile.t) (l r : Z) :
  get_board_ends board = (Some l, Some r) ->
  ~ (position = "left"%string /\ Tile.has_value tile (Some l) = true) ->
  ~ (position = "right"%string /\ Tile.has_value tile (Some r) = true) ->
  play_tile board tile position hand = Ok (false, board, hand).
Proof.
  intros Hends Hl Hr.
  unfold play_tile. destruct (list_in tile hand); [|reflexivity]. simpl.
  rewrite (get_board_ends_Some _ _ _ Hends), Hends. simpl.
  assert (H1 : String.eqb position "left" && Tile.has_value tile (Some l) = false).
  { apply andb_false_iff. destruct (String.eqb_spec position "left"); [|auto].
    right. destruct (Tile.has_value tile (Some l)); [|reflexivity].
    exfalso. apply Hl. auto. }
  assert (H2 : String.eqb position "right" && Tile.has_value tile (Some r) = false).
  { apply andb_false_iff. destruct (String.eqb_spec position "right"); [|auto].
    right. destruct (Tile.has_value tile (Some r)); [|reflexivity].
    exfalso. apply Hr. auto. }
  rewrite H1, H2. reflexivity.
Qed.



(** Every call of [play_tile] returns: either [False] with nothing
    changed, or [True] with the tile laid at one end, as it is or flipped,
    and removed from the hand. *)
Lemma play_tile_inv (board : list Tile.t) (tile : Tile.t) (position : string)
    (hand : list Tile.t) :
  play_tile board tile position hand = Ok (false, board, hand)
  \/ exists placed hand',
      list_remove tile hand = Ok hand'
      /\ Tile.eqb placed tile = true
      /\ (play_tile board tile position hand = Ok (true, board ++ [placed], hand')
          \/ (board <> []
              /\ play_tile board tile position hand = Ok (true, placed :: board, hand'))).
Proof.
  destruct (list_in tile hand) eqn:Hin.
  2:{ left. apply play_tile_not_in_hand. exact Hin. }
  destruct board as [|first rest].
  { right. destruct (play_tile_empty_board tile position hand Hin) as (hand' & Hrm & Hp).
    exists tile, hand'. rewrite Tile_eqb_refl. auto. }
  pose proof (get_board_ends_cons first rest) as Hends.
  set (l := Tile.left first) in *. set (r := Tile.right (last (first :: rest) first)) in *.
  assert (Hflip : forall c : bool, Tile.eqb (if c then tile else flipped tile) tile = true).
  { intros [|]; [apply Tile_eqb_refl|]. apply Tile_eqb_true. simpl. auto. }
  destruct (String.eqb_spec position "left") as [El|El].
  - destruct (Tile.has_value tile (Some l)) eqn:Vl.
    + right. destruct (play_tile_left _ _ _ _ _ Hends Hin Vl) as (hand' & Hrm & Hp).
      exists (if Tile.right tile =? l then tile else flipped tile), hand'.
      subst position. repeat split; auto. right. split; [discriminate | exact Hp].
    + left. subst position. apply (play_tile_wrong_side _ _ _ _ l r Hends).
      * intros [_ H]. congruence.
      * intros [H _]. discriminate.
  - destruct (String.eqb_spec position "right") as [Er|Er].
    + destruct (Tile.has_value tile (Some r)) eqn:Vr.
      * right. destruct (play_tile_right _ _ _ _ _ Hends Hin Vr) as (hand' & Hrm & Hp).
        exists (if Tile.left tile =? r then tile else flipped tile), hand'.
        subst position. repeat split; auto.
      * left. apply (play_tile_wrong_side _ _ _ _ l r Hends).
        -- intros [H _]. contradiction.
        -- intros [_ H]. congruence.
    + left. apply (play_tile_wrong_side _ _ _ _ l r Hends).
      * intros [H _]. contradiction.
      * intros [H _]. contradiction.
Qed.

(** What a successful [play_tile] did to the board. *)
Lemma play_tile_true_inv (board : list Tile.t) (tile : Tile.t) (position : string)
    (hand board' hand' : list Tile.t) :
  play_tile board tile position hand = Ok (true, board', hand') ->
  list_in tile hand = true
  /\ list_remove tile hand = Ok hand'
  /\ ((board = [] /\ board' = [tile])
      \/ (exists l r,
             get_board_ends board = (Some l, Some r)
             /\ position = "left"%string
             /\ Tile.has_value tile (Some l) = true
             /\ board' = (if Tile.right tile =? l then tile else flipped tile) :: board)
      \/ (exists l r,
             get_board_ends board = (Some l, Some r)
             /\ position = "right"%string
             /\ Tile.has_value tile (Some r) = true
             /\ board' = board ++ [if Tile.left tile =? r then tile else flipped tile])).
Proof.
  intros H.
  destruct (list_in tile hand) eqn:Hin.
  2:{ rewrite (play_tile_not_in_hand _ _ _ _ Hin) in H. discriminate. }
  split; [reflexivity|].
  destruct board as [|first rest].
  { destruct (play_tile_empty_board tile position hand Hin) as (h & Hrm & Hp).
    rewrite Hp in H. injection H as <- <-. auto. }
  pose proof (get_board_ends_cons first rest) as Hends.
  set (l := Tile.left first) in *. set (r := Tile.right (last (first :: rest) first)) in *.
  destruct (String.eqb_spec position "left") as [El|El];
    [destruct (Tile.has_value tile (Some l)) eqn:Vl|].
  - subst position.
    destruct (play_tile_left _ _ _ _ _ Hends Hin Vl) as (h & Hrm & Hp).
    rewrite Hp in H. injection H as <- <-. split; [exact Hrm|].
    right; left. exists l, r. auto.
  - subst position. rewrite (play_tile_wrong_side _ _ _ _ l r Hends) in H; try discriminate.
    + intros [_ X]. congruence.
    + intros [X _]. discriminate.
  - destruct (String.eqb_spec position "right") as [Er|Er];
      [destruct (Tile.has_value tile (Some r)) eqn:Vr|].
    + subst position.
      destruct (play_tile_right _ _ _ _ _ Hends Hin Vr) as (h & Hrm & Hp).
      rewrite Hp in H. injection H as <- <-. split; [exact Hrm|].
      right; right. exists l, r. auto.
    + rewrite (play_tile_wrong_side _ _ _ _ l r Hends) in H; try discriminate.
      * intros [X _]. contradiction.
      * intros [_ X]. congruence.
    + rewrite (play_tile_wrong_side _ _ _ _ l r Hends) in H; try discriminate.
      * intros [X _]. contradiction.
      * intros [X _]. contradiction.
Qed.

(** ** A concrete game *)

Lemma Tile_same_eq (a b : Tile.t) : Tile_same a b = true -> a = b.
Proof.
  unfold Tile_same. rewrite andb_true_iff, !Z.eqb_eq.
  destruct a, b; simpl. intros [-> ->]. reflexivity.
Qed.

Lemma take_out_Permutation (x : Tile.t) (l l' : list Tile.t) :
  take_out x l = Some l' -> Permutation (x :: l') l.
Proof.
  revert l'. induction l as [|y rest IH]; simpl; intros l' H; [discriminate|].
  destruct (Tile_same y x) eqn:E.
  - injection H as <-. apply Tile_same_eq in E. subst y. reflexivity.
  - destruct (take_out x rest) as [rest'|]; [|discriminate].
    injection H as <-. rewrite perm_swap. constructor. apply IH. reflexivity.
Qed.

Lemma same_tiles_Permutation (l1 l2 : list Tile.t) :
  same_tiles l1 l2 = true -> Permutation l1 l2.
Proof.
  revert l2. induction l1 as [|x rest IH]; simpl; intros l2 H.
  - destruct l2; [constructor | discriminate].
  - destruct (take_out x l2) as [l2'|] eqn:E; [|discriminate].
    rewrite <- (take_out_Permutation _ _ _ E). constructor. apply IH. exact H.
Qed.

Lemma deal1_shuffled : Permutation deal1 _create_domino_set.
Proof. apply same_tiles_Permutation. vm_compute. reflexivity. Qed.

Lemma init_deal1 : __init__ deal1 = Ok game1.
Proof. vm_compute. reflexivity. Qed.

Lemma game1_reachable : reachable game1.
Proof. exact (reachable_init deal1 game1 deal1_shuffled init_deal1). Qed.

Lemma game1_opening :
  play_player_tile game1 (mkTileDict 6 6) "left"
  = Ok (game2, mkResponse true "Tile played successfully").
Proof. vm_compute. reflexivity. Qed.

Lemma game2_reachable : reachable game2.
Proof.
  apply (reachable_step game1 game2 game1_reachable).
  exact (step_play_player_tile _ _ _ _ _ game1_opening).
Qed.

(** ** The player's move: [play_player_tile] *)

Lemma find_tile_Some (hand : list Tile.t) (tile_dict : TileDict) (t : Tile.t) :
  find_tile hand tile_dict = Some t ->
  In t hand /\ Tile.left t = d_left tile_dict /\ Tile.right t = d_right tile_dict.
Proof.
  intros H. apply find_some in H. destruct H as [Hin H].
  apply andb_true_iff in H. rewrite !Z.eqb_eq in H. tauto.
Qed.

Lemma find_tile_None (hand : list Tile.t) (tile_dict : TileDict) :
  find_tile hand tile_dict = None <->
  forall t, In t hand ->
            ~ (Tile.left t = d_left tile_dict /\ Tile.right t = d_right tile_dict).
Proof.
  split.
  - intros H t Hin [Hl Hr]. pose proof (find_none _ _ H t Hin) as Hf. simpl in Hf.
    rewrite Hl, Hr, !Z.eqb_refl in Hf. discriminate.
  - intros H. destruct (find_tile hand tile_dict) as [t|] eqn:E; [|reflexivity].
    apply find_tile_Some in E. destruct E as (Hin & Hl & Hr).
    exfalso. apply (H t Hin). auto.
Qed.

Lemma state_eta (s : State) : set_player_hand (player_hand s) (set_board (board s) s) = s.
Proof. destruct s. reflexivity. Qed.

Lemma players_turn (s : State) :
  negb (Player_eqb (current_player s) player) || game_over s = false
  <-> current_player s = player /\ game_over s = false.
Proof.
  destruct (current_player s), (game_over s); simpl; split;
    intros H; try discriminate; try tauto; destruct H; discriminate.
Qed.

Lemma ais_turn (s : State) :
  negb (Player_eqb (current_player s) ai) || game_over s = false
  <-> current_player s = ai /\ game_over s = false.
Proof.
  destruct (current_player s), (game_over s); simpl; split;
    intros H; try discriminate; try tauto; destruct H; discriminate.
Qed.

(** A tile of the hand that [can_play_tile] allows on [position] is
    always placed by [play_tile]. *)
Lemma play_tile_allowed (board : list Tile.t) (tile : Tile.t) (position : string)
    (hand : list Tile.t) :
  list_in tile hand = true ->
  playable_get (can_play_tile board tile) position = Ok true ->
  exists placed hand',
    list_remove tile hand = Ok hand'
    /\ Tile.eqb placed tile = true
    /\ (play_tile board tile position hand = Ok (true, board ++ [placed], hand')
        \/ (board <> []
            /\ play_tile board tile position hand = Ok (true, placed :: board, hand'))).
Proof.
  intros Hin Hal.
  destruct board as [|first rest].
  { destruct (play_tile_empty_board tile position hand Hin) as (hand' & Hrm & Hp).
    exists tile, hand'. rewrite Tile_eqb_refl. auto. }
  pose proof (get_board_ends_cons first rest) as Hends.
  set (l := Tile.left first) in *. set (r := Tile.right (last (first :: rest) first)) in *.
  rewrite (can_play_tile_ends _ _ _ _ Hends) in Hal. unfold playable_get in Hal. simpl in Hal.
  assert (Hflip : forall c : bool, Tile.eqb (if c then tile else flipped tile) tile = true).
  { intros [|]; [apply Tile_eqb_refl|]. apply Tile_eqb_true. simpl. auto. }
  destruct (String.eqb_spec position "left") as [El|El].
  - injection Hal as Vl. subst position.
    destruct (play_tile_left _ _ _ _ _ Hends Hin Vl) as (hand' & Hrm & Hp).
    exists (if Tile.right tile =? l then tile else flipped tile), hand'.
    repeat split; auto. right. split; [discriminate | exact Hp].
  - destruct (String.eqb_spec position "right") as [Er|Er]; [|discriminate].
    injection Hal as Vr. subst position.
    destruct (play_tile_right _ _ _ _ _ Hends Hin Vr) as (hand' & Hrm & Hp).
    exists (if Tile.left tile =? r then tile else flipped tile), hand'.
    repeat split; auto.
Qed.

(** The five ways [play_player_tile] ends. *)
Lemma play_player_tile_cases (s : State) (tile_dict : TileDict) (position : string) :
  (* refused: not the player's turn *)
  ((current_player s <> player \/ game_over s = true)
   /\ play_player_tile s tile_dict position
      = Ok (s, mkResponse false "Not your turn or game over"))
  \/ (current_player s = player /\ game_over s = false
      /\ ((* no tile stored with these two fields *)
          (find_tile (player_hand s) tile_dict = None
           /\ play_player_tile s tile_dict position
              = Ok (s, mkResponse false "Tile not in your hand"))
          \/ exists t,
              find_tile (player_hand s) tile_dict = Some t
              /\ ((* the side is no key of the dict *)
                  (position <> "left"%string /\ position <> "right"%string
                   /\ play_player_tile s tile_dict position = Raise KeyError)
                  \/ (playable_get (can_play_tile (board s) t) position = Ok false
                      /\ play_player_tile s tile_dict position
                         = Ok (s, mkResponse false
                                    ("Cannot play tile on " ++ position ++ " side")))
                  \/ (playable_get (can_play_tile (board s) t) position = Ok true
                      /\ exists placed hand' board',
                          list_remove t (player_hand s) = Ok hand'
                          /\ Tile.eqb placed t = true
                          /\ (board' = board s ++ [placed]
                              \/ (board s <> [] /\ board' = placed :: board s))
                          /\ play_tile (board s) t position (player_hand s)
                             = Ok (true, board', hand')
                          /\ play_player_tile s tile_dict position
                             = Ok (after_player_play s board' hand',
                                   mkResponse true "Tile played successfully"))))).
Proof.
  unfold play_player_tile.
  destruct (negb (Player_eqb (current_player s) player) || game_over s) eqn:G.
  { left. split; [|reflexivity].
    destruct (current_player s), (game_over s); simpl in G;
      try discriminate; auto; left; discriminate. }
  apply players_turn in G. destruct G as [Hcp Hgo].
  right. split; [assumption|]. split; [assumption|].
  destruct (find_tile (player_hand s) tile_dict) as [t|] eqn:F; [right | left; auto].
  exists t. split; [reflexivity|].
  destruct (find_tile_Some _ _ _ F) as (Hin & _).
  destruct (playable_get (can_play_tile (board s) t) position) as [[|]| |] eqn:P.
  - right; right. split; [reflexivity|].
    destruct (play_tile_allowed (board s) t position (player_hand s) (list_in_In _ _ Hin) P)
      as (placed & hand' & Hrm & Heq & Hp).
    destruct Hp as [Hp|[Hne Hp]].
    + exists placed, hand', (board s ++ [placed]). rewrite Hp. simpl.
      repeat split; auto.
    + exists placed, hand', (placed :: board s). rewrite Hp. simpl.
      repeat split; auto.
  - right; left. split; reflexivity.
  - left. unfold playable_get in P.
    destruct (String.eqb_spec position "left"); [discriminate|].
    destruct (String.eqb_spec position "right"); [discriminate|].
    repeat split; auto. simpl. f_equal. congruence.
  - unfold playable_get in P.
    destruct (String.eqb position "left"); [discriminate|].
    destruct (String.eqb position "right"); discriminate.
Qed.

Lemma find_tile_exists (hand : list Tile.t) (tile_dict : TileDict) :
  (exists t, In t hand /\ Tile.left t = d_left tile_dict /\ Tile.right t = d_right tile_dict) ->
  exists t, find_tile hand tile_dict = Some t.
Proof.
  intros (t & Hin & Hl & Hr).
  destruct (find_tile hand tile_dict) as [t'|] eqn:F; [eauto|].
  exfalso. exact (proj1 (find_tile_None _ _) F t Hin (conj Hl Hr)).
Qed.

(** A rejected call leaves the state as it was. *)
Lemma play_player_tile_rejected (s s' : State) (tile_dict : TileDict) (position : string)
    (r : Response) :
  play_player_tile s tile_dict position = Ok (s', r) -> success r = false -> s' = s.
Proof.
  intros H Hr.
  destruct (play_player_tile_cases s tile_dict position)
    as [[_ E]|(_ & _ & [[_ E]|(t & _ & [(_ & _ & E)|[[_ E]|(_ & p & h & b & _ & _ & _ & _ & E)]])])];
    rewrite E in H; try discriminate; injection H as <- <-; try reflexivity.
  discriminate.
Qed.

(** The only exception [play_player_tile] can raise is [KeyError], and the
    loop fuel plays no part in it. *)
Lemma play_player_tile_raises_only_KeyError (s : State) (tile_dict : TileDict)
    (position : string) :
  (exists s' r, play_player_tile s tile_dict position = Ok (s', r))
  \/ play_player_tile s tile_dict position = Raise KeyError.
Proof.
  destruct (play_player_tile_cases s tile_dict position)
    as [[_ E]|(_ & _ & [[_ E]|(t & _ & [(_ & _ & E)|[[_ E]|(_ & p & h & b & _ & _ & _ & _ & E)]])])];
    rewrite E; eauto.
Qed.

(** Claim C2, where the code departs from it.  When it is the player's
    turn, the game is not over and the hand holds a tile stored with the
    two fields of [tile_dict], a [position] that is neither "left" nor
    "right" makes [play_player_tile] raise [KeyError] (the lookup
    [playable[position]]).  The claim asks for a [success = False] result
    there. *)
Theorem play_player_tile_unknown_side_raises (s : State) (tile_dict : TileDict)
    (position : string) :
  current_player s = player ->
  game_over s = false ->
  (exists t, In t (player_hand s)
             /\ Tile.left t = d_left tile_dict /\ Tile.right t = d_right tile_dict) ->
  position <> "left"%string ->
  position <> "right"%string ->
  play_player_tile s tile_dict position = Raise KeyError.
Proof.
  intros Hcp Hgo Hex Hl Hr.
  destruct (find_tile_exists _ _ Hex) as [t F].
  destruct (play_player_tile_cases s tile_dict position)
    as [[[G|G] _]|(_ & _ & [[F' _]|(t' & _ & [(_ & _ & E)|[[P _]|[P _]]])])];
    try congruence;
    unfold playable_get in P;
    destruct (String.eqb_spec position "left"); try contradiction;
    destruct (String.eqb_spec position "right"); try contradiction;
    discriminate.
Qed.

(** In the freshly dealt [game1] the player holds [6|6]; asking to play it
    on the side "middle" raises. *)
Lemma play_player_tile_unknown_side_raises_witness :
  play_player_tile game1 (mkTileDict 6 6) "middle" = Raise KeyError.
Proof.
  apply play_player_tile_unknown_side_raises.
  - reflexivity.
  - reflexivity.
  - exists (6:|:6). simpl. auto.
  - discriminate.
  - discriminate.
Defined.

(** Claim C3 fails as stated: in the reachable [game1] the player holds
    the tile stored as [5|6]; the request [{left: 6, right: 5}] names the
    same tile under [Tile.__eq__], yet the lookup does not find it and the
    move is rejected as "Tile not in your hand". *)
Lemma lookup_is_not_symmetric :
  reachable game1
  /\ In (5:|:6) (player_hand game1)
  /\ Tile.eqb (5:|:6) (6:|:5) = true
  /\ list_in (6:|:5) (player_hand game1) = true
  /\ find_tile (player_hand game1) (mkTileDict 6 5) = None
  /\ play_player_tile game1 (mkTileDict 6 5) "left"
     = Ok (game1, mkResponse false "Tile not in your hand").
Proof.
  split; [exact game1_reachable|].
  split; [simpl; auto|].
  repeat split; reflexivity.
Qed.

(** Claim C3, amended.  When it is the player's turn and the game is not
    over, [play_player_tile] looks the tile up field by field: if the hand
    holds a tile stored with [left = tile_dict.left] and
    [right = tile_dict.right], the lookup finds the first such tile; and
    the call answers "Tile not in your hand" exactly when the hand holds no
    tile stored with these two fields in this order. *)
Theorem play_player_tile_lookup_exact (s : State) (tile_dict : TileDict)
    (position : string) :
  current_player s = player ->
  game_over s = false ->
  ((exists t, In t (player_hand s)
              /\ Tile.left t = d_left tile_dict /\ Tile.right t = d_right tile_dict) ->
   exists t l1 l2,
     find_tile (player_hand s) tile_dict = Some t
     /\ player_hand s = l1 ++ t :: l2
     /\ Tile.left t = d_left tile_dict /\ Tile.right t = d_right tile_dict
     /\ find_tile l1 tile_dict = None)
  /\ (play_player_tile s tile_dict position
      = Ok (s, mkResponse false "Tile not in your hand")
      <-> forall t, In t (player_hand s) ->
                    ~ (Tile.left t = d_left tile_dict /\ Tile.right t = d_right tile_dict)).
Proof.
  intros Hcp Hgo. split.
  - intros Hex. clear Hcp Hgo. induction (player_hand s) as [|x rest IH].
    + destruct Hex as (t & [] & _).
    + destruct ((Tile.left x =? d_left tile_dict) && (Tile.right x =? d_right tile_dict)) eqn:E.
      * exists x, [], rest. unfold find_tile. simpl. rewrite E.
        apply andb_true_iff in E. rewrite !Z.eqb_eq in E. tauto.
      * destruct IH as (t & l1 & l2 & F & -> & Hl & Hr & Hn).
        { destruct Hex as (t & [<-|Hin] & Hl & Hr).
          - rewrite Hl, Hr, !Z.eqb_refl in E. discriminate.
          - eauto. }
        exists t, (x :: l1), l2. unfold find_tile in *. simpl. rewrite E. auto.
  - rewrite <- find_tile_None.
    destruct (play_player_tile_cases s tile_dict position)
      as [[[G|G] _]|(_ & _ & [[F E]|(t & F & [(_ & _ & E)|[[_ E]|(_ & p & h & b & _ & _ & _ & _ & E)]])])];
      try congruence; rewrite E, F; split; intros H; try discriminate; auto.
Qed.

(** In [game1] the request [{left: 6, right: 5}] matches no stored tile
    and is answered "Tile not in your hand"; [{left: 5, right: 6}] is found. *)
Lemma play_player_tile_lookup_exact_witness :
  play_player_tile game1 (mkTileDict 6 5) "left"
  = Ok (game1, mkResponse false "Tile not in your hand")
  /\ exists t l1 l2,
      find_tile (player_hand game1) (mkTileDict 5 6) = Some t
      /\ player_hand game1 = l1 ++ t :: l2
      /\ Tile.left t = 5 /\ Tile.right t = 6
      /\ find_tile l1 (mkTileDict 5 6) = None.
Proof.
  split.
  - apply (play_player_tile_lookup_exact game1 (mkTileDict 6 5) "left" eq_refl eq_refl).
    intros t Hin [Hl Hr]. simpl in Hin, Hl, Hr.
    repeat (destruct Hin as [<-|Hin]; [simpl in Hl, Hr; lia|]). contradiction.
  - apply (play_player_tile_lookup_exact game1 (mkTileDict 5 6) "left" eq_refl eq_refl).
    exists (5:|:6). simpl. auto.
Defined.

(** ** The state query: [get_game_state] *)



(** [any_playable] says what its name says. *)
Lemma any_playable_true (board : list Tile.t) (hand : list Tile.t) :
  any_playable board hand = true <->
  exists tile, In tile hand
               /\ (pl_left (can_play_tile board tile) = true
                   \/ pl_right (can_play_tile board tile) = true).
Proof.
  unfold any_playable. rewrite existsb_exists.
  split; intros (tile & Hin & H); exists tile; split; auto.
  - apply orb_true_iff in H. exact H.
  - apply orb_true_iff. exact H.
Qed.

Lemma any_playable_false (board : list Tile.t) (hand : list Tile.t) :
  any_playable board hand = false <->
  forall tile, In tile hand ->
               pl_left (can_play_tile board tile) = false
               /\ pl_right (can_play_tile board tile) = false.
Proof.
  split.
  - intros H tile Hin.
    destruct (pl_left (can_play_tile board tile)) eqn:L;
      destruct (pl_right (can_play_tile board tile)) eqn:R; auto;
      exfalso;
      assert (X : any_playable board hand = true)
        by (apply any_playable_true; exists tile; rewrite ?L, ?R; auto);
      congruence.
  - intros H. destruct (any_playable board hand) eqn:E; [|reflexivity].
    apply any_playable_true in E. destruct E as (tile & Hin & E).
    destruct (H tile Hin) as [L R]. rewrite L, R in E. destruct E; discriminate.
Qed.

(** ** The opening: [_determine_starting_player] *)

Section Opening.

Lemma highest_double_spec (hand : list Tile.t) :
  (highest_double hand = Ok None /\ no_double hand)
  \/ exists d, highest_double hand = Ok (Some d) /\ is_highest_double hand d.
Proof.
  unfold highest_double.
  destruct (filter Tile.is_double hand) as [|x rest] eqn:F.
  - left. split; [reflexivity|]. intros d Hin D. apply is_double_true in D.
    assert (X : In d (filter Tile.is_double hand)) by (apply filter_In; auto).
    rewrite F in X. destruct X.
  - right. rewrite <- F.
    assert (Hne : filter Tile.is_double hand <> []) by (rewrite F; discriminate).
    destruct (list_max_spec Tile.left _ Hne) as (m & Hm & Hin & Hall).
    replace (nonempty (filter Tile.is_double hand)) with true
      by (rewrite F; reflexivity).
    rewrite Hm. exists m. split; [reflexivity|].
    apply filter_In in Hin. destruct Hin as [Hin Hd]. apply is_double_true in Hd.
    repeat split; auto. intros d' Hin' Hd'. apply is_double_true in Hd'.
    apply Hall. apply filter_In. auto.
Qed.

Lemma highest_double_unique (hand : list Tile.t) (d1 d2 : Tile.t) :
  is_highest_double hand d1 -> is_highest_double hand d2 -> Tile.left d1 = Tile.left d2.
Proof.
  intros (I1 & D1 & M1) (I2 & D2 & M2).
  pose proof (M1 d2 I2 D2). pose proof (M2 d1 I1 D1). lia.
Qed.

Lemma highest_double_none (hand : list Tile.t) (d : Tile.t) :
  no_double hand -> is_highest_double hand d -> False.
Proof. intros N (I & D & _). exact (N d I D). Qed.

Lemma highest_tile_spec (hand : list Tile.t) :
  hand <> [] -> exists t, _get_highest_tile hand = Ok t /\ is_highest_tile hand t.
Proof.
  intros Hne. destruct (list_max_spec _tile_value hand Hne) as (m & Hm & Hin & Hall).
  exists m. split; [exact Hm|]. split; [assumption|].
  intros t' Hin'. rewrite <- !tile_value_pips. apply Hall. exact Hin'.
Qed.

Lemma highest_tile_unique (hand : list Tile.t) (t1 t2 : Tile.t) :
  is_highest_tile hand t1 -> is_highest_tile hand t2 -> pips t1 = pips t2.
Proof.
  intros (I1 & M1) (I2 & M2). pose proof (M1 t2 I2). pose proof (M2 t1 I1). lia.
Qed.

(** Laying an opening tile taken from the AI's hand never raises. *)
Lemma ai_opening_ok (s : State) (t : Tile.t) :
  In t (ai_hand s) ->
  exists s', _ai_play_opening_double t (set_current_player ai s) = Ok s'
             /\ _ai_play_opening_tile t (set_current_player ai s) = Ok s'
             /\ ai_opens s s' t.
Proof.
  intros Hin. destruct (list_remove_in t (ai_hand s) (list_in_In _ _ Hin)) as [hand' Hrm].
  unfold _ai_play_opening_double, _ai_play_opening_tile. simpl. rewrite Hrm. simpl.
  eexists. split; [reflexivity|]. split; [reflexivity|].
  exists hand'. split; [assumption | reflexivity].
Qed.

End Opening.

(** Claim C4.  [_determine_starting_player] resolves every tie for the
    player.  With a highest double [p] in the player's hand and [a] in the
    AI's: the player starts when [a]'s pip value is at most [p]'s (equal
    included), the AI opens with its highest double only when it is
    strictly greater.  A side holding the only double starts.  With no
    double on either side and highest tiles [p] and [a] by [left + right]:
    the player starts when [a]'s sum is at most [p]'s (equal included), the
    AI opens with a highest tile only when its sum is strictly greater. *)
Theorem determine_starting_player_correct (s : State) :
  (forall p a,
      is_highest_double (player_hand s) p ->
      is_highest_double (ai_hand s) a ->
      (Tile.left a <= Tile.left p ->
       exists s', _determine_starting_player s = Ok s' /\ player_starts s s')
      /\ (Tile.left p < Tile.left a ->
          exists s' t, _determine_starting_player s = Ok s'
                       /\ ai_opens s s' t /\ is_highest_double (ai_hand s) t))
  /\ (forall a,
         no_double (player_hand s) ->
         is_highest_double (ai_hand s) a ->
         exists s' t, _determine_starting_player s = Ok s'
                      /\ ai_opens s s' t /\ is_highest_double (ai_hand s) t)
  /\ (forall p,
         is_highest_double (player_hand s) p ->
         no_double (ai_hand s) ->
         exists s', _determine_starting_player s = Ok s' /\ player_starts s s')
  /\ (forall p a,
         no_double (player_hand s) ->
         no_double (ai_hand s) ->
         is_highest_tile (player_hand s) p ->
         is_highest_tile (ai_hand s) a ->
         (pips a <= pips p ->
          exists s', _determine_starting_player s = Ok s' /\ player_starts s s')
         /\ (pips p < pips a ->
             exists s' t, _determine_starting_player s = Ok s'
                          /\ ai_opens s s' t /\ is_highest_tile (ai_hand s) t)).
Proof.
  unfold _determine_starting_player, player_starts.
  destruct (highest_double_spec (player_hand s)) as [[HP NP]|(p0 & HP & MP)];
    destruct (highest_double_spec (ai_hand s)) as [[HA NA]|(a0 & HA & MA)];
    rewrite HP, HA; simpl.
  - (* no double on either side *)
    split; [intros p a Hp; exfalso; exact (highest_double_none _ _ NP Hp)|].
    split; [intros a _ Ha; exfalso; exact (highest_double_none _ _ NA Ha)|].
    split; [intros p Hp; exfalso; exact (highest_double_none _ _ NP Hp)|].
    intros p a _ _ Hp Ha.
    assert (HneP : player_hand s <> []) by (destruct Hp as [I _]; intros E; rewrite E in I; destruct I).
    assert (HneA : ai_hand s <> []) by (destruct Ha as [I _]; intros E; rewrite E in I; destruct I).
    destruct (highest_tile_spec _ HneP) as (p1 & Ep & Mp).
    destruct (highest_tile_spec _ HneA) as (a1 & Ea & Ma).
    rewrite Ep, Ea. simpl.
    rewrite (highest_tile_unique _ _ _ Hp Mp), (highest_tile_unique _ _ _ Ha Ma).
    split; intros Hcmp.
    + replace (_tile_value a1 >? _tile_value p1) with false
        by (symmetry; rewrite Z.gtb_ltb; apply Z.ltb_ge;
            unfold pips, _tile_value in *; lia).
      eauto.
    + replace (_tile_value a1 >? _tile_value p1) with true
        by (symmetry; rewrite Z.gtb_ltb; apply Z.ltb_lt;
            unfold pips, _tile_value in *; lia).
      destruct (ai_opening_ok s a1 (proj1 Ma)) as (s' & _ & E & O).
      exists s', a1. auto.
  - (* only the AI holds a double *)
    split; [intros p a Hp; exfalso; exact (highest_double_none _ _ NP Hp)|].
    split.
    { intros a _ _. destruct MA as (I & D & M).
      destruct (ai_opening_ok s a0 I) as (s' & E & _ & O).
      exists s', a0. repeat split; auto. }
    split; [intros p Hp; exfalso; exact (highest_double_none _ _ NP Hp)|].
    intros p a _ N. exfalso. exact (highest_double_none _ _ N MA).
  - (* only the player holds a double *)
    split; [intros p a _ Ha; exfalso; exact (highest_double_none _ _ NA Ha)|].
    split; [intros a N; exfalso; exact (highest_double_none _ _ N MP)|].
    split; [eauto|].
    intros p a N. exfalso. exact (highest_double_none _ _ N MP).
  - (* both hold a double *)
    split.
    { intros p a Hp Ha.
      rewrite (highest_double_unique _ _ _ Hp MP), (highest_double_unique _ _ _ Ha MA).
      split; intros Hcmp.
      - replace (Tile.left a0 >? Tile.left p0) with false
          by (symmetry; rewrite Z.gtb_ltb; apply Z.ltb_ge; lia).
        eauto.
      - replace (Tile.left a0 >? Tile.left p0) with true
          by (symmetry; rewrite Z.gtb_ltb; apply Z.ltb_lt; lia).
        destruct (ai_opening_ok s a0 (proj1 MA)) as (s' & E & _ & O).
        exists s', a0. auto. }
    split; [intros a N; exfalso; exact (highest_double_none _ _ N MP)|].
    split; [intros p _ N; exfalso; exact (highest_double_none _ _ N MA)|].
    intros p a N. exfalso. exact (highest_double_none _ _ N MP).
Qed.

(** Going through the members of a concrete hand. *)
Ltac each_tile H :=
  vm_compute in H;
  repeat (destruct H as [<-|H]; [try (vm_compute; congruence); try (vm_compute; discriminate)|]);
  try contradiction.

(** The claim C4 at five pairs of hands.  [dealt_tie]: no double, equal
    highest sums, the player starts.  [dealt deal2]: only the AI holds
    doubles, it opens with [3|3].  [game1]: only the player holds a double,
    the player starts.  The unshuffled set: the player's highest double is
    [0|0], the AI's [2|2], the AI opens with it.  [equal_doubles]: both
    highest doubles are [2|2], the player starts. *)
Lemma determine_starting_player_correct_witness :
  (exists s', _determine_starting_player dealt_tie = Ok s' /\ player_starts dealt_tie s')
  /\ (exists s', _determine_starting_player (dealt deal2) = Ok s'
                 /\ ai_opens (dealt deal2) s' (3:|:3))
  /\ (exists s', _determine_starting_player game1 = Ok s' /\ player_starts game1 s')
  /\ (exists s', _determine_starting_player (dealt _create_domino_set) = Ok s'
                 /\ ai_opens (dealt _create_domino_set) s' (2:|:2))
  /\ (exists s', _determine_starting_player equal_doubles = Ok s'
                 /\ player_starts equal_doubles s').
Proof.
  split; [|split; [|split; [|split]]].
  - destruct (determine_starting_player_correct dealt_tie) as (_ & _ & _ & H).
    apply (H (3:|:6) (4:|:5)).
    + intros d Hin D. each_tile Hin.
    + intros d Hin D. each_tile Hin.
    + split; [vm_compute; auto|]. intros t Hin. each_tile Hin.
    + split; [vm_compute; auto|]. intros t Hin. each_tile Hin.
    + vm_compute. discriminate.
  - destruct (determine_starting_player_correct (dealt deal2)) as (_ & H & _).
    destruct (H (3:|:3)) as (s' & t & E & O & _).
    + intros d Hin D. each_tile Hin.
    + split; [vm_compute; auto 10|]. split; [reflexivity|].
      intros d Hin D. each_tile Hin.
    + exists s'. split; [exact E|].
      vm_compute in E. injection E as <-. eexists. split; reflexivity.
  - destruct (determine_starting_player_correct game1) as (_ & _ & H & _).
    apply (H (6:|:6)).
    + split; [vm_compute; auto|]. split; [reflexivity|].
      intros d Hin D. each_tile Hin.
    + intros d Hin D. each_tile Hin.
  - destruct (determine_starting_player_correct (dealt _create_domino_set)) as (H & _).
    destruct (H (0:|:0) (2:|:2)) as (_ & Hgt).
    + split; [vm_compute; auto|]. split; [reflexivity|].
      intros d Hin D. each_tile Hin.
    + split; [vm_compute; auto 10|]. split; [reflexivity|].
      intros d Hin D. each_tile Hin.
    + destruct Hgt as (s' & t & E & O & _); [vm_compute; reflexivity|].
      exists s'. split; [exact E|].
      vm_compute in E. injection E as <-. eexists. split; reflexivity.
  - destruct (determine_starting_player_correct equal_doubles) as (H & _).
    destruct (H (2:|:2) (2:|:2)) as (Hle & _).
    + split; [vm_compute; auto|]. split; [reflexivity|].
      intros d Hin D. each_tile Hin.
    + split; [vm_compute; auto|]. split; [reflexivity|].
      intros d Hin D. each_tile Hin.
    + apply Hle. vm_compute. discriminate.
Defined.

(** ** Game over: [_check_game_over] *)

Lemma check_game_over_collections (s : State) :
  player_hand (_check_game_over s) = player_hand s
  /\ ai_hand (_check_game_over s) = ai_hand s
  /\ board (_check_game_over s) = board s
  /\ boneyard (_check_game_over s) = boneyard s
  /\ current_player (_check_game_over s) = current_player s.
Proof.
  unfold _check_game_over.
  destruct (nonempty (player_hand s)), (nonempty (ai_hand s)), (nonempty (boneyard s));
    simpl; auto;
    destruct (negb (any_playable (board s) (player_hand s))
              && negb (any_playable (board s) (ai_hand s))); simpl; auto.
Qed.

Lemma check_game_over_blocked (s : State) :
  player_hand s <> [] ->
  ai_hand s <> [] ->
  boneyard s = [] ->
  any_playable (board s) (player_hand s) = false ->
  any_playable (board s) (ai_hand s) = false ->
  _check_game_over s
  = set_game_over true
      (Some (if sum_Z (map _tile_value (player_hand s)) <? sum_Z (map _tile_value (ai_hand s))
             then player else ai)) s.
Proof.
  intros Hp Ha Hb Pp Pa. unfold _check_game_over.
  apply nonempty_true in Hp. apply nonempty_true in Ha.
  rewrite Hp, Ha, Hb, Pp, Pa. reflexivity.
Qed.

(** ** The AI's drawing loop *)

Lemma playable_moves_In (board hand : list Tile.t) (tile : Tile.t) (position : string) :
  In (tile, position) (playable_moves board hand) <->
  In tile hand
  /\ ((position = "left"%string /\ pl_left (can_play_tile board tile) = true)
      \/ (position = "right"%string /\ pl_right (can_play_tile board tile) = true)).
Proof.
  unfold playable_moves. rewrite in_flat_map. split.
  - intros (t & Hin & H). apply in_app_or in H. destruct H as [H|H].
    + destruct (pl_left (can_play_tile board t)) eqn:L; [|destruct H].
      destruct H as [H|[]]. injection H as <- <-. auto.
    + destruct (pl_right (can_play_tile board t)) eqn:R; [|destruct H].
      destruct H as [H|[]]. injection H as <- <-. auto.
  - intros (Hin & [[-> L]|[-> R]]); exists tile; (split; [assumption|]);
      apply in_or_app.
    + left. rewrite L. simpl. auto.
    + right. rewrite R. simpl. auto.
Qed.

Lemma playable_moves_allowed (board hand : list Tile.t) (tile : Tile.t) (position : string) :
  In (tile, position) (playable_moves board hand) ->
  list_in tile hand = true /\ playable_get (can_play_tile board tile) position = Ok true.
Proof.
  intros H. apply playable_moves_In in H. destruct H as (Hin & H).
  split; [apply list_in_In; assumption|].
  destruct H as [[-> L]|[-> R]]; unfold playable_get; simpl; congruence.
Qed.

Lemma playable_moves_nil (board hand : list Tile.t) :
  playable_moves board hand = [] <-> any_playable board hand = false.
Proof.
  rewrite any_playable_false. split.
  - intros H tile Hin.
    destruct (pl_left (can_play_tile board tile)) eqn:L.
    { assert (X : In (tile, "left"%string) (playable_moves board hand))
        by (apply playable_moves_In; auto).
      rewrite H in X. destruct X. }
    destruct (pl_right (can_play_tile board tile)) eqn:R; [|auto].
    assert (X : In (tile, "right"%string) (playable_moves board hand))
      by (apply playable_moves_In; auto).
    rewrite H in X. destruct X.
  - intros H. destruct (playable_moves board hand) as [|[tile position] ms] eqn:M;
      [reflexivity|].
    assert (X : In (tile, position) (playable_moves board hand)) by (rewrite M; left; reflexivity).
    apply playable_moves_In in X. destruct X as (Hin & X).
    destruct (H tile Hin) as [L R]. destruct X as [[_ X]|[_ X]]; congruence.
Qed.

(** *** Playability against the rules *)

Lemma left_end_cons (first : Tile.t) (rest : list Tile.t) (v : Z) :
  left_end (first :: rest) v <-> v = Tile.left first.
Proof.
  split.
  - intros (f & r & E & <-). injection E as <- _. reflexivity.
  - intros ->. exists first, rest. auto.
Qed.

Lemma right_end_cons (first : Tile.t) (rest : list Tile.t) (v : Z) :
  right_end (first :: rest) v <-> v = Tile.right (last (first :: rest) first).
Proof.
  split.
  - intros (r & f & E & <-). rewrite E, last_last. reflexivity.
  - intros ->. exists (removelast (first :: rest)), (last (first :: rest) first).
    split; [|reflexivity]. apply app_removelast_last. discriminate.
Qed.

Lemma fits_side (board : list Tile.t) (t : Tile.t) (position : string) :
  fits board t position -> position = "left"%string \/ position = "right"%string.
Proof. intros [[-> _]|[-> _]]; auto. Qed.

Lemma can_play_left_fits (board : list Tile.t) (t : Tile.t) :
  pl_left (can_play_tile board t) = true <-> fits board t "left".
Proof.
  destruct board as [|first rest].
  - split; [intros _; left; auto | reflexivity].
  - rewrite (can_play_tile_ends _ _ _ _ (get_board_ends_cons first rest)).
    cbn [pl_left]. rewrite has_value_Some. split.
    + intros H. left. split; [reflexivity|]. right.
      exists (Tile.left first). split; [apply left_end_cons; reflexivity | exact H].
    + intros [[_ [E|(v & Hv & Hs)]]|[E _]]; try discriminate.
      apply left_end_cons in Hv. subst v. exact Hs.
Qed.

Lemma can_play_right_fits (board : list Tile.t) (t : Tile.t) :
  pl_right (can_play_tile board t) = true <-> fits board t "right".
Proof.
  destruct board as [|first rest].
  - split; [intros _; right; auto | reflexivity].
  - rewrite (can_play_tile_ends _ _ _ _ (get_board_ends_cons first rest)).
    cbn [pl_right]. rewrite has_value_Some. split.
    + intros H. right. split; [reflexivity|]. right.
      exists (Tile.right (last (first :: rest) first)).
      split; [apply right_end_cons; reflexivity | exact H].
    + intros [[E _]|[_ [E|(v & Hv & Hs)]]]; try discriminate.
      apply right_end_cons in Hv. subst v. exact Hs.
Qed.

Lemma playable_moves_fits (board hand : list Tile.t) (t : Tile.t) (position : string) :
  In (t, position) (playable_moves board hand) <-> In t hand /\ fits board t position.
Proof.
  rewrite playable_moves_In. split.
  - intros (Hin & [[-> H]|[-> H]]); split; auto.
    + apply can_play_left_fits. exact H.
    + apply can_play_right_fits. exact H.
  - intros (Hin & H). split; [exact Hin|].
    destruct (fits_side _ _ _ H) as [-> | ->]; [left | right]; split; auto.
    + apply can_play_left_fits. exact H.
    + apply can_play_right_fits. exact H.
Qed.

Lemma any_playable_can_move (board hand : list Tile.t) :
  any_playable board hand = true <-> can_move board hand.
Proof.
  rewrite any_playable_true. split.
  - intros (t & Hin & [H|H]).
    + exists t, "left"%string. split; [exact Hin | apply can_play_left_fits; exact H].
    + exists t, "right"%string. split; [exact Hin | apply can_play_right_fits; exact H].
  - intros (t & p & Hin & H). exists t. split; [exact Hin|].
    destruct (fits_side _ _ _ H) as [-> | ->].
    + left. apply can_play_left_fits. exact H.
    + right. apply can_play_right_fits. exact H.
Qed.

Lemma not_playable_cannot_move (board hand : list Tile.t) :
  any_playable board hand = false <-> ~ can_move board hand.
Proof.
  rewrite <- any_playable_can_move.
  destruct (any_playable board hand); split; intros H; try discriminate; auto.
  exfalso. apply H. reflexivity.
Qed.

Lemma no_moves_cannot_move (board hand : list Tile.t) :
  playable_moves board hand = [] <-> ~ can_move board hand.
Proof. rewrite playable_moves_nil. apply not_playable_cannot_move. Qed.

Lemma chosen_move_best (board hand : list Tile.t) (tile : Tile.t) (position : string) :
  chosen_move board hand tile position -> best_move board hand tile position.
Proof.
  unfold chosen_move. intros H.
  destruct (playable_moves board hand) as [|m ms] eqn:M; [discriminate|].
  assert (Hne : playable_moves board hand <> []) by (rewrite M; discriminate).
  destruct (list_max_spec (fun x => _tile_value (fst x)) _ Hne) as (best & Hm & Hin & Hall).
  rewrite M, H in Hm. injection Hm as <-. unfold best_move. rewrite M in *.
  split; [assumption|]. intros t p Ht. apply (Hall (t, p) Ht).
Qed.

(** One iteration of the loop of [ai_play]: it plays a best move, or draws
    and goes round again, or passes. *)
Lemma ai_play_loop_S (fuel : nat) (s : State) (drawn_tiles : list Tile.t) :
  (exists tile position board' hand',
      chosen_move (board s) (ai_hand s) tile position
      /\ play_tile (board s) tile position (ai_hand s) = Ok (true, board', hand')
      /\ ai_play_loop (S fuel) s drawn_tiles
         = Ok (after_ai_play s board' hand',
               AiPlayed (Tile.to_dict tile) position (length drawn_tiles)))
  \/ (playable_moves (board s) (ai_hand s) = []
      /\ exists x rest,
          boneyard s = rest ++ [x]
          /\ ai_play_loop (S fuel) s drawn_tiles
             = ai_play_loop fuel (ai_draw x rest s) (drawn_tiles ++ [x]))
  \/ (playable_moves (board s) (ai_hand s) = []
      /\ boneyard s = []
      /\ ai_play_loop (S fuel) s drawn_tiles
         = Ok (set_current_player player s,
               AiPassed (0 <? length drawn_tiles)%nat (length drawn_tiles))).
Proof.
  cbn [ai_play_loop].
  destruct (playable_moves (board s) (ai_hand s)) as [|m ms] eqn:M.
  - right. cbn [nonempty]. destruct (nonempty (boneyard s)) eqn:B.
    + left. split; [reflexivity|].
      destruct (list_pop_nonempty _ B) as (x & rest & P & E).
      exists x, rest. split; [assumption|]. rewrite P. reflexivity.
    + right. apply nonempty_false in B. auto.
  - left. cbn [nonempty].
    assert (Hne : playable_moves (board s) (ai_hand s) <> []) by (rewrite M; discriminate).
    destruct (list_max_spec (fun x => _tile_value (fst x)) _ Hne) as ([tile position] & Hm & Hin & Hall).
    assert (Hbest : chosen_move (board s) (ai_hand s) tile position) by exact Hm.
    rewrite M in Hm. rewrite Hm. cbn [bind].
    destruct (playable_moves_allowed _ _ _ _ Hin) as [Hl Hp].
    destruct (play_tile_allowed _ _ _ _ Hl Hp) as (placed & hand' & _ & _ & Hplay).
    destruct Hplay as [Hplay|[_ Hplay]]; rewrite Hplay; cbn [bind];
      eexists tile, position, _, hand'; (split; [exact Hbest|]);
      (split; [exact Hplay | reflexivity]).
Qed.

Lemma chosen_move_nil (board hand : list Tile.t) (tile : Tile.t) (position : string) :
  playable_moves board hand = [] -> chosen_move board hand tile position -> False.
Proof. unfold chosen_move. intros ->. discriminate. Qed.

Lemma snoc_not_nil {A : Type} (l : list A) (x : A) : l ++ [x] = [] -> False.
Proof. destruct l; discriminate. Qed.

(** What [ai_play_loop] returns is the end of a run no longer than the fuel. *)
Lemma ai_play_loop_sound (fuel : nat) :
  forall s drawn_tiles s' r,
    ai_play_loop fuel s drawn_tiles = Ok (s', r) ->
    exists n, ai_run s drawn_tiles s' r n /\ (n <= fuel)%nat.
Proof.
  induction fuel as [|fuel IH]; intros s drawn_tiles s' r H; [discriminate|].
  destruct (ai_play_loop_S fuel s drawn_tiles)
    as [(tile & position & b' & h' & C & P & E)|[(M & x & rest & B & E)|(M & B & E)]];
    rewrite E in H.
  - injection H as <- <-. exists 1%nat. split; [econstructor; eassumption | lia].
  - destruct (IH _ _ _ _ H) as (n & R & Hn).
    exists (S n). split; [econstructor; eassumption | lia].
  - injection H as <- <-. exists 1%nat. split; [constructor; assumption | lia].
Qed.

(** A run of [n] iterations is what [ai_play_loop] computes with any fuel
    of at least [n], and it needs that much. *)
Lemma ai_run_fuel (s : State) (drawn_tiles : list Tile.t) (s' : State) (r : AiResult) (n : nat) :
  ai_run s drawn_tiles s' r n ->
  (1 <= n)%nat
  /\ (forall fuel, (n <= fuel)%nat -> ai_play_loop fuel s drawn_tiles = Ok (s', r))
  /\ (forall fuel, (fuel < n)%nat -> ai_play_loop fuel s drawn_tiles = OutOfFuel).
Proof.
  induction 1 as [s d tile position b' h' C P | s d x rest s' r n M B R IH | s d M B].
  - split; [lia|]. split; intros [|fuel] Hf; try lia; try reflexivity.
    destruct (ai_play_loop_S fuel s d)
      as [(tile1 & position1 & b1 & h1 & C1 & P1 & E)|[(M & _)|(M & _)]].
    + unfold chosen_move in C, C1. rewrite C in C1. injection C1 as <- <-.
      rewrite P in P1. injection P1 as <- <-. exact E.
    + exfalso. exact (chosen_move_nil _ _ _ _ M C).
    + exfalso. exact (chosen_move_nil _ _ _ _ M C).
  - destruct IH as (Hn & Hge & Hlt).
    split; [lia|]. split; intros [|fuel] Hf; try lia; try reflexivity.
    + destruct (ai_play_loop_S fuel s d)
        as [(tile1 & position1 & b1 & h1 & C1 & _)|[(_ & x1 & rest1 & B1 & E)|(_ & B1 & _)]].
      * exfalso. exact (chosen_move_nil _ _ _ _ M C1).
      * rewrite B in B1. apply app_inj_tail in B1. destruct B1 as [<- <-].
        rewrite E. apply Hge. lia.
      * rewrite B in B1. exfalso. exact (snoc_not_nil _ _ B1).
    + destruct (ai_play_loop_S fuel s d)
        as [(tile1 & position1 & b1 & h1 & C1 & _)|[(_ & x1 & rest1 & B1 & E)|(_ & B1 & _)]].
      * exfalso. exact (chosen_move_nil _ _ _ _ M C1).
      * rewrite B in B1. apply app_inj_tail in B1. destruct B1 as [<- <-].
        rewrite E. apply Hlt. lia.
      * rewrite B in B1. exfalso. exact (snoc_not_nil _ _ B1).
  - split; [lia|]. split; intros [|fuel] Hf; try lia; try reflexivity.
    destruct (ai_play_loop_S fuel s d)
      as [(tile1 & position1 & b1 & h1 & C1 & _)|[(_ & x1 & rest1 & B1 & _)|(_ & _ & E)]].
    + exfalso. exact (chosen_move_nil _ _ _ _ M C1).
    + rewrite B in B1. symmetry in B1. exfalso. exact (snoc_not_nil _ _ B1).
    + exact E.
Qed.

(** From every state the loop has a run, of at most [|boneyard| + 1]
    iterations. *)
Lemma ai_run_exists (k : nat) :
  forall s drawn_tiles,
    length (boneyard s) = k ->
    exists s' r n, ai_run s drawn_tiles s' r n /\ (n <= S k)%nat.
Proof.
  induction k as [|k IH]; intros s d Hlen.
  - destruct (ai_play_loop_S 0 s d)
      as [(tile & position & b' & h' & C & P & _)|[(_ & x & rest & B & _)|(M & B & _)]].
    + eexists _, _, 1%nat. split; [econstructor; eassumption | lia].
    + rewrite B, length_app in Hlen. simpl in Hlen. lia.
    + eexists _, _, 1%nat. split; [constructor; assumption | lia].
  - destruct (ai_play_loop_S 0 s d)
      as [(tile & position & b' & h' & C & P & _)|[(M & x & rest & B & _)|(M & B & _)]].
    + eexists _, _, 1%nat. split; [econstructor; eassumption | lia].
    + destruct (IH (ai_draw x rest s) (d ++ [x])) as (s' & r & n & R & Hn).
      { simpl. rewrite B, length_app in Hlen. simpl in Hlen. lia. }
      exists s', r, (S n). split; [econstructor; eassumption | lia].
    + eexists _, _, 1%nat. split; [constructor; assumption | lia].
Qed.

Lemma ai_run_summary (s : State) (drawn_tiles : list Tile.t) (s' : State) (r : AiResult)
    (n : nat) :
  ai_run s drawn_tiles s' r n ->
  exists more, n = S (length more) /\ ai_run_result s drawn_tiles s' r more.
Proof.
  induction 1 as [s d tile position b' h' C P | s d x rest s' r n M B R IH | s d M B].
  - exists []. split; [reflexivity|]. unfold ai_run_result, after_ai_play.
    destruct (check_game_over_collections
                (set_current_player player (set_ai_hand h' (set_board b' s))))
      as (E1 & E2 & E3 & E4 & E5).
    rewrite E1, E2, E3, E4, E5, !app_nil_r. simpl.
    repeat split; auto.
    + intros k Hk. lia.
    + left. exists tile, position. repeat split; eauto.
      * apply (chosen_move_best _ _ _ _ C).
      * apply (chosen_move_best _ _ _ _ C).
  - destruct IH as (more & -> & HB & HP & HC & HK & HR).
    exists (x :: more). split; [reflexivity|]. unfold ai_run_result.
    simpl in HB, HP, HK, HR.
    assert (Eh : forall l, (ai_hand s ++ [x]) ++ l = ai_hand s ++ x :: l)
      by (intros l; rewrite <- app_assoc; reflexivity).
    assert (Ed : (d ++ [x]) ++ more = d ++ x :: more)
      by (rewrite <- app_assoc; reflexivity).
    rewrite Eh, Ed in HR.
    repeat split; auto.
    + rewrite B, HB. simpl. rewrite app_assoc. reflexivity.
    + intros [|k] Hk; simpl.
      * rewrite app_nil_r. exact M.
      * rewrite <- Eh. apply HK. simpl in Hk. lia.
  - exists []. split; [reflexivity|]. unfold ai_run_result.
    rewrite !app_nil_r. simpl. repeat split; auto.
    + intros k Hk. lia.
    + right. repeat split; auto.
Qed.

Lemma best_move_fit (board hand : list Tile.t) (tile : Tile.t) (position : string) :
  best_move board hand tile position -> best_fit board hand tile position.
Proof.
  intros [Hin Hall]. apply playable_moves_fits in Hin. destruct Hin as [Hin Hfit].
  split; [exact Hin|]. split; [exact Hfit|].
  intros t p Ht Hf. rewrite <- !tile_value_pips. apply (Hall t p).
  apply playable_moves_fits. auto.
Qed.

(** Claim C5.  When it is the AI's turn and the game is not over,
    [ai_play] returns after some number [n] of loop iterations with
    [1 <= n <= |boneyard| + 1] (any fuel of at least [n] gives the result, less
    fuel does not): each iteration but the last draws one tile, and tiles
    are drawn only while no tile of the hand may be laid.  Then either the
    AI plays a tile of its hand, as the hand then is, on a side where it
    may be laid, with [left + right] greatest among all tiles of the hand
    that may be laid on some side; the tile leaves the hand and lies, as it
    is or flipped, at an end of the board; the turn goes to the player, and
    the result names the tile, the side and the number of tiles drawn.  Or
    no tile may be laid and the boneyard is empty, the AI passes, the turn
    goes to the player, and the result reports no play and the number
    drawn.  Playability and pips are those of the rules ([fits], [pips]),
    not the engine's own functions. *)
Theorem ai_play_terminates_with_best_move (s : State) :
  current_player s = ai ->
  game_over s = false ->
  exists s' r n more,
    (1 <= n <= S (length (boneyard s)))%nat
    /\ n = S (length more)
    /\ ai_play (S (length (boneyard s))) s = Ok (s', r)
    /\ (forall fuel, (n <= fuel)%nat -> ai_play fuel s = Ok (s', r))
    /\ (forall fuel, (fuel < n)%nat -> ai_play fuel s = OutOfFuel)
    /\ boneyard s = boneyard s' ++ rev more
    /\ current_player s' = player
    /\ (forall k, (k < length more)%nat ->
                  ~ can_move (board s) (ai_hand s ++ firstn k more))
    /\ ((exists tile position placed,
            r = AiPlayed (Tile.to_dict tile) position (length more)
            /\ best_fit (board s) (ai_hand s ++ more) tile position
            /\ play_tile (board s) tile position (ai_hand s ++ more)
               = Ok (true, board s', ai_hand s')
            /\ removed_first tile (ai_hand s ++ more) (ai_hand s')
            /\ (placed = tile \/ placed = flipped tile)
            /\ (board s' = placed :: board s \/ board s' = board s ++ [placed]))
        \/ (r = AiPassed (0 <? length more)%nat (length more)
            /\ boneyard s' = []
            /\ ~ can_move (board s) (ai_hand s ++ more)
            /\ board s' = board s
            /\ ai_hand s' = ai_hand s ++ more)).
Proof.
  intros Hcp Hgo.
  destruct (ai_run_exists (length (boneyard s)) s [] eq_refl) as (s' & r & n & R & Hn).
  destruct (ai_run_fuel _ _ _ _ _ R) as (H1 & Hge & Hlt).
  destruct (ai_run_summary _ _ _ _ _ R) as (more & En & HB & HP & HC & HK & HR).
  assert (G : negb (Player_eqb (current_player s) ai) || game_over s = false)
    by (apply ais_turn; auto).
  exists s', r, n, more. unfold ai_play. rewrite G.
  repeat split; auto.
  - intros k Hk. apply no_moves_cannot_move. apply HK. exact Hk.
  - destruct HR as [(tile & position & -> & Hb & Hp & _)|(-> & Hby & Hm & Hbd & Hh & _)].
    + left. destruct (play_tile_true_inv _ _ _ _ _ _ Hp) as (_ & Hrm & Hcase).
      assert (Hplaced : exists placed,
                 (placed = tile \/ placed = flipped tile)
                 /\ (board s' = placed :: board s \/ board s' = board s ++ [placed])).
      { destruct Hcase as [[E ->]|[(l & e & _ & _ & _ & ->)|(l & e & _ & _ & _ & ->)]].
        - exists tile. rewrite E. auto.
        - exists (if Tile.right tile =? l then tile else flipped tile).
          destruct (Tile.right tile =? l); auto.
        - exists (if Tile.left tile =? e then tile else flipped tile).
          destruct (Tile.left tile =? e); auto. }
      destruct Hplaced as (placed & Hor & Hboard).
      exists tile, position, placed. simpl.
      split; [reflexivity|]. split; [exact (best_move_fit _ _ _ _ Hb)|].
      split; [exact Hp|]. split; [exact (list_remove_Ok _ _ _ Hrm)|]. auto.
    + right. simpl. apply no_moves_cannot_move in Hm. auto.
Qed.

(** The claim C5 at two reachable games.  In [game3] the AI may lay
    [3|4], [0|3], [3|6] or [1|2]: what the theorem says of its move, with
    the move computed, is that it lays [3|6] on the left without drawing,
    and that [3|6] is best by the rules.  In [game2] the AI holds no six
    and the boneyard holds none: it draws fourteen tiles and passes. *)
Lemma ai_play_terminates_with_best_move_witness :
  (exists s', ai_play 15 game3 = Ok (s', AiPlayed (mkTileDict 3 6) "left" 0)
              /\ best_fit (board game3) (ai_hand game3) (3:|:6) "left"
              /\ board s' = (6:|:3) :: board game3)
  /\ (exists s', ai_play 15 game2 = Ok (s', AiPassed true 14)
                 /\ current_player s' = player).
Proof.
  split.
  - destruct (ai_play_terminates_with_best_move game3 eq_refl eq_refl)
      as (s' & r & n & more & _ & _ & H & _ & _ & _ & _ & _ & Hr).
    assert (Er : r = AiPlayed (mkTileDict 3 6) "left" 0).
    { vm_compute in H. injection H as _ <-. reflexivity. }
    exists s'. split; [rewrite <- Er; exact H|].
    destruct Hr as [(tile & position & placed & E & Hbest & _)|(E & _)];
      [|rewrite Er in E; discriminate].
    rewrite Er in E. injection E as Etl Etr Ep El.
    assert (tile = 3:|:6) by (destruct tile; simpl in Etl, Etr; congruence).
    destruct more; [|discriminate]. subst tile position.
    split; [rewrite app_nil_r in Hbest; exact Hbest|].
    vm_compute in H. injection H as <- _. reflexivity.
  - destruct (ai_play_terminates_with_best_move game2 eq_refl eq_refl)
      as (s' & r & n & more & _ & _ & H & _ & _ & _ & Hc & _).
    assert (Er : r = AiPassed true 14).
    { vm_compute in H. injection H as _ <-. reflexivity. }
    exists s'. split; [rewrite <- Er; exact H | exact Hc].
Defined.

(** ** The player's drawing loop *)

Lemma player_draw_loop_S (fuel : nat) (s : State) (drawn_tiles : list Tile.t) :
  (any_playable (board s) (player_hand s) = true
   /\ player_draw_loop (S fuel) s drawn_tiles = Ok (s, DrawCanPlay (length drawn_tiles)))
  \/ (any_playable (board s) (player_hand s) = false
      /\ exists x rest,
          boneyard s = rest ++ [x]
          /\ player_draw_loop (S fuel) s drawn_tiles
             = player_draw_loop fuel (player_draw x rest s) (drawn_tiles ++ [x]))
  \/ (any_playable (board s) (player_hand s) = false
      /\ boneyard s = []
      /\ player_draw_loop (S fuel) s drawn_tiles
         = Ok (set_current_player ai s, DrawPassed (length drawn_tiles))).
Proof.
  cbn [player_draw_loop].
  destruct (any_playable (board s) (player_hand s)) eqn:P; [left; auto|].
  right. destruct (nonempty (boneyard s)) eqn:B.
  - left. split; [reflexivity|].
    destruct (list_pop_nonempty _ B) as (x & rest & Pop & E).
    exists x, rest. split; [assumption|]. rewrite Pop. reflexivity.
  - right. apply nonempty_false in B. auto.
Qed.

Lemma player_draw_loop_sound (fuel : nat) :
  forall s drawn_tiles s' r,
    player_draw_loop fuel s drawn_tiles = Ok (s', r) ->
    exists n, draw_run s drawn_tiles s' r n /\ (n <= fuel)%nat.
Proof.
  induction fuel as [|fuel IH]; intros s drawn_tiles s' r H; [discriminate|].
  destruct (player_draw_loop_S fuel s drawn_tiles)
    as [(P & E)|[(P & x & rest & B & E)|(P & B & E)]]; rewrite E in H.
  - injection H as <- <-. exists 1%nat. split; [constructor; assumption | lia].
  - destruct (IH _ _ _ _ H) as (n & R & Hn).
    exists (S n). split; [econstructor; eassumption | lia].
  - injection H as <- <-. exists 1%nat. split; [constructor; assumption | lia].
Qed.

(** The forced draw returns within [|boneyard| + 1] iterations too. *)
Lemma player_draw_loop_terminates (k : nat) :
  forall s drawn_tiles,
    length (boneyard s) = k ->
    exists s' r, player_draw_loop (S k) s drawn_tiles = Ok (s', r).
Proof.
  induction k as [|k IH]; intros s d Hlen;
    destruct (player_draw_loop_S (length (boneyard s)) s d)
      as [(P & E)|[(P & x & rest & B & E)|(P & B & E)]];
    rewrite Hlen in E; try (rewrite E; eauto; fail).
  - rewrite B, length_app in Hlen. simpl in Hlen. lia.
  - rewrite E. apply IH. simpl. rewrite B, length_app in Hlen. simpl in Hlen. lia.
Qed.

(** ** Properties kept by every operation *)

Section Preservation.

Variable P : State -> Prop.

Hypothesis P_turn : forall s p, P s -> P (set_current_player p s).
Hypothesis P_ai_draw :
  forall s x rest, P s -> boneyard s = rest ++ [x] ->
                   playable_moves (board s) (ai_hand s) = [] -> P (ai_draw x rest s).
Hypothesis P_player_draw :
  forall s x rest, P s -> boneyard s = rest ++ [x] ->
                   any_playable (board s) (player_hand s) = false ->
                   P (player_draw x rest s).
Hypothesis P_ai_play :
  forall s tile position board' hand',
    P s -> In (tile, position) (playable_moves (board s) (ai_hand s)) ->
    play_tile (board s) tile position (ai_hand s) = Ok (true, board', hand') ->
    P (after_ai_play s board' hand').
Hypothesis P_player_play :
  forall s tile position board' hand',
    P s -> In tile (player_hand s) ->
    playable_get (can_play_tile (board s) tile) position = Ok true ->
    play_tile (board s) tile position (player_hand s) = Ok (true, board', hand') ->
    P (after_player_play s board' hand').

Lemma ai_run_preserves (s : State) (drawn_tiles : list Tile.t) (s' : State)
    (r : AiResult) (n : nat) :
  ai_run s drawn_tiles s' r n -> P s -> P s'.
Proof.
  induction 1 as [s d tile position b' h' C Pl | s d x rest s' r n M B R IH | s d M B];
    intros HP.
  - apply (P_ai_play s tile position b' h' HP); [|exact Pl].
    apply (chosen_move_best _ _ _ _ C).
  - apply IH. apply P_ai_draw; assumption.
  - apply P_turn. exact HP.
Qed.

Lemma draw_run_preserves (s : State) (drawn_tiles : list Tile.t) (s' : State)
    (r : DrawResult) (n : nat) :
  draw_run s drawn_tiles s' r n -> P s -> P s'.
Proof.
  induction 1 as [s d Pl | s d x rest s' r n Pl B R IH | s d Pl B]; intros HP.
  - exact HP.
  - apply IH. apply P_player_draw; assumption.
  - apply P_turn. exact HP.
Qed.

Lemma step_preserves (s s' : State) : step s s' -> P s -> P s'.
Proof.
  intros [s0 tile_dict position s1 r H | s0 fuel s1 r H | s0 fuel s1 r H] HP.
  - destruct (play_player_tile_cases s0 tile_dict position)
      as [[_ E]|(_ & _ & [[_ E]|(t & F & [(_ & _ & E)|[[_ E]|(A & p & h & b & _ & _ & _ & Pl & E)]])])];
      rewrite E in H; try discriminate; injection H as <- <-; try exact HP.
    apply (P_player_play s0 t position b h HP); auto.
    apply (find_tile_Some _ _ _ F).
  - unfold ai_play in H.
    destruct (negb (Player_eqb (current_player s0) ai) || game_over s0).
    + injection H as <- <-. exact HP.
    + destruct (ai_play_loop_sound _ _ _ _ _ H) as (n & R & _).
      exact (ai_run_preserves _ _ _ _ _ R HP).
  - unfold player_draw_until_playable in H.
    destruct (negb (Player_eqb (current_player s0) player) || game_over s0).
    + injection H as <- <-. exact HP.
    + destruct (negb (nonempty (boneyard s0))).
      * injection H as <- <-. exact HP.
      * destruct (player_draw_loop_sound _ _ _ _ _ H) as (n & R & _).
        exact (draw_run_preserves _ _ _ _ _ R HP).
Qed.

End Preservation.

(** ** The 28 tiles *)

Lemma cnt_app (t : Tile.t) (l1 l2 : list Tile.t) :
  cnt t (l1 ++ l2) = (cnt t l1 + cnt t l2)%nat.
Proof. unfold cnt. rewrite map_app. apply count_occ_app. Qed.

Lemma cnt_eqb (t x y : Tile.t) : Tile.eqb x y = true -> cnt t [x] = cnt t [y].
Proof.
  intros H. apply norm_eq_iff in H.
  change (count_occ Tile_eq_dec [norm x] t = count_occ Tile_eq_dec [norm y] t).
  rewrite H. reflexivity.
Qed.

Lemma cnt_cons (t x : Tile.t) (l : list Tile.t) :
  cnt t (x :: l) = (cnt t [x] + cnt t l)%nat.
Proof. apply (cnt_app t [x] l). Qed.

Lemma cnt_remove (t x : Tile.t) (l l' : list Tile.t) :
  list_remove x l = Ok l' -> cnt t l = (cnt t [x] + cnt t l')%nat.
Proof.
  intros H. destruct (list_remove_Ok _ _ _ H) as (l1 & y & l2 & -> & -> & Hy & _).
  rewrite !cnt_app, (cnt_cons t y l2), (cnt_eqb t y x Hy). lia.
Qed.

(** A successful [play_tile] moves one tile from the hand to the board. *)
Lemma cnt_play_tile (t : Tile.t) (board : list Tile.t) (tile : Tile.t) (position : string)
    (hand board' hand' : list Tile.t) :
  play_tile board tile position hand = Ok (true, board', hand') ->
  (cnt t hand' + cnt t board' = cnt t hand + cnt t board)%nat.
Proof.
  intros H.
  destruct (play_tile_inv board tile position hand)
    as [E|(placed & h & Hrm & Heq & [E|[_ E]])];
    rewrite E in H; try discriminate; injection H as <- <-;
    rewrite (cnt_remove t _ _ _ Hrm), ?cnt_app, ?(cnt_cons t placed board),
      (cnt_eqb t _ _ Heq); lia.
Qed.

Lemma full_set_turn (s : State) (p : Player) : full_set s -> full_set (set_current_player p s).
Proof. intros H. exact H. Qed.

Lemma full_set_check (s : State) : full_set s -> full_set (_check_game_over s).
Proof.
  unfold full_set.
  destruct (check_game_over_collections s) as (E1 & E2 & E3 & E4 & _).
  rewrite E1, E2, E3, E4. auto.
Qed.

(** Every step keeps the four collections a full set. *)
Lemma full_set_step (s s' : State) : step s s' -> full_set s -> full_set s'.
Proof.
  apply step_preserves.
  - intros s0 p H. exact H.
  - intros s0 x rest H B _ t. specialize (H t). rewrite B in H.
    unfold full_set, ai_draw. read_fields. rewrite !cnt_app in *. lia.
  - intros s0 x rest H B _ t. specialize (H t). rewrite B in H.
    unfold full_set, player_draw. read_fields. rewrite !cnt_app in *. lia.
  - intros s0 tile position b' h' H _ Pl. apply full_set_check.
    intros t. specialize (H t). read_fields.
    pose proof (cnt_play_tile t _ _ _ _ _ _ Pl). lia.
  - intros s0 tile position b' h' H _ _ Pl. apply full_set_check.
    intros t. specialize (H t). read_fields.
    pose proof (cnt_play_tile t _ _ _ _ _ _ Pl). lia.
Qed.

(** [_determine_starting_player] either leaves the board alone or lets the
    AI lay one tile of its hand. *)
Lemma determine_starting_player_cases (s s' : State) :
  _determine_starting_player s = Ok s' ->
  player_starts s s' \/ exists t, In t (ai_hand s) /\ ai_opens s s' t.
Proof.
  unfold _determine_starting_player, player_starts.
  assert (Open : forall t s1,
             In t (ai_hand s) ->
             (_ai_play_opening_double t (set_current_player ai s) = Ok s1
              \/ _ai_play_opening_tile t (set_current_player ai s) = Ok s1) ->
             exists t, In t (ai_hand s) /\ ai_opens s s1 t).
  { intros t s1 Hin H. destruct (ai_opening_ok s t Hin) as (s2 & E1 & E2 & O).
    exists t. split; [assumption|].
    destruct H as [H|H]; [rewrite E1 in H | rewrite E2 in H]; injection H as <-; exact O. }
  destruct (highest_double_spec (player_hand s)) as [[HP NP]|(p0 & HP & MP)];
    destruct (highest_double_spec (ai_hand s)) as [[HA NA]|(a0 & HA & MA)];
    rewrite HP, HA; simpl.
  - destruct (_get_highest_tile (player_hand s)) as [p1| |] eqn:Ep; simpl; try discriminate.
    destruct (_get_highest_tile (ai_hand s)) as [a1| |] eqn:Ea; simpl; try discriminate.
    destruct (_tile_value a1 >? _tile_value p1).
    + intros H. right. apply (Open a1 s'); [|auto].
      unfold _get_highest_tile in Ea. destruct (ai_hand s) as [|x rest] eqn:A; [discriminate|].
      assert (Hne : x :: rest <> []) by discriminate.
      destruct (list_max_spec _tile_value _ Hne) as (m & Hm & Hin & _).
      rewrite Ea in Hm. injection Hm as <-. exact Hin.
    + intros H. injection H as <-. auto.
  - intros H. right. apply (Open a0 s'); [exact (proj1 MA) | auto].
  - intros H. injection H as <-. auto.
  - destruct (Tile.left a0 >? Tile.left p0).
    + intros H. right. apply (Open a0 s'); [exact (proj1 MA) | auto].
    + intros H. injection H as <-. auto.
Qed.

Lemma deal_split (l : list Tile.t) :
  l = firstn 7 l ++ firstn 7 (skipn 7 l) ++ skipn 14 l.
Proof.
  rewrite <- (firstn_skipn 7 l) at 1. f_equal.
  rewrite <- (firstn_skipn 7 (skipn 7 l)) at 1. f_equal.
  rewrite skipn_skipn. reflexivity.
Qed.

Lemma domino_set_normal : map norm _create_domino_set = _create_domino_set.
Proof. vm_compute. reflexivity. Qed.

Lemma domino_set_length : length _create_domino_set = 28%nat.
Proof. vm_compute. reflexivity. Qed.

Lemma cnt_shuffled (t : Tile.t) (shuffled : list Tile.t) :
  Permutation shuffled _create_domino_set ->
  cnt t shuffled = count_occ Tile_eq_dec _create_domino_set t.
Proof.
  intros H. unfold cnt. rewrite <- domino_set_normal at 1.
  apply Permutation_count_occ. apply Permutation_map. exact H.
Qed.

(** The freshly constructed game holds the full set. *)
Lemma full_set_init (shuffled : list Tile.t) (s : State) :
  Permutation shuffled _create_domino_set -> __init__ shuffled = Ok s -> full_set s.
Proof.
  intros Hperm H t. unfold __init__, _deal_tiles in H.
  pose proof (cnt_shuffled t shuffled Hperm) as Hc.
  rewrite (deal_split shuffled), !cnt_app in Hc.
  apply determine_starting_player_cases in H.
  destruct H as [->|(x & _ & hand' & Hrm & ->)]; read_fields.
  - change (cnt t []) with 0%nat. lia.
  - rewrite (cnt_remove t _ _ _ Hrm) in Hc. rewrite cnt_app.
    change (cnt t []) with 0%nat. lia.
Qed.

Lemma full_set_reachable (s : State) : reachable s -> full_set s.
Proof.
  induction 1 as [shuffled s Hperm Hinit | s s' _ IH Hstep].
  - exact (full_set_init shuffled s Hperm Hinit).
  - exact (full_set_step s s' Hstep IH).
Qed.

Lemma full_set_Permutation (s : State) :
  full_set s -> Permutation (map norm (all_tiles s)) _create_domino_set.
Proof.
  intros H. apply (Permutation_count_occ Tile_eq_dec). intros t.
  rewrite <- (H t). unfold all_tiles, cnt. rewrite !map_app, !count_occ_app. lia.
Qed.

Lemma distinct_NoDup (l : list Tile.t) : distinct l = true -> NoDup l.
Proof.
  induction l as [|x rest IH]; simpl; intros H; constructor.
  - apply andb_true_iff in H. destruct H as [H _]. intros Hin.
    assert (X : existsb (Tile_same x) rest = true).
    { apply existsb_exists. exists x. split; [assumption|].
      unfold Tile_same. rewrite !Z.eqb_refl. reflexivity. }
    rewrite X in H. discriminate.
  - apply IH. apply andb_true_iff in H. tauto.
Qed.

Lemma domino_set_NoDup : NoDup _create_domino_set.
Proof. apply distinct_NoDup. vm_compute. reflexivity. Qed.

(** Tiles with distinct unordered pairs are pairwise unequal for [__eq__]. *)
Lemma NoDup_norm_pairs (l : list Tile.t) :
  NoDup (map norm l) -> ForallOrdPairs (fun a b => Tile.eqb a b = false) l.
Proof.
  induction l as [|a rest IH]; intros H; [constructor|].
  change (map norm (a :: rest)) with (norm a :: map norm rest) in H.
  apply NoDup_cons_iff in H. destruct H as [Hnot Hnd].
  constructor; [|apply IH; exact Hnd].
  apply Forall_forall. intros b Hb.
  destruct (Tile.eqb a b) eqn:E; [|reflexivity].
  exfalso. apply Hnot. apply norm_eq_iff in E. rewrite E. apply in_map. exact Hb.
Qed.

(** Claim C1.  In every state reachable from the construction of a game
    (on any shuffle of the double-six set) by [play_player_tile], [ai_play]
    and [player_draw_until_playable], the sizes of the player's hand, the
    AI's hand, the boneyard and the board sum to 28; no two tiles of the
    four collections taken together are equal as unordered pairs; and as
    unordered pairs they are exactly the 28 tiles of the set. *)
Theorem tiles_conserved (s : State) :
  reachable s ->
  (length (player_hand s) + length (ai_hand s) + length (boneyard s) + length (board s)
   = 28)%nat
  /\ ForallOrdPairs (fun a b => Tile.eqb a b = false) (all_tiles s)
  /\ Permutation (map norm (all_tiles s)) _create_domino_set.
Proof.
  intros H. apply full_set_reachable in H. apply full_set_Permutation in H.
  split; [|split].
  - pose proof (Permutation_length H) as L.
    rewrite domino_set_length, length_map in L. unfold all_tiles in L.
    rewrite !length_app in L. lia.
  - apply NoDup_norm_pairs.
    apply (Permutation_NoDup (Permutation_sym H) domino_set_NoDup).
  - exact H.
Qed.

(** The claim C1 at [game2], reached by one move of the player. *)
Lemma tiles_conserved_witness :
  (length (player_hand game2) + length (ai_hand game2) + length (boneyard game2)
   + length (board game2) = 28)%nat
  /\ ForallOrdPairs (fun a b => Tile.eqb a b = false) (all_tiles game2)
  /\ Permutation (map norm (all_tiles game2)) _create_domino_set.
Proof. exact (tiles_conserved game2 game2_reachable). Defined.

(** ** Construction returns *)

Lemma determine_starting_player_returns (s : State) :
  player_hand s <> [] -> ai_hand s <> [] ->
  exists s', _determine_starting_player s = Ok s'.
Proof.
  intros HneP HneA. unfold _determine_starting_player.
  destruct (highest_double_spec (player_hand s)) as [[HP NP]|(p0 & HP & MP)];
    destruct (highest_double_spec (ai_hand s)) as [[HA NA]|(a0 & HA & MA)];
    rewrite HP, HA; simpl.
  - destruct (highest_tile_spec _ HneP) as (p1 & Ep & Mp).
    destruct (highest_tile_spec _ HneA) as (a1 & Ea & Ma).
    rewrite Ep, Ea. simpl. destruct (_tile_value a1 >? _tile_value p1); [|eauto].
    destruct (ai_opening_ok s a1 (proj1 Ma)) as (s' & _ & E & _). eauto.
  - destruct (ai_opening_ok s a0 (proj1 MA)) as (s' & E & _ & _). eauto.
  - eauto.
  - destruct (Tile.left a0 >? Tile.left p0); [|eauto].
    destruct (ai_opening_ok s a0 (proj1 MA)) as (s' & E & _ & _). eauto.
Qed.

(** On every shuffle of the set [__init__] returns a game. *)
Lemma init_returns (shuffled : list Tile.t) :
  Permutation shuffled _create_domino_set -> exists s, __init__ shuffled = Ok s.
Proof.
  intros H. apply Permutation_length in H. rewrite domino_set_length in H.
  unfold __init__, _deal_tiles. apply determine_starting_player_returns; read_fields.
  - intros E. apply (f_equal (@length Tile.t)) in E.
    rewrite length_firstn in E. cbn [length] in E. lia.
  - intros E. apply (f_equal (@length Tile.t)) in E.
    rewrite length_firstn, length_skipn in E. cbn [length] in E. lia.
Qed.

(** ** Blocked games *)

Lemma player_play_checked (s s' : State) (tile_dict : TileDict) (position : string)
    (r : Response) :
  play_player_tile s tile_dict position = Ok (s', r) -> success r = true ->
  exists s1, s' = _check_game_over s1.
Proof.
  intros H Hr.
  destruct (play_player_tile_cases s tile_dict position)
    as [[_ E]|(_ & _ & [[_ E]|(t & _ & [(_ & _ & E)|[[_ E]|(_ & p & h & b & _ & _ & _ & _ & E)]])])];
    rewrite E in H; try discriminate; injection H as <- <-; try discriminate.
  unfold after_player_play. eauto.
Qed.

Lemma ai_play_checked (fuel : nat) (s s' : State) (tile : TileDict) (position : string)
    (drew_count : nat) :
  ai_play fuel s = Ok (s', AiPlayed tile position drew_count) ->
  exists s1, s' = _check_game_over s1.
Proof.
  unfold ai_play.
  destruct (negb (Player_eqb (current_player s) ai) || game_over s); [discriminate|].
  intros H. destruct (ai_play_loop_sound _ _ _ _ _ H) as (n & R & _).
  destruct (ai_run_summary _ _ _ _ _ R) as (more & _ & _ & _ & _ & _ & HR).
  destruct HR as [(t & p & _ & _ & _ & Hs)|(E & _)]; [exact Hs | discriminate].
Qed.

(** Claim C6.  After a successful play, by the player or by the AI, if
    the boneyard is empty, neither hand is empty and neither hand holds a
    tile that may be laid on either end of the board, then [game_over] is
    true and the winner is the player when the player's remaining pips sum
    to strictly less than the AI's, the AI when the AI's sum is strictly
    less, and the AI when the two sums are equal.  What may be laid and the
    pips of a hand are those of the rules ([can_move], [pips_of_hand]), not
    the engine's own scan and sum. *)
Theorem blocked_game_ends_after_play (s s' : State) :
  ((exists tile_dict position r,
       play_player_tile s tile_dict position = Ok (s', r) /\ success r = true)
   \/ (exists fuel tile position drew_count,
          ai_play fuel s = Ok (s', AiPlayed tile position drew_count))) ->
  boneyard s' = [] ->
  player_hand s' <> [] ->
  ai_hand s' <> [] ->
  ~ can_move (board s') (player_hand s') ->
  ~ can_move (board s') (ai_hand s') ->
  game_over s' = true
  /\ (pips_of_hand (player_hand s') < pips_of_hand (ai_hand s') -> winner s' = Some player)
  /\ (pips_of_hand (ai_hand s') < pips_of_hand (player_hand s') -> winner s' = Some ai)
  /\ (pips_of_hand (player_hand s') = pips_of_hand (ai_hand s') -> winner s' = Some ai).
Proof.
  intros Hplay Hb Hp Ha Pp Pa.
  apply not_playable_cannot_move in Pp. apply not_playable_cannot_move in Pa.
  assert (Hs : exists s1, s' = _check_game_over s1).
  { destruct Hplay as [(td & pos & r & H & Hr)|(fuel & t & pos & n & H)].
    - exact (player_play_checked _ _ _ _ _ H Hr).
    - exact (ai_play_checked _ _ _ _ _ _ H). }
  destruct Hs as (s1 & ->).
  destruct (check_game_over_collections s1) as (E1 & E2 & E3 & E4 & _).
  rewrite E1, E2, E3, E4 in *.
  rewrite (check_game_over_blocked s1 Hp Ha Hb Pp Pa). read_fields.
  rewrite !sum_tile_values.
  split; [reflexivity|].
  destruct (Z.ltb_spec (pips_of_hand (player_hand s1)) (pips_of_hand (ai_hand s1)))
    as [Hlt|Hge];
    repeat split; intros; try reflexivity; lia.
Qed.

(** The claim C6 at four positions on the board [[1|2]], each blocked
    once [2|3] is laid on the right (ends 1 and 3).  The player lays it and
    keeps [4|4] against the AI's [2|6], 8 pips each: the AI wins.  Against
    the AI's [5|5], 8 to 10: the player wins.  The player keeps [6|6]
    against [2|6], 12 to 8: the AI wins.  The AI lays it and keeps [5|5]
    against the player's [4|4], 10 to 8: the player wins. *)
Lemma blocked_game_ends_after_play_witness :
  (exists s',
      play_player_tile (blocking [2:|:3; 4:|:4] [2:|:6] player) (mkTileDict 2 3) "right"
      = Ok (s', mkResponse true "Tile played successfully")
      /\ game_over s' = true /\ winner s' = Some ai)
  /\ (exists s',
         play_player_tile (blocking [2:|:3; 4:|:4] [5:|:5] player) (mkTileDict 2 3) "right"
         = Ok (s', mkResponse true "Tile played successfully")
         /\ game_over s' = true /\ winner s' = Some player)
  /\ (exists s',
         play_player_tile (blocking [2:|:3; 6:|:6] [2:|:6] player) (mkTileDict 2 3) "right"
         = Ok (s', mkResponse true "Tile played successfully")
         /\ game_over s' = true /\ winner s' = Some ai)
  /\ (exists s',
         ai_play 1 (blocking [4:|:4] [2:|:3; 5:|:5] ai)
         = Ok (s', AiPlayed (mkTileDict 2 3) "right" 0)
         /\ game_over s' = true /\ winner s' = Some player).
Proof.
  split; [|split; [|split]].
  - eexists. split; [vm_compute; reflexivity|].
    destruct (blocked_game_ends_after_play (blocking [2:|:3; 4:|:4] [2:|:6] player) _
                (or_introl (ex_intro _ (mkTileDict 2 3) (ex_intro _ "right"%string
                   (ex_intro _ (mkResponse true "Tile played successfully")
                      (conj eq_refl eq_refl))))))
      as (Hgo & _ & _ & Htie);
      try (apply not_playable_cannot_move; reflexivity); try (vm_compute; congruence).
    split; [exact Hgo | apply Htie; reflexivity].
  - eexists. split; [vm_compute; reflexivity|].
    destruct (blocked_game_ends_after_play (blocking [2:|:3; 4:|:4] [5:|:5] player) _
                (or_introl (ex_intro _ (mkTileDict 2 3) (ex_intro _ "right"%string
                   (ex_intro _ (mkResponse true "Tile played successfully")
                      (conj eq_refl eq_refl))))))
      as (Hgo & Hlow & _ & _);
      try (apply not_playable_cannot_move; reflexivity); try (vm_compute; congruence).
    split; [exact Hgo | apply Hlow; reflexivity].
  - eexists. split; [vm_compute; reflexivity|].
    destruct (blocked_game_ends_after_play (blocking [2:|:3; 6:|:6] [2:|:6] player) _
                (or_introl (ex_intro _ (mkTileDict 2 3) (ex_intro _ "right"%string
                   (ex_intro _ (mkResponse true "Tile played successfully")
                      (conj eq_refl eq_refl))))))
      as (Hgo & _ & Hhigh & _);
      try (apply not_playable_cannot_move; reflexivity); try (vm_compute; congruence).
    split; [exact Hgo | apply Hhigh; reflexivity].
  - eexists. split; [vm_compute; reflexivity|].
    destruct (blocked_game_ends_after_play (blocking [4:|:4] [2:|:3; 5:|:5] ai) _
                (or_intror (ex_intro _ 1%nat (ex_intro _ (mkTileDict 2 3)
                   (ex_intro _ "right"%string (ex_intro _ 0%nat eq_refl))))))
      as (Hgo & Hlow & _ & _);
      try (apply not_playable_cannot_move; reflexivity); try (vm_compute; congruence).
    split; [exact Hgo | apply Hlow; reflexivity].
Defined.

(** ** Passes *)

Lemma allowed_is_playable (board hand : list Tile.t) (tile : Tile.t) (position : string) :
  In tile hand ->
  playable_get (can_play_tile board tile) position = Ok true ->
  any_playable board hand = true.
Proof.
  intros Hin H. apply any_playable_true. exists tile. split; [assumption|].
  unfold playable_get in H.
  destruct (String.eqb position "left"); [left; congruence|].
  destruct (String.eqb position "right"); [right; congruence | discriminate].
Qed.

Lemma stuck_step (w : option Player) (s s' : State) : step s s' -> stuck w s -> stuck w s'.
Proof.
  apply step_preserves.
  - intros s0 p H. exact H.
  - intros s0 x rest ((B & _) & _) E _. rewrite B in E. symmetry in E.
    exfalso. exact (snoc_not_nil _ _ E).
  - intros s0 x rest ((B & _) & _) E _. rewrite B in E. symmetry in E.
    exfalso. exact (snoc_not_nil _ _ E).
  - intros s0 tile position b' h' ((_ & _ & _ & _ & Pa) & _) Hin _.
    apply playable_moves_nil in Pa. rewrite Pa in Hin. destruct Hin.
  - intros s0 tile position b' h' ((_ & _ & _ & Pp & _) & _) Hin Hal _.
    rewrite (allowed_is_playable _ _ _ _ Hin Hal) in Pp. discriminate.
Qed.

Lemma stuck_steps (w : option Player) (s s' : State) : steps s s' -> stuck w s -> stuck w s'.
Proof.
  induction 1 as [s | s s1 s2 _ IH Hstep]; intros H; [exact H|].
  exact (stuck_step w s1 s2 Hstep (IH H)).
Qed.

Lemma ai_pass_inv (fuel : nat) (s s' : State) (drew_tile : bool) (drew_count : nat) :
  ai_play fuel s = Ok (s', AiPassed drew_tile drew_count) ->
  game_over s = false /\ game_over s' = false /\ winner s' = winner s
  /\ current_player s' = player /\ boneyard s' = []
  /\ any_playable (board s') (ai_hand s') = false.
Proof.
  unfold ai_play.
  destruct (negb (Player_eqb (current_player s) ai) || game_over s) eqn:G; [discriminate|].
  apply ais_turn in G. destruct G as [_ Hgo].
  intros H. destruct (ai_play_loop_sound _ _ _ _ _ H) as (n & R & _).
  destruct (ai_run_summary _ _ _ _ _ R) as (more & _ & _ & _ & Hc & _ & HR).
  destruct HR as [(t & p & E & _)|(_ & Hb & Hm & Hbd & Hh & Hg & Hw)]; [discriminate|].
  rewrite Hbd, Hh. apply playable_moves_nil in Hm. repeat split; congruence.
Qed.

Lemma draw_run_pass_inv (s : State) (drawn_tiles : list Tile.t) (s' : State)
    (r : DrawResult) (n : nat) :
  draw_run s drawn_tiles s' r n ->
  forall drew_count, r = DrawPassed drew_count ->
  game_over s' = game_over s /\ winner s' = winner s /\ current_player s' = ai
  /\ boneyard s' = [] /\ any_playable (board s') (player_hand s') = false.
Proof.
  induction 1 as [s d Pl | s d x rest s' r n Pl B R IH | s d Pl B]; intros c E.
  - discriminate.
  - destruct (IH c E) as (Hg & Hw & Hc & Hb & Hp). read_fields. auto.
  - read_fields. auto.
Qed.

Lemma player_pass_inv (fuel : nat) (s s' : State) (drew_count : nat) :
  player_draw_until_playable fuel s = Ok (s', DrawPassed drew_count) ->
  game_over s = false /\ game_over s' = false /\ winner s' = winner s
  /\ current_player s' = ai /\ boneyard s' = []
  /\ any_playable (board s') (player_hand s') = false.
Proof.
  unfold player_draw_until_playable.
  destruct (negb (Player_eqb (current_player s) player) || game_over s) eqn:G; [discriminate|].
  apply players_turn in G. destruct G as [_ Hgo].
  destruct (negb (nonempty (boneyard s))); [discriminate|].
  intros H. destruct (player_draw_loop_sound _ _ _ _ _ H) as (n & R & _).
  destruct (draw_run_pass_inv _ _ _ _ _ R drew_count eq_refl) as (Hg & Hw & Hc & Hb & Hp).
  repeat split; congruence.
Qed.

(** Claim C10.  A pass never sets [game_over]: when [ai_play] or
    [player_draw_until_playable] ends in a pass, the turn goes to the other
    side and [game_over] is still false, the winner field untouched.  So a
    blocked position (boneyard empty, both hands non-empty, no playable
    tile on either side) in which [game_over] is false stays so under any
    sequence of operations: it remains blocked, [game_over] remains false
    and the winner field remains what it was; and there
    [player_draw_until_playable] is refused, with "No tiles left to draw"
    when it is the player's turn. *)
Theorem pass_never_ends_game :
  (forall fuel s s' drew_tile drew_count,
      ai_play fuel s = Ok (s', AiPassed drew_tile drew_count) ->
      game_over s' = false /\ winner s' = winner s /\ current_player s' = player)
  /\ (forall fuel s s' drew_count,
         player_draw_until_playable fuel s = Ok (s', DrawPassed drew_count) ->
         game_over s' = false /\ winner s' = winner s /\ current_player s' = ai)
  /\ (forall s s',
         blocked s -> game_over s = false -> steps s s' ->
         blocked s' /\ game_over s' = false /\ winner s' = winner s)
  /\ (forall s fuel,
         blocked s -> game_over s = false ->
         exists message,
           player_draw_until_playable fuel s = Ok (s, DrawRefused message)
           /\ (current_player s = player -> message = "No tiles left to draw"%string)).
Proof.
  split; [|split; [|split]].
  - intros fuel s s' b n H. destruct (ai_pass_inv _ _ _ _ _ H). tauto.
  - intros fuel s s' n H. destruct (player_pass_inv _ _ _ _ H). tauto.
  - intros s s' Hb Hg Hsteps.
    exact (stuck_steps (winner s) s s' Hsteps (conj Hb (conj Hg eq_refl))).
  - intros s fuel (B & _) Hg. unfold player_draw_until_playable. rewrite Hg, B.
    destruct (current_player s); simpl; eexists; split; try reflexivity; discriminate.
Qed.

(** ** A game that ends in a deadlock *)

Lemma apply_op_step (o : Op) (s s' : State) : apply_op o s = Ok s' -> step s s'.
Proof.
  destruct o as [td pos|fuel|fuel]; simpl.
  - destruct (play_player_tile s td pos) as [[s1 r]| |] eqn:E; simpl; try discriminate.
    intros H. injection H as <-. exact (step_play_player_tile _ _ _ _ _ E).
  - destruct (ai_play fuel s) as [[s1 r]| |] eqn:E; simpl; try discriminate.
    intros H. injection H as <-. exact (step_ai_play _ _ _ _ E).
  - destruct (player_draw_until_playable fuel s) as [[s1 r]| |] eqn:E; simpl; try discriminate.
    intros H. injection H as <-. exact (step_player_draw _ _ _ _ E).
Qed.

Lemma steps_first (s s1 s2 : State) : step s s1 -> steps s1 s2 -> steps s s2.
Proof.
  intros H. induction 1 as [s1 | s1 s2 s3 _ IH Hstep].
  - exact (steps_step s s s1 (steps_refl s) H).
  - exact (steps_step s s2 s3 (IH H) Hstep).
Qed.

Lemma run_ops_steps (ops : list Op) :
  forall s s', run_ops ops s = Ok s' -> steps s s'.
Proof.
  induction ops as [|o rest IH]; simpl; intros s s' H.
  - injection H as <-. constructor.
  - destruct (apply_op o s) as [s1| |] eqn:E; simpl in H; try discriminate.
    exact (steps_first s s1 s' (apply_op_step _ _ _ E) (IH _ _ H)).
Qed.

Lemma reachable_steps (s s' : State) : steps s s' -> reachable s -> reachable s'.
Proof.
  induction 1 as [s | s s1 s2 _ IH Hstep]; intros H; [exact H|].
  exact (reachable_step s1 s2 (IH H) Hstep).
Qed.

Lemma deal2_shuffled : Permutation deal2 _create_domino_set.
Proof. apply same_tiles_Permutation. vm_compute. reflexivity. Qed.

Lemma deadlock_game_runs :
  (s0 <- __init__ deal2 ;; run_ops deadlock_game s0) = Ok deadlock.
Proof. vm_compute. reflexivity. Qed.

Lemma deadlock_reachable : reachable deadlock.
Proof.
  pose proof deadlock_game_runs as H.
  destruct (__init__ deal2) as [s0| |] eqn:E; cbn [bind] in H; try discriminate.
  apply (reachable_steps s0 deadlock (run_ops_steps _ _ _ H)).
  exact (reachable_init deal2 s0 deal2_shuffled E).
Qed.

(** [game3], the position after the first of these moves, is reachable
    too. *)
Lemma game3_reachable : reachable game3.
Proof.
  assert (H : exists s0,
             __init__ deal2 = Ok s0
             /\ play_player_tile s0 (mkTileDict 1 3) "right"
                = Ok (game3, mkResponse true "Tile played successfully")).
  { eexists. split; vm_compute; reflexivity. }
  destruct H as (s0 & I & P).
  apply (reachable_step s0 game3 (reachable_init deal2 s0 deal2_shuffled I)).
  exact (step_play_player_tile _ _ _ _ _ P).
Qed.

Lemma deadlock_blocked : blocked deadlock.
Proof. repeat split; try reflexivity; discriminate. Qed.

(** The claim C10 at concrete games: the AI's pass in [game2] and the
    player's pass in [before_player_pass] leave [game_over] false; in the
    reachable [deadlock] the forced draw is refused for want of tiles, and
    whatever is called next the game is never declared over. *)
Lemma pass_never_ends_game_witness :
  (exists s', game_over s' = false /\ current_player s' = player)
  /\ (exists s', game_over s' = false /\ current_player s' = ai)
  /\ (game_over deadlock = false /\ winner deadlock = None)
  /\ player_draw_until_playable 1 deadlock
     = Ok (deadlock, DrawRefused "No tiles left to draw").
Proof.
  destruct pass_never_ends_game as (Hai & Hpl & Hstuck & Hdraw).
  split; [|split; [|split]].
  - destruct (ai_play 15 game2) as [[s' r]| |] eqn:E; try (vm_compute in E; discriminate).
    destruct r as [|t p n|b n]; try (vm_compute in E; discriminate).
    exists s'. destruct (Hai 15%nat game2 s' b n E) as (G & _ & C). auto.
  - destruct (player_draw_until_playable 2 before_player_pass) as [[s' r]| |] eqn:E;
      try (vm_compute in E; discriminate).
    destruct r as [m|n|n]; try (vm_compute in E; discriminate).
    exists s'. destruct (Hpl 2%nat before_player_pass s' n E) as (G & _ & C). auto.
  - destruct (Hstuck deadlock deadlock deadlock_blocked eq_refl (steps_refl deadlock))
      as (_ & G & W). split; [exact G | exact W].
  - destruct (Hdraw deadlock 1%nat deadlock_blocked eq_refl) as (message & E & M).
    rewrite (M eq_refl) in E. exact E.
Defined.

(** ** Malformed requests *)

Lemma domino_set_pips (t : Tile.t) :
  In t _create_domino_set ->
  0 <= Tile.left t <= 6 /\ 0 <= Tile.right t <= 6.
Proof.
  intros H. vm_compute in H.
  repeat (destruct H as [<-|H]; [simpl; lia|]). contradiction.
Qed.

(** Every tile of a reachable state has its two pips in [0, 6]. *)
Lemma reachable_pips (s : State) (t : Tile.t) :
  reachable s -> In t (all_tiles s) ->
  0 <= Tile.left t <= 6 /\ 0 <= Tile.right t <= 6.
Proof.
  intros Hr Hin. apply full_set_reachable in Hr. apply full_set_Permutation in Hr.
  assert (Hn : In (norm t) _create_domino_set).
  { apply (Permutation_in _ Hr). apply in_map. exact Hin. }
  apply domino_set_pips in Hn. unfold norm in Hn. simpl in Hn. lia.
Qed.

(** A tile spec with a pip outside [0, 6] is rejected, whatever the side,
    and the state is left as it was. *)
Lemma play_player_tile_out_of_range (s : State) (tile_dict : TileDict) (position : string) :
  reachable s ->
  ~ (0 <= d_left tile_dict <= 6 /\ 0 <= d_right tile_dict <= 6) ->
  exists message,
    play_player_tile s tile_dict position = Ok (s, mkResponse false message).
Proof.
  intros Hr Hbad.
  destruct (play_player_tile_cases s tile_dict position)
    as [[_ E]|(_ & _ & [[_ E]|(t & F & _)])]; try (rewrite E; eauto; fail).
  exfalso. apply Hbad. destruct (find_tile_Some _ _ _ F) as (Hin & <- & <-).
  apply (reachable_pips s t Hr). unfold all_tiles. apply in_or_app. left. exact Hin.
Qed.

(** Neither drawing loop raises: [play_player_tile] with an unknown side
    is the only call of the engine that does. *)
Lemma ai_play_never_raises (fuel : nat) (s : State) (e : exn) :
  ai_play fuel s <> Raise e.
Proof.
  unfold ai_play.
  destruct (negb (Player_eqb (current_player s) ai) || game_over s); [discriminate|].
  generalize (@nil Tile.t). revert s.
  induction fuel as [|fuel IH]; intros s d; [discriminate|].
  destruct (ai_play_loop_S fuel s d)
    as [(tile & position & b' & h' & _ & _ & E)|[(_ & x & rest & _ & E)|(_ & _ & E)]];
    rewrite E; try discriminate. apply IH.
Qed.

Lemma player_draw_never_raises (fuel : nat) (s : State) (e : exn) :
  player_draw_until_playable fuel s <> Raise e.
Proof.
  unfold player_draw_until_playable.
  destruct (negb (Player_eqb (current_player s) player) || game_over s); [discriminate|].
  destruct (negb (nonempty (boneyard s))); [discriminate|].
  generalize (@nil Tile.t). revert s.
  induction fuel as [|fuel IH]; intros s d; [discriminate|].
  destruct (player_draw_loop_S fuel s d)
    as [(_ & E)|[(_ & x & rest & _ & E)|(_ & _ & E)]];
    rewrite E; try discriminate. apply IH.
Qed.

(** * Further properties of the engine *)

(** ** [Tile]: equality and the other value *)

(** Property X1.  [Tile.__eq__] is an equivalence relation on tiles that
    ignores orientation: it is reflexive, symmetric and transitive,
    [Tile(a, b) == Tile(b, a)] for all [a] and [b], and two tiles are equal
    exactly when they have the same smaller and the same larger pip. *)
Theorem tile_eq_equivalence :
  (forall a, Tile.eqb a a = true)
  /\ (forall a b, Tile.eqb a b = Tile.eqb b a)
  /\ (forall a b c, Tile.eqb a b = true -> Tile.eqb b c = true -> Tile.eqb a c = true)
  /\ (forall a b, Tile.eqb (Tile.mk a b) (Tile.mk b a) = true)
  /\ (forall x y,
         Tile.eqb x y = true
         <-> Z.min (Tile.left x) (Tile.right x) = Z.min (Tile.left y) (Tile.right y)
             /\ Z.max (Tile.left x) (Tile.right x) = Z.max (Tile.left y) (Tile.right y)).
Proof.
  split; [exact Tile_eqb_refl|]. split; [exact Tile_eqb_sym|]. split; [|split].
  - intros a b c Hab Hbc. apply norm_eq_iff. apply norm_eq_iff in Hab, Hbc. congruence.
  - intros a b. apply Tile_eqb_true. simpl. auto.
  - intros x y. rewrite <- norm_eq_iff. unfold norm. split.
    + intros H. injection H as H1 H2. auto.
    + intros [H1 H2]. rewrite H1, H2. reflexivity.
Qed.

(** The statement of X1 at the tiles of the unit test: (1,2), (2,1), (1,3). *)
Lemma tile_eq_equivalence_witness :
  Tile.eqb (Tile.mk 1 2) (Tile.mk 2 1) = true
  /\ Tile.eqb (Tile.mk 1 2) (Tile.mk 1 3) = false
  /\ Tile.eqb (Tile.mk 2 1) (Tile.mk 2 1) = true.
Proof.
  destruct tile_eq_equivalence as (_ & _ & Htrans & Hflip & _).
  split; [apply Hflip|]. split; [reflexivity|].
  apply (Htrans (Tile.mk 2 1) (Tile.mk 1 2) (Tile.mk 2 1)); apply Hflip.
Defined.

(** Property X2.  [get_other_value(value)] returns [None] exactly when the
    tile does not contain [value]; when it returns a pip [o], the tile
    contains [value] and equals [Tile(value, o)]; for a double containing
    [value] the other value is [value] itself. *)
Theorem get_other_value_correct (tile : Tile.t) (value : Z) :
  (Tile.get_other_value tile (Some value) = None
   <-> Tile.has_value tile (Some value) = false)
  /\ (forall o, Tile.get_other_value tile (Some value) = Some o ->
                Tile.has_value tile (Some value) = true
                /\ Tile.eqb tile (Tile.mk value o) = true)
  /\ (Tile.is_double tile = true -> Tile.has_value tile (Some value) = true ->
      Tile.get_other_value tile (Some value) = Some value).
Proof.
  unfold Tile.get_other_value, Tile.has_value, Tile.is_double, int_eq.
  destruct (Z.eqb_spec (Tile.left tile) value) as [El|El];
    destruct (Z.eqb_spec (Tile.right tile) value) as [Er|Er]; simpl.
  - split; [split; discriminate|]. split.
    + intros o H. injection H as <-. split; [reflexivity|].
      apply Tile_eqb_true. simpl. auto.
    + intros _ _. congruence.
  - split; [split; discriminate|]. split.
    + intros o H. injection H as <-. split; [reflexivity|].
      apply Tile_eqb_true. simpl. auto.
    + intros D _. apply Z.eqb_eq in D. congruence.
  - split; [split; discriminate|]. split.
    + intros o H. injection H as <-. split; [reflexivity|].
      apply Tile_eqb_true. simpl. auto.
    + intros D _. apply Z.eqb_eq in D. congruence.
  - split; [split; reflexivity|]. split.
    + intros o H. discriminate.
    + intros _ H. discriminate.
Qed.

(** The statement of X2 at the tile (2,5) of the unit test. *)
Lemma get_other_value_correct_witness :
  Tile.has_value (Tile.mk 2 5) (Some 5) = true
  /\ Tile.eqb (Tile.mk 2 5) (Tile.mk 5 2) = true
  /\ Tile.get_other_value (Tile.mk 2 5) (Some 3) = None.
Proof.
  destruct (get_other_value_correct (Tile.mk 2 5) 5) as (_ & Hsome & _).
  destruct (get_other_value_correct (Tile.mk 2 5) 3) as (Hnone & _).
  destruct (Hsome 2 eq_refl) as [Hv He].
  split; [exact Hv|]. split; [exact He|]. apply Hnone. reflexivity.
Defined.

(** ** The freshly constructed game *)

(** Property X3.  On every shuffle of the 28 tiles [__init__] returns a
    game, never raising: the player holds the first seven tiles of the
    shuffle, the boneyard the last fourteen, the player is to move, the game
    is not over and has no winner; and either the board is empty and the AI
    holds the seven tiles dealt to it, or the board is the single tile the
    AI opened with, taken from the seven dealt to it, and the AI holds the
    other six. *)
Theorem fresh_game_shape (shuffled : list Tile.t) :
  Permutation shuffled _create_domino_set ->
  exists s,
    __init__ shuffled = Ok s
    /\ player_hand s = firstn 7 shuffled /\ length (player_hand s) = 7%nat
    /\ boneyard s = skipn 14 shuffled /\ length (boneyard s) = 14%nat
    /\ current_player s = player /\ game_over s = false /\ winner s = None
    /\ length (ai_hand s) = (7 - length (board s))%nat
    /\ ((board s = [] /\ ai_hand s = firstn 7 (skipn 7 shuffled))
        \/ exists t, board s = [t]
                     /\ In t (firstn 7 (skipn 7 shuffled))
                     /\ list_remove t (firstn 7 (skipn 7 shuffled)) = Ok (ai_hand s)).
Proof.
  intros Hperm. destruct (init_returns shuffled Hperm) as [s Hs].
  exists s. split; [exact Hs|].
  apply Permutation_length in Hperm. rewrite domino_set_length in Hperm.
  assert (L1 : length (firstn 7 shuffled) = 7%nat) by (rewrite length_firstn; lia).
  assert (L2 : length (firstn 7 (skipn 7 shuffled)) = 7%nat)
    by (rewrite length_firstn, length_skipn; lia).
  assert (L3 : length (skipn 14 shuffled) = 14%nat) by (rewrite length_skipn; lia).
  unfold __init__, _deal_tiles in Hs. apply determine_starting_player_cases in Hs.
  destruct Hs as [->|(t & Hin & hand' & Hrm & ->)]; read_fields.
  - rewrite L2. repeat split; auto.
  - pose proof (list_remove_length _ _ _ Hrm) as L. rewrite L2 in L.
    assert (L' : length hand' = 6%nat) by lia.
    rewrite L'. repeat split; auto.
    right. exists t. auto.
Qed.

(** The statement of X3 at the shuffle [deal2], on which the AI opens. *)
Lemma fresh_game_shape_witness :
  exists s, __init__ deal2 = Ok s
            /\ length (player_hand s) = 7%nat
            /\ length (ai_hand s) = (7 - length (board s))%nat
            /\ current_player s = player.
Proof.
  destruct (fresh_game_shape deal2 deal2_shuffled)
    as (s & H & _ & L & _ & _ & C & _ & _ & A & _).
  exists s. auto.
Defined.

(** ** The chain on the board *)

Lemma chained_push (x : Tile.t) (board : list Tile.t) (l r : Z) :
  get_board_ends board = (Some l, Some r) ->
  Tile.right x = l -> chained board -> chained (x :: board).
Proof.
  destruct board as [|b rest]; [discriminate|].
  rewrite get_board_ends_cons. intros H Hx Hc. injection H as <- _.
  split; assumption.
Qed.

Lemma chained_snoc (x : Tile.t) (board : list Tile.t) (l r : Z) :
  get_board_ends board = (Some l, Some r) ->
  Tile.left x = r -> chained board -> chained (board ++ [x]).
Proof.
  destruct board as [|b rest]; [discriminate|].
  rewrite get_board_ends_cons. intros H Hx. injection H as _ <-. clear l.
  revert b Hx. induction rest as [|c rest IH]; intros b Hx Hc.
  - simpl in *. auto.
  - change (last (b :: c :: rest) b) with (last (c :: rest) b) in Hx.
    rewrite (last_indep c rest b c) in Hx.
    destruct Hc as [Hbc Hc]. split; [exact Hbc|].
    apply (IH c Hx Hc).
Qed.

Lemma play_tile_chained (board : list Tile.t) (tile : Tile.t) (position : string)
    (hand board' hand' : list Tile.t) :
  play_tile board tile position hand = Ok (true, board', hand') ->
  chained board -> chained board'.
Proof.
  intros H Hc. destruct (play_tile_true_inv _ _ _ _ _ _ H) as (_ & _ & Hb).
  destruct Hb as [[-> ->]|[(l & r & Hends & _ & Hv & ->)|(l & r & Hends & _ & Hv & ->)]].
  - simpl. auto.
  - apply (chained_push _ _ l r Hends); [|exact Hc].
    apply has_value_Some in Hv.
    destruct (Z.eqb_spec (Tile.right tile) l); simpl; lia.
  - apply (chained_snoc _ _ l r Hends); [|exact Hc].
    apply has_value_Some in Hv.
    destruct (Z.eqb_spec (Tile.left tile) r); simpl; lia.
Qed.

Lemma check_game_over_board (s : State) : board (_check_game_over s) = board s.
Proof. apply check_game_over_collections. Qed.

(** Property X4.  In every reachable state the board is a chain: each
    tile's right value equals the left value of the tile after it. *)
Theorem board_is_chain (s : State) : reachable s -> chained (board s).
Proof.
  induction 1 as [shuffled s Hperm Hinit | s s' _ IH Hstep].
  - unfold __init__, _deal_tiles in Hinit.
    apply determine_starting_player_cases in Hinit.
    destruct Hinit as [->|(t & _ & hand' & _ & ->)]; simpl; auto.
  - revert IH. apply (step_preserves (fun s => chained (board s))); try exact Hstep.
    + intros s0 p H. exact H.
    + intros s0 x rest H _ _. exact H.
    + intros s0 x rest H _ _. exact H.
    + intros s0 tile position b' h' H _ Hp. unfold after_ai_play.
      rewrite check_game_over_board. read_fields. exact (play_tile_chained _ _ _ _ _ _ Hp H).
    + intros s0 tile position b' h' H _ _ Hp. unfold after_player_play.
      rewrite check_game_over_board. read_fields. exact (play_tile_chained _ _ _ _ _ _ Hp H).
Qed.

(** The statement of X4 at the ten tiles laid in [deadlock]. *)
Lemma board_is_chain_witness : chained (board deadlock).
Proof. exact (board_is_chain deadlock deadlock_reachable). Defined.

(** ** Hands keep the orientation of the deal *)

Lemma list_remove_incl (x : Tile.t) (l l' : list Tile.t) (t : Tile.t) :
  list_remove x l = Ok l' -> In t l' -> In t l.
Proof.
  intros H Hin. destruct (list_remove_Ok _ _ _ H) as (l1 & y & l2 & -> & -> & _).
  apply in_app_or in Hin. apply in_or_app. destruct Hin; [left | right; right]; assumption.
Qed.

Lemma domino_set_ordered (t : Tile.t) :
  In t _create_domino_set -> Tile.left t <= Tile.right t.
Proof.
  intros H. vm_compute in H.
  repeat (destruct H as [<-|H]; [simpl; lia|]). contradiction.
Qed.

Lemma as_dealt_step (s s' : State) : step s s' -> as_dealt s -> as_dealt s'.
Proof.
  apply step_preserves.
  - intros s0 p H. exact H.
  - intros s0 x rest H B _ t Hin. unfold ai_draw in Hin. read_fields. apply H.
    rewrite B. destruct Hin as [Hin|[Hin|Hin]]; auto.
    + apply in_app_or in Hin. destruct Hin as [Hin|[<-|[]]]; auto.
      right; right. apply in_or_app. right. left. reflexivity.
    + right; right. apply in_or_app. auto.
  - intros s0 x rest H B _ t Hin. unfold player_draw in Hin. read_fields. apply H.
    rewrite B. destruct Hin as [Hin|[Hin|Hin]]; auto.
    + apply in_app_or in Hin. destruct Hin as [Hin|[<-|[]]]; auto.
      right; right. apply in_or_app. right. left. reflexivity.
    + right; right. apply in_or_app. auto.
  - intros s0 tile position b' h' H _ Hp t Hin. unfold after_ai_play in Hin.
    destruct (check_game_over_collections
                (set_current_player player (set_ai_hand h' (set_board b' s0))))
      as (E1 & E2 & _ & E4 & _).
    rewrite E1, E2, E4 in Hin. read_fields. apply H.
    destruct (play_tile_true_inv _ _ _ _ _ _ Hp) as (_ & Hrm & _).
    destruct Hin as [Hin|[Hin|Hin]]; auto.
    right; left. exact (list_remove_incl _ _ _ _ Hrm Hin).
  - intros s0 tile position b' h' H _ _ Hp t Hin. unfold after_player_play in Hin.
    destruct (check_game_over_collections
                (set_current_player ai (set_player_hand h' (set_board b' s0))))
      as (E1 & E2 & _ & E4 & _).
    rewrite E1, E2, E4 in Hin. read_fields. apply H.
    destruct (play_tile_true_inv _ _ _ _ _ _ Hp) as (_ & Hrm & _).
    destruct Hin as [Hin|[Hin|Hin]]; auto.
    left. exact (list_remove_incl _ _ _ _ Hrm Hin).
Qed.

Lemma as_dealt_init (shuffled : list Tile.t) (s : State) :
  Permutation shuffled _create_domino_set -> __init__ shuffled = Ok s -> as_dealt s.
Proof.
  intros Hperm H t Hin. apply domino_set_ordered. apply (Permutation_in _ Hperm).
  rewrite (deal_split shuffled).
  unfold __init__, _deal_tiles in H. apply determine_starting_player_cases in H.
  destruct H as [->|(x & _ & hand' & Hrm & ->)]; read_fields;
    destruct Hin as [Hin|[Hin|Hin]]; apply in_or_app; auto;
    right; apply in_or_app; auto.
  left. exact (list_remove_incl _ _ _ _ Hrm Hin).
Qed.

(** Property X5.  In every reachable state each tile of the two hands and
    of the boneyard is stored as it was created, smaller pip first; only
    tiles on the board are ever flipped.  So every entry of
    [get_player_hand] has [0 <= left <= right <= 6]. *)
Theorem hands_keep_orientation (s : State) :
  reachable s ->
  (forall t, In t (player_hand s ++ ai_hand s ++ boneyard s) ->
             0 <= Tile.left t <= Tile.right t /\ Tile.right t <= 6)
  /\ (forall d, In d (get_player_hand s) -> 0 <= d_left d <= d_right d /\ d_right d <= 6).
Proof.
  intros Hr.
  assert (Hd : as_dealt s).
  { induction Hr as [shuffled s Hperm Hinit | s s' _ IH Hstep].
    - exact (as_dealt_init shuffled s Hperm Hinit).
    - exact (as_dealt_step s s' Hstep IH). }
  assert (H : forall t, In t (player_hand s ++ ai_hand s ++ boneyard s) ->
                        0 <= Tile.left t <= Tile.right t /\ Tile.right t <= 6).
  { intros t Hin.
    assert (Hall : In t (all_tiles s)).
    { unfold all_tiles. rewrite !app_assoc. apply in_or_app. left.
      rewrite <- !app_assoc. exact Hin. }
    pose proof (reachable_pips s t Hr Hall) as Hp.
    assert (Ho : Tile.left t <= Tile.right t).
    { apply Hd. apply in_app_or in Hin. destruct Hin as [Hin|Hin]; auto.
      apply in_app_or in Hin. tauto. }
    lia. }
  split; [exact H|].
  intros d Hin. unfold get_player_hand in Hin. apply in_map_iff in Hin.
  destruct Hin as (t & <- & Hin). simpl. apply H. apply in_or_app. auto.
Qed.

(** The statement of X5 at [deadlock], where ten tiles lie on the board,
    five of them flipped: the entry [{left: 2, right: 4}] of the player's
    hand and the tile [5|6] of the AI's. *)
Lemma hands_keep_orientation_witness :
  (0 <= d_left (mkTileDict 2 4) <= d_right (mkTileDict 2 4) /\ d_right (mkTileDict 2 4) <= 6)
  /\ (0 <= Tile.left (5:|:6) <= Tile.right (5:|:6) /\ Tile.right (5:|:6) <= 6).
Proof.
  destruct (hands_keep_orientation deadlock deadlock_reachable) as [Ht Hd].
  split.
  - apply Hd. simpl. auto.
  - apply Ht. simpl. auto 12.
Defined.

(** ** From [get_player_hand] back to [play_player_tile] *)

(** Property X6.  A tile spec taken from [get_player_hand] is always found
    again: when it is the player's turn, the game is not over and the side
    is "left" or "right", [play_player_tile] on an entry of
    [get_player_hand] finds a tile of the hand with exactly these two
    values, and either [can_play_tile] allows the side and the move
    succeeds, or it does not and the move is rejected with the "Cannot play
    tile" message and the state unchanged; it is never answered "Tile not
    in your hand" and never raises. *)
Theorem hand_entry_is_playable_or_refused (s : State) (d : TileDict) (position : string) :
  current_player s = player ->
  game_over s = false ->
  In d (get_player_hand s) ->
  position = "left"%string \/ position = "right"%string ->
  exists t,
    find_tile (player_hand s) d = Some t
    /\ Tile.to_dict t = d
    /\ ((playable_get (can_play_tile (board s) t) position = Ok true
         /\ exists s', play_player_tile s d position
                       = Ok (s', mkResponse true "Tile played successfully"))
        \/ (playable_get (can_play_tile (board s) t) position = Ok false
            /\ play_player_tile s d position
               = Ok (s, mkResponse false ("Cannot play tile on " ++ position ++ " side")))).
Proof.
  intros Hcp Hgo Hin Hpos.
  unfold get_player_hand in Hin. apply in_map_iff in Hin. destruct Hin as (t0 & Hd & Hin0).
  assert (Hex : exists t, In t (player_hand s)
                          /\ Tile.left t = d_left d /\ Tile.right t = d_right d).
  { exists t0. subst d. simpl. auto. }
  destruct (find_tile_exists _ _ Hex) as [t F].
  exists t. split; [exact F|].
  destruct (find_tile_Some _ _ _ F) as (_ & Hl & Hr).
  split; [destruct d; simpl in *; unfold Tile.to_dict; congruence|].
  destruct (play_player_tile_cases s d position)
    as [[[G|G] _]|(_ & _ & [[F' _]|(t' & F' & [(Nl & Nr & _)|[[P E]|(P & p & h & b & _ & _ & _ & _ & E)]])])];
    try congruence.
  - destruct Hpos; contradiction.
  - rewrite F in F'. injection F' as <-. right. auto.
  - rewrite F in F'. injection F' as <-. left. split; [exact P|]. eauto.
Qed.

(** The statement of X6 in [game1], for the entry [{left: 5, right: 6}]
    of the hand, on the empty board. *)
Lemma hand_entry_is_playable_or_refused_witness :
  exists t, find_tile (player_hand game1) (mkTileDict 5 6) = Some t
            /\ Tile.to_dict t = mkTileDict 5 6.
Proof.
  destruct (hand_entry_is_playable_or_refused game1 (mkTileDict 5 6) "left"
              eq_refl eq_refl) as (t & F & D & _).
  - simpl. auto.
  - left. reflexivity.
  - exists t. auto.
Defined.

(** ** What a successful move of the player changes *)

(** Property X7.  When [play_player_tile] returns, its message is never
    "Failed to play tile" (that branch is dead); and it reports success
    exactly in this case: it was the player's turn in a game not over, the
    tile found in the hand left it (first equal item removed), it was laid
    as it is or flipped at the left or the right end of the board, the AI's
    hand and the boneyard are untouched, and the AI is to move. *)
Theorem player_play_effects (s s' : State) (tile_dict : TileDict) (position : string)
    (r : Response) :
  play_player_tile s tile_dict position = Ok (s', r) ->
  message r <> "Failed to play tile"%string
  /\ (success r = true ->
      current_player s = player /\ game_over s = false
      /\ current_player s' = ai
      /\ ai_hand s' = ai_hand s /\ boneyard s' = boneyard s
      /\ exists t placed,
          find_tile (player_hand s) tile_dict = Some t
          /\ removed_first t (player_hand s) (player_hand s')
          /\ (placed = t \/ placed = flipped t)
          /\ (board s' = board s ++ [placed] \/ board s' = placed :: board s)).
Proof.
  intros H.
  destruct (play_player_tile_cases s tile_dict position)
    as [[_ E]|(Hcp & Hgo & [[_ E]|(t & F & [(_ & _ & E)|[[_ E]|(_ & p & h & b & _ & _ & _ & Pl & E)]])])];
    rewrite E in H; try discriminate; injection H as <- <-;
    (split; [simpl; discriminate|]); try (simpl; discriminate).
  intros _. unfold after_player_play.
  destruct (check_game_over_collections
              (set_current_player ai (set_player_hand h (set_board b s))))
    as (E1 & E2 & E3 & E4 & E5).
  rewrite E1, E2, E3, E4, E5. read_fields.
  repeat split; auto.
  destruct (play_tile_true_inv _ _ _ _ _ _ Pl) as (_ & Hrm & Hb).
  destruct Hb as [[Eb ->]|[(l & r0 & _ & _ & _ & ->)|(l & r0 & _ & _ & _ & ->)]].
  - exists t, t. rewrite Eb. repeat split; auto. exact (list_remove_Ok _ _ _ Hrm).
  - exists t, (if Tile.right t =? l then t else flipped t).
    repeat split; auto; [exact (list_remove_Ok _ _ _ Hrm)|].
    destruct (Tile.right t =? l); auto.
  - exists t, (if Tile.left t =? r0 then t else flipped t).
    repeat split; auto; [exact (list_remove_Ok _ _ _ Hrm)|].
    destruct (Tile.left t =? r0); auto.
Qed.

(** The statement of X7 at the opening move of [game1]. *)
Lemma player_play_effects_witness :
  current_player game2 = ai /\ ai_hand game2 = ai_hand game1
  /\ boneyard game2 = boneyard game1.
Proof.
  destruct (player_play_effects game1 game2 (mkTileDict 6 6) "left" _ game1_opening)
    as (_ & H).
  destruct (H eq_refl) as (_ & _ & C & A & B & _). auto.
Defined.

(** ** When the game ends *)

Lemma check_game_over_spec (s : State) :
  (player_hand s = [] ->
   _check_game_over s = set_game_over true (Some player) s)
  /\ (player_hand s <> [] -> ai_hand s = [] ->
      _check_game_over s = set_game_over true (Some ai) s)
  /\ (player_hand s <> [] -> ai_hand s <> [] ->
      (boneyard s <> []
       \/ any_playable (board s) (player_hand s) = true
       \/ any_playable (board s) (ai_hand s) = true) ->
      _check_game_over s = s).
Proof.
  unfold _check_game_over. split; [|split].
  - intros ->. reflexivity.
  - intros Hp ->. apply nonempty_true in Hp. rewrite Hp. reflexivity.
  - intros Hp Ha H. apply nonempty_true in Hp. apply nonempty_true in Ha.
    rewrite Hp, Ha. simpl.
    destruct (nonempty (boneyard s)) eqn:B; [reflexivity|]. simpl.
    apply nonempty_false in B.
    destruct H as [H|[H|H]]; [contradiction| |]; rewrite H; simpl;
      [reflexivity|]. rewrite andb_false_r. reflexivity.
Qed.

Lemma ai_run_played (s : State) (drawn_tiles : list Tile.t) (s' : State) (r : AiResult)
    (n : nat) :
  ai_run s drawn_tiles s' r n ->
  forall tile position drew_count, r = AiPlayed tile position drew_count ->
  exists s1, s' = _check_game_over s1
             /\ game_over s1 = game_over s /\ winner s1 = winner s.
Proof.
  induction 1 as [s d tile position b' h' C Pl | s d x rest s' r n M B R IH | s d M B];
    intros t p c E.
  - unfold after_ai_play. eexists. split; [reflexivity|]. split; reflexivity.
  - destruct (IH t p c E) as (s1 & E1 & G & W). exists s1. auto.
  - discriminate.
Qed.

(** After a play that succeeded, the state is [_check_game_over] of a state
    in which the game was not over and the winner field was as before. *)
Lemma after_play_checked (s s' : State) :
  ((exists tile_dict position r,
       play_player_tile s tile_dict position = Ok (s', r) /\ success r = true)
   \/ (exists fuel tile position drew_count,
          ai_play fuel s = Ok (s', AiPlayed tile position drew_count))) ->
  exists s1, s' = _check_game_over s1 /\ game_over s1 = false /\ winner s1 = winner s.
Proof.
  intros [(td & pos & r & H & Hr)|(fuel & t & pos & c & H)].
  - destruct (play_player_tile_cases s td pos)
      as [[_ E]|(_ & Hgo & [[_ E]|(t & _ & [(_ & _ & E)|[[_ E]|(_ & p & h & b & _ & _ & _ & _ & E)]])])];
      rewrite E in H; try discriminate; injection H as <- <-; try discriminate.
    unfold after_player_play. eexists. split; [reflexivity|]. split; [exact Hgo | reflexivity].
  - unfold ai_play in H.
    destruct (negb (Player_eqb (current_player s) ai) || game_over s) eqn:G; [discriminate|].
    apply ais_turn in G. destruct G as [_ Hgo].
    destruct (ai_play_loop_sound _ _ _ _ _ H) as (n & R & _).
    destruct (ai_run_played _ _ _ _ _ R t pos c eq_refl) as (s1 & E1 & G & W).
    exists s1. rewrite G. auto.
Qed.

(** Property X8.  After a successful play, by the player or by the AI,
    the game is over exactly when the player's hand is empty, or the AI's
    hand is empty, or the boneyard is empty and neither hand holds a
    playable tile.  An empty player's hand makes the player the winner;
    otherwise an empty AI hand makes the AI the winner; and when the game
    goes on the winner field is left as it was. *)
Theorem game_ends_exactly_when (s s' : State) :
  ((exists tile_dict position r,
       play_player_tile s tile_dict position = Ok (s', r) /\ success r = true)
   \/ (exists fuel tile position drew_count,
          ai_play fuel s = Ok (s', AiPlayed tile position drew_count))) ->
  (game_over s' = true
   <-> player_hand s' = [] \/ ai_hand s' = []
       \/ (boneyard s' = []
           /\ ~ can_move (board s') (player_hand s')
           /\ ~ can_move (board s') (ai_hand s')))
  /\ (player_hand s' = [] -> winner s' = Some player)
  /\ (player_hand s' <> [] -> ai_hand s' = [] -> winner s' = Some ai)
  /\ (game_over s' = false -> winner s' = winner s).
Proof.
  intros H.
  cut ((game_over s' = true
        <-> player_hand s' = [] \/ ai_hand s' = []
            \/ (boneyard s' = []
                /\ any_playable (board s') (player_hand s') = false
                /\ any_playable (board s') (ai_hand s') = false))
       /\ (player_hand s' = [] -> winner s' = Some player)
       /\ (player_hand s' <> [] -> ai_hand s' = [] -> winner s' = Some ai)
       /\ (game_over s' = false -> winner s' = winner s)).
  { intros (E & R). split; [|exact R].
    pose proof (not_playable_cannot_move (board s') (player_hand s')) as Np.
    pose proof (not_playable_cannot_move (board s') (ai_hand s')) as Na.
    tauto. }
  destruct (after_play_checked s s' H) as (s1 & -> & Hgo & Hw).
  destruct (check_game_over_collections s1) as (E1 & E2 & E3 & E4 & _).
  rewrite E1, E2, E3, E4.
  destruct (check_game_over_spec s1) as (Sp & Sa & Sn).
  destruct (player_hand s1) as [|p ph] eqn:P.
  { rewrite (Sp eq_refl). read_fields. repeat split; auto; try congruence. }
  assert (Hp : p :: ph <> []) by discriminate.
  destruct (ai_hand s1) as [|a ah] eqn:A.
  { rewrite (Sa Hp eq_refl). read_fields. repeat split; auto; try congruence. }
  assert (Ha : a :: ah <> []) by discriminate.
  destruct (boneyard s1) as [|b bs] eqn:B.
  - destruct (any_playable (board s1) (p :: ph)) eqn:Pp.
    { rewrite (Sn Hp Ha (or_intror (or_introl eq_refl))). rewrite Hgo.
      repeat split; auto; try congruence.
      intros [X|[X|(_ & X & _)]]; discriminate. }
    destruct (any_playable (board s1) (a :: ah)) eqn:Pa.
    { rewrite (Sn Hp Ha (or_intror (or_intror eq_refl))). rewrite Hgo.
      repeat split; auto; try congruence.
      intros [X|[X|(_ & _ & X)]]; discriminate. }
    assert (Pp' : any_playable (board s1) (player_hand s1) = false) by (rewrite P; exact Pp).
    assert (Pa' : any_playable (board s1) (ai_hand s1) = false) by (rewrite A; exact Pa).
    assert (Hp' : player_hand s1 <> []) by (rewrite P; exact Hp).
    assert (Ha' : ai_hand s1 <> []) by (rewrite A; exact Ha).
    rewrite (check_game_over_blocked s1 Hp' Ha' B Pp' Pa'). read_fields.
    repeat split; auto; try congruence.
  - assert (Hb : b :: bs <> []) by discriminate.
    rewrite (Sn Hp Ha (or_introl Hb)). rewrite Hgo.
    repeat split; auto; try congruence.
    intros [X|[X|(X & _)]]; discriminate.
Qed.

(** The statement of X8 on three plays by the player: the opening move
    of [game1], after which both hands and the boneyard still hold tiles
    and the game goes on; the player's last tile, which ends the game with
    the player as winner; and a play after which the boneyard is empty and
    neither [4|4] nor [6|6] fits the ends 1 and 3, which ends the game. *)
Lemma game_ends_exactly_when_witness :
  (game_over game2 = false /\ winner game2 = winner game1)
  /\ (exists s',
         play_player_tile (blocking [2:|:3] [5:|:5] player) (mkTileDict 2 3) "right"
         = Ok (s', mkResponse true "Tile played successfully")
         /\ game_over s' = true /\ winner s' = Some player)
  /\ (exists s',
         play_player_tile (blocking [2:|:3; 4:|:4] [6:|:6] player) (mkTileDict 2 3) "right"
         = Ok (s', mkResponse true "Tile played successfully")
         /\ game_over s' = true).
Proof.
  split; [|split].
  - destruct (game_ends_exactly_when game1 game2
                (or_introl (ex_intro _ (mkTileDict 6 6) (ex_intro _ "left"%string
                   (ex_intro _ (mkResponse true "Tile played successfully")
                      (conj game1_opening eq_refl))))))
      as (_ & _ & _ & H).
    split; [reflexivity | apply H; reflexivity].
  - eexists. split; [vm_compute; reflexivity|].
    destruct (game_ends_exactly_when (blocking [2:|:3] [5:|:5] player) _
                (or_introl (ex_intro _ (mkTileDict 2 3) (ex_intro _ "right"%string
                   (ex_intro _ (mkResponse true "Tile played successfully")
                      (conj eq_refl eq_refl))))))
      as (Hgo & Hout & _ & _).
    split; [apply Hgo; left; reflexivity | apply Hout; reflexivity].
  - eexists. split; [vm_compute; reflexivity|].
    destruct (game_ends_exactly_when (blocking [2:|:3; 4:|:4] [6:|:6] player) _
                (or_introl (ex_intro _ (mkTileDict 2 3) (ex_intro _ "right"%string
                   (ex_intro _ (mkResponse true "Tile played successfully")
                      (conj eq_refl eq_refl))))))
      as (Hgo & _ & _ & _).
    apply Hgo. right. right.
    split; [reflexivity | split; apply not_playable_cannot_move; reflexivity].
Defined.

(** ** A finished game *)

(** Property X9.  A game that is over is never changed again: whatever
    the tile spec, the side and the fuel, [play_player_tile], [ai_play]
    and [player_draw_until_playable] refuse, return the state as it is and
    do not raise, not even for an unknown side. *)
Theorem game_over_is_final (s : State) :
  game_over s = true ->
  (forall tile_dict position,
      play_player_tile s tile_dict position
      = Ok (s, mkResponse false "Not your turn or game over"))
  /\ (forall fuel, ai_play fuel s = Ok (s, AiRefused))
  /\ (forall fuel,
         player_draw_until_playable fuel s
         = Ok (s, DrawRefused "Not your turn or game over"))
  /\ (forall s', steps s s' -> s' = s).
Proof.
  intros Hgo.
  assert (Hp : forall tile_dict position,
             play_player_tile s tile_dict position
             = Ok (s, mkResponse false "Not your turn or game over")).
  { intros td pos. unfold play_player_tile. rewrite Hgo, orb_true_r. reflexivity. }
  assert (Ha : forall fuel, ai_play fuel s = Ok (s, AiRefused)).
  { intros fuel. unfold ai_play. rewrite Hgo, orb_true_r. reflexivity. }
  assert (Hd : forall fuel,
             player_draw_until_playable fuel s
             = Ok (s, DrawRefused "Not your turn or game over")).
  { intros fuel. unfold player_draw_until_playable. rewrite Hgo, orb_true_r. reflexivity. }
  repeat split; auto.
  intros s' Hsteps. induction Hsteps as [s | s s1 s2 _ IH Hstep]; [reflexivity|].
  specialize (IH Hgo Hp Ha Hd). subst s1.
  destruct Hstep as [s0 td pos s1 r H | s0 fuel s1 r H | s0 fuel s1 r H].
  - rewrite Hp in H. injection H as <- _. reflexivity.
  - rewrite Ha in H. injection H as <- _. reflexivity.
  - rewrite Hd in H. injection H as <- _. reflexivity.
Qed.

(** The statement of X9 at [finished], with a side that would raise in a
    running game. *)
Lemma game_over_is_final_witness :
  play_player_tile finished (mkTileDict 4 4) "middle"
  = Ok (finished, mkResponse false "Not your turn or game over")
  /\ ai_play 0 finished = Ok (finished, AiRefused).
Proof.
  destruct (game_over_is_final finished eq_refl) as (Hp & Ha & _).
  split; [apply Hp | apply Ha].
Defined.

Lemma winner_iff_over_check (s : State) :
  winner_iff_over s -> winner_iff_over (_check_game_over s).
Proof.
  intros [Hf Ht]. unfold _check_game_over, winner_iff_over.
  destruct (nonempty (player_hand s)); simpl; [|split; congruence].
  destruct (nonempty (ai_hand s)); simpl; [|split; congruence].
  destruct (nonempty (boneyard s)); simpl; [split; assumption|].
  destruct (negb (any_playable (board s) (player_hand s))
            && negb (any_playable (board s) (ai_hand s))); simpl;
    [split; congruence | split; assumption].
Qed.

(** Property X10.  In every reachable state [winner] is ['player'] or
    ['ai'] exactly when [game_over] is true, and [None] exactly when it is
    false. *)
Theorem winner_set_iff_game_over (s : State) :
  reachable s ->
  (game_over s = true <-> winner s <> None)
  /\ (game_over s = false <-> winner s = None).
Proof.
  intros Hr.
  assert (H : winner_iff_over s).
  { induction Hr as [shuffled s Hperm Hinit | s s' _ IH Hstep].
    - unfold __init__, _deal_tiles in Hinit.
      apply determine_starting_player_cases in Hinit.
      destruct Hinit as [->|(t & _ & hand' & _ & ->)]; split; simpl; congruence.
    - revert IH. apply (step_preserves winner_iff_over); try exact Hstep.
      + intros s0 p H. exact H.
      + intros s0 x rest H _ _. exact H.
      + intros s0 x rest H _ _. exact H.
      + intros s0 tile position b' h' H _ _. apply winner_iff_over_check. exact H.
      + intros s0 tile position b' h' H _ _ _. apply winner_iff_over_check. exact H. }
  destruct H as [Hf Ht].
  destruct (game_over s) eqn:G; split; split; intros X; auto; try discriminate;
    exfalso; try (apply (Ht eq_refl); exact X); try (apply X; apply Hf; reflexivity).
Qed.

(** The statement of X10 at the reachable [deadlock]. *)
Lemma winner_set_iff_game_over_witness :
  game_over deadlock = false <-> winner deadlock = None.
Proof. exact (proj2 (winner_set_iff_game_over deadlock deadlock_reachable)). Defined.

(** ** The forced draw of the player *)

Lemma draw_run_fuel (s : State) (drawn_tiles : list Tile.t) (s' : State) (r : DrawResult)
    (n : nat) :
  draw_run s drawn_tiles s' r n ->
  (forall fuel, (n <= fuel)%nat -> player_draw_loop fuel s drawn_tiles = Ok (s', r))
  /\ (forall fuel, (fuel < n)%nat -> player_draw_loop fuel s drawn_tiles = OutOfFuel).
Proof.
  induction 1 as [s d Pl | s d x rest s' r n Pl B R IH | s d Pl B].
  - split; intros [|fuel] Hf; try lia; try reflexivity.
    destruct (player_draw_loop_S fuel s d) as [(_ & E)|[(P & _)|(P & _)]];
      [exact E | congruence | congruence].
  - destruct IH as (Hge & Hlt).
    split; intros [|fuel] Hf; try lia; try reflexivity;
      destruct (player_draw_loop_S fuel s d)
        as [(P & _)|[(_ & x1 & rest1 & B1 & E)|(_ & B1 & _)]];
      try congruence;
      try (rewrite B in B1; exfalso; exact (snoc_not_nil _ _ B1));
      rewrite B in B1; apply app_inj_tail in B1; destruct B1 as [<- <-]; rewrite E.
    + apply Hge. lia.
    + apply Hlt. lia.
  - split; intros [|fuel] Hf; try lia; try reflexivity.
    destruct (player_draw_loop_S fuel s d)
      as [(P & _)|[(_ & x1 & rest1 & B1 & _)|(_ & _ & E)]];
      [congruence | | exact E].
    rewrite B in B1. symmetry in B1. exfalso. exact (snoc_not_nil _ _ B1).
Qed.

Lemma draw_run_exists (k : nat) :
  forall s drawn_tiles,
    length (boneyard s) = k ->
    exists s' r n, draw_run s drawn_tiles s' r n /\ (n <= S k)%nat.
Proof.
  induction k as [|k IH]; intros s d Hlen;
    destruct (player_draw_loop_S 0 s d)
      as [(P & _)|[(P & x & rest & B & _)|(P & B & _)]];
    try (eexists _, _, 1%nat; split; [constructor; assumption | lia]).
  - rewrite B, length_app in Hlen. simpl in Hlen. lia.
  - destruct (IH (player_draw x rest s) (d ++ [x])) as (s' & r & n & R & Hn).
    { unfold player_draw. read_fields. rewrite B, length_app in Hlen. simpl in Hlen. lia. }
    exists s', r, (S n). split; [econstructor; eassumption | lia].
Qed.

Lemma draw_run_summary (s : State) (drawn_tiles : list Tile.t) (s' : State)
    (r : DrawResult) (n : nat) :
  draw_run s drawn_tiles s' r n ->
  exists more, n = S (length more) /\ draw_run_result s drawn_tiles s' r more.
Proof.
  induction 1 as [s d Pl | s d x rest s' r n Pl B R IH | s d Pl B].
  - exists []. split; [reflexivity|]. unfold draw_run_result.
    rewrite !app_nil_r. simpl. repeat split; auto.
    intros k Hk. lia.
  - destruct IH as (more & -> & HB & HP & HA & HBd & HG & HW & HK & HR).
    exists (x :: more). split; [reflexivity|]. unfold draw_run_result.
    unfold player_draw in *. read_fields.
    assert (Eh : forall l, (player_hand s ++ [x]) ++ l = player_hand s ++ x :: l)
      by (intros l; rewrite <- app_assoc; reflexivity).
    assert (Ed : (d ++ [x]) ++ more = d ++ x :: more)
      by (rewrite <- app_assoc; reflexivity).
    rewrite Ed in HR. rewrite Eh in HP.
    repeat split; auto.
    + rewrite B, HB. simpl. rewrite app_assoc. reflexivity.
    + intros [|k] Hk; simpl.
      * rewrite app_nil_r. exact Pl.
      * rewrite <- Eh. apply HK. simpl in Hk. lia.
  - exists []. split; [reflexivity|]. unfold draw_run_result.
    rewrite !app_nil_r. simpl. repeat split; auto.
    intros k Hk. lia.
Qed.

(** Property X11.  When it is the player's turn, the game is not over
    and the boneyard is not empty, [player_draw_until_playable] returns
    after [n] loop iterations, [1 <= n <= |boneyard| + 1], having moved the
    last [n - 1] tiles of the boneyard, last first, to the end of the
    player's hand and touched nothing else; it draws only while no tile of
    the hand is playable; it ends either reporting that the player can
    play, the hand then holding a playable tile and the turn staying with
    the player, or, with the boneyard exhausted and still nothing playable,
    passing the turn to the AI.  If the hand already holds a playable tile
    nothing is drawn and the state is unchanged. *)
Theorem player_draw_correct (s : State) :
  current_player s = player ->
  game_over s = false ->
  boneyard s <> [] ->
  exists s' r n more,
    (1 <= n <= S (length (boneyard s)))%nat
    /\ n = S (length more)
    /\ (forall fuel, (n <= fuel)%nat -> player_draw_until_playable fuel s = Ok (s', r))
    /\ (forall fuel, (fuel < n)%nat -> player_draw_until_playable fuel s = OutOfFuel)
    /\ boneyard s = boneyard s' ++ rev more
    /\ player_hand s' = player_hand s ++ more
    /\ ai_hand s' = ai_hand s /\ board s' = board s
    /\ game_over s' = false /\ winner s' = winner s
    /\ (forall k, (k < length more)%nat ->
                  ~ can_move (board s) (player_hand s ++ firstn k more))
    /\ ((r = DrawCanPlay (length more)
         /\ can_move (board s') (player_hand s')
         /\ current_player s' = player)
        \/ (r = DrawPassed (length more)
            /\ ~ can_move (board s') (player_hand s')
            /\ boneyard s' = []
            /\ current_player s' = ai))
    /\ (can_move (board s) (player_hand s) -> s' = s /\ r = DrawCanPlay 0).
Proof.
  intros Hcp Hgo Hne.
  cut (exists s' r n more,
    (1 <= n <= S (length (boneyard s)))%nat
    /\ n = S (length more)
    /\ (forall fuel, (n <= fuel)%nat -> player_draw_until_playable fuel s = Ok (s', r))
    /\ (forall fuel, (fuel < n)%nat -> player_draw_until_playable fuel s = OutOfFuel)
    /\ boneyard s = boneyard s' ++ rev more
    /\ player_hand s' = player_hand s ++ more
    /\ ai_hand s' = ai_hand s /\ board s' = board s
    /\ game_over s' = false /\ winner s' = winner s
    /\ (forall k, (k < length more)%nat ->
                  any_playable (board s) (player_hand s ++ firstn k more) = false)
    /\ ((r = DrawCanPlay (length more)
         /\ any_playable (board s') (player_hand s') = true
         /\ current_player s' = player)
        \/ (r = DrawPassed (length more)
            /\ any_playable (board s') (player_hand s') = false
            /\ boneyard s' = []
            /\ current_player s' = ai))
    /\ (any_playable (board s) (player_hand s) = true -> s' = s /\ r = DrawCanPlay 0)).
  { intros (s' & r & n & more & H1 & H2 & H3 & H4 & H5 & H6 & H7 & H8 & H9 & H10
            & HK & HR & H0).
    exists s', r, n, more. repeat (split; [assumption|]).
    split; [|split].
    - intros k Hk. apply not_playable_cannot_move. apply HK. exact Hk.
    - destruct HR as [(Er & Hp & Hc)|(Er & Hp & Hb & Hc)].
      + left. split; [exact Er|]. split; [apply any_playable_can_move; exact Hp | exact Hc].
      + right. split; [exact Er|].
        split; [apply not_playable_cannot_move; exact Hp | split; assumption].
    - intros Hm. apply H0. apply any_playable_can_move. exact Hm. }
  destruct (draw_run_exists (length (boneyard s)) s [] eq_refl) as (s' & r & n & R & Hn).
  destruct (draw_run_fuel _ _ _ _ _ R) as (Hge & Hlt).
  destruct (draw_run_summary _ _ _ _ _ R)
    as (more & En & HB & HP & HA & HBd & HG & HW & HK & HR).
  assert (G : negb (Player_eqb (current_player s) player) || game_over s = false)
    by (apply players_turn; auto).
  assert (N : negb (nonempty (boneyard s)) = false)
    by (apply nonempty_true in Hne; rewrite Hne; reflexivity).
  exists s', r, n, more. unfold player_draw_until_playable. rewrite G, N.
  simpl in HR. rewrite Hcp in HR.
  repeat split; auto; try lia; try congruence.
  - inversion R; subst; try congruence; reflexivity.
  - inversion R; subst; try congruence; reflexivity.
Qed.

(** The statement of X11 at two positions.  At [before_player_pass] the
    one tile left is drawn, nothing fits and the turn passes to the AI.  At
    [before_player_draw] the hand [4|4] does not fit the ends 1 and 2; the
    last tile of the boneyard, [2|5], is drawn and fits, so the player is
    told to play and [6|6] stays in the boneyard. *)
Lemma player_draw_correct_witness :
  (exists s', player_draw_until_playable 2 before_player_pass = Ok (s', DrawPassed 1)
              /\ game_over s' = false /\ current_player s' = ai
              /\ ~ can_move (board s') (player_hand s'))
  /\ (exists s', player_draw_until_playable 3 before_player_draw = Ok (s', DrawCanPlay 1)
                 /\ player_hand s' = [4:|:4; 2:|:5] /\ boneyard s' = [6:|:6]
                 /\ current_player s' = player
                 /\ can_move (board s') (player_hand s')).
Proof.
  split.
  - destruct (player_draw_correct before_player_pass eq_refl eq_refl)
      as (s' & r & n & more & Hn & _ & Hge & Hlt & _ & _ & _ & _ & Hg & _ & _ & HR & _).
    + discriminate.
    + assert (E : player_draw_until_playable 2 before_player_pass = Ok (s', r))
        by (apply Hge; simpl in Hn; lia).
      vm_compute in E. injection E as Es Er. subst r.
      exists s'. split; [rewrite <- Es; vm_compute; reflexivity|].
      destruct HR as [(Er & _)|(_ & Hno & _ & Hc)]; [discriminate|].
      split; [exact Hg | split; [exact Hc | exact Hno]].
  - destruct (player_draw_correct before_player_draw eq_refl eq_refl)
      as (s' & r & n & more & Hn & _ & Hge & Hlt & _ & Hh & _ & _ & _ & _ & _ & HR & _).
    + discriminate.
    + assert (E : player_draw_until_playable 3 before_player_draw = Ok (s', r))
        by (apply Hge; simpl in Hn; lia).
      vm_compute in E. injection E as Es Er. subst r.
      exists s'. split; [rewrite <- Es; vm_compute; reflexivity|].
      destruct HR as [(_ & Hyes & Hc)|(Er & _)]; [|discriminate].
      rewrite <- Es in *.
      split; [reflexivity | split; [reflexivity | split; [exact Hc | exact Hyes]]].
Defined.

(** ** [get_starting_info] *)

(** Property X12.  On the same hands [get_starting_info] and
    [_determine_starting_player] agree: either both return, and the info
    names the player with no opening tile exactly when nothing is laid, and
    names the AI with the opening tile [t] exactly when the AI lays [t];
    or both raise [ValueError], which happens only when neither hand holds
    a double and one of them is empty.  In particular, for a freshly
    constructed game whose board is empty, [get_starting_info] names the
    player as the starter. *)
Theorem starting_info_agrees :
  (forall s,
      (exists info s',
          get_starting_info s = Ok info
          /\ _determine_starting_player s = Ok s'
          /\ ((starter info = player /\ opening_tile info = None /\ player_starts s s')
              \/ (starter info = ai
                  /\ exists t, opening_tile info = Some (Tile.to_dict t)
                               /\ In t (ai_hand s) /\ ai_opens s s' t)))
      \/ (get_starting_info s = Raise ValueError
          /\ _determine_starting_player s = Raise ValueError
          /\ no_double (player_hand s) /\ no_double (ai_hand s)
          /\ (player_hand s = [] \/ ai_hand s = [])))
  /\ (forall shuffled s,
         Permutation shuffled _create_domino_set ->
         __init__ shuffled = Ok s ->
         board s = [] ->
         exists info, get_starting_info s = Ok info
                      /\ starter info = player /\ opening_tile info = None).
Proof.
  assert (Main : forall s,
      (exists info s',
          get_starting_info s = Ok info
          /\ _determine_starting_player s = Ok s'
          /\ ((starter info = player /\ opening_tile info = None /\ player_starts s s')
              \/ (starter info = ai
                  /\ exists t, opening_tile info = Some (Tile.to_dict t)
                               /\ In t (ai_hand s) /\ ai_opens s s' t)))
      \/ (get_starting_info s = Raise ValueError
          /\ _determine_starting_player s = Raise ValueError
          /\ no_double (player_hand s) /\ no_double (ai_hand s)
          /\ (player_hand s = [] \/ ai_hand s = []))).
  { intros s. unfold get_starting_info, _determine_starting_player, player_starts.
    destruct (highest_double_spec (player_hand s)) as [[HP NP]|(p0 & HP & MP)];
      destruct (highest_double_spec (ai_hand s)) as [[HA NA]|(a0 & HA & MA)];
      rewrite HP, HA; cbn [bind].
    - destruct (nonempty (player_hand s)) eqn:P.
      2:{ apply nonempty_false in P. right. rewrite P in *. simpl. repeat split; auto. }
      apply nonempty_true in P.
      destruct (highest_tile_spec _ P) as (p1 & Ep & Mp). rewrite Ep. cbn [bind].
      destruct (nonempty (ai_hand s)) eqn:A.
      2:{ apply nonempty_false in A. right. rewrite A in *. simpl. repeat split; auto. }
      apply nonempty_true in A.
      destruct (highest_tile_spec _ A) as (a1 & Ea & Ma). rewrite Ea. cbn [bind].
      left. destruct (_tile_value a1 >? _tile_value p1).
      + destruct (ai_opening_ok s a1 (proj1 Ma)) as (s' & _ & E & O).
        eexists _, s'. split; [reflexivity|]. split; [exact E|].
        right. split; [reflexivity|]. exists a1. simpl. split; [reflexivity|].
        split; [exact (proj1 Ma) | exact O].
      + eexists _, _. split; [reflexivity|]. split; [reflexivity|]. left. auto.
    - left. destruct (ai_opening_ok s a0 (proj1 MA)) as (s' & E & _ & O).
      eexists _, s'. split; [reflexivity|]. split; [exact E|].
      right. split; [reflexivity|]. exists a0. simpl. split; [reflexivity|].
      split; [exact (proj1 MA) | exact O].
    - left. eexists _, _. split; [reflexivity|]. split; [reflexivity|]. left. auto.
    - left. destruct (Tile.left a0 >? Tile.left p0).
      + destruct (ai_opening_ok s a0 (proj1 MA)) as (s' & E & _ & O).
        eexists _, s'. split; [reflexivity|]. split; [exact E|].
        right. split; [reflexivity|]. exists a0. simpl. split; [reflexivity|].
        split; [exact (proj1 MA) | exact O].
      + eexists _, _. split; [reflexivity|]. split; [reflexivity|]. left. auto. }
  split; [exact Main|].
  intros shuffled s Hperm Hinit Hboard.
  unfold __init__, _deal_tiles in Hinit.
  set (s3 := set_boneyard (skipn 14 shuffled)
               (set_ai_hand (firstn 7 (skipn 7 shuffled))
                  (set_player_hand (firstn 7 shuffled)
                     (mkState [] [] [] [] player false None)))) in *.
  destruct (Main s3) as [(info & s' & Hi & Hd & Hcase)|(_ & Hd & _)];
    [|rewrite Hd in Hinit; discriminate].
  rewrite Hd in Hinit. injection Hinit as <-.
  destruct Hcase as [(Hs & Ho & Hst)|(_ & t & _ & _ & hand' & _ & Hst)].
  - exists info. rewrite Hst. split; [exact Hi | auto].
  - rewrite Hst in Hboard. simpl in Hboard. discriminate.
Qed.

(** The statement of X12 at [game1], constructed from [deal1] with an
    empty board. *)
Lemma starting_info_agrees_witness :
  exists info, get_starting_info game1 = Ok info
               /\ starter info = player /\ opening_tile info = None.
Proof.
  exact (proj2 starting_info_agrees deal1 game1 deal1_shuffled init_deal1 eq_refl).
Defined.

(** ** Exceptions *)

(** On arguments of the annotated types [play_player_tile] raises, and
    then [KeyError], exactly when it is the player's turn, the game is not
    over, the hand holds a tile stored with the two values of the tile spec,
    and the side is neither "left" nor "right". *)
Lemma play_player_tile_raises_iff (s : State) (tile_dict : TileDict) (position : string)
    (e : exn) :
  play_player_tile s tile_dict position = Raise e
  <-> e = KeyError
      /\ current_player s = player /\ game_over s = false
      /\ (exists t, find_tile (player_hand s) tile_dict = Some t)
      /\ position <> "left"%string /\ position <> "right"%string.
Proof.
  destruct (play_player_tile_cases s tile_dict position)
    as [[G E]|(Hcp & Hgo & [[F E]|(t & F & [(Nl & Nr & E)|[[P E]|(P & p & h & b & _ & _ & _ & _ & E)]])])];
    rewrite E; split; try discriminate.
  - intros (_ & Hcp & Hgo & _). destruct G; congruence.
  - intros (_ & _ & _ & (t & F') & _). congruence.
  - intros H. injection H as <-. repeat split; eauto.
  - intros (-> & _). reflexivity.
  - intros (_ & _ & _ & _ & Nl & Nr). unfold playable_get in P.
    destruct (String.eqb_spec position "left"); [contradiction|].
    destruct (String.eqb_spec position "right"); [contradiction | discriminate].
  - intros (_ & _ & _ & _ & Nl & Nr). unfold playable_get in P.
    destruct (String.eqb_spec position "left"); [contradiction|].
    destruct (String.eqb_spec position "right"); [contradiction | discriminate].
Qed.

(** *** The scan on request values *)

Lemma find_tile_dyn_not_dict (hand : list Tile.t) (tile_dict : PyValue) :
  (forall items, tile_dict <> PyDict items) ->
  find_tile_dyn hand tile_dict
  = match hand with [] => Ok None | _ :: _ => Raise TypeError end.
Proof.
  intros H. destruct hand as [|t rest]; [reflexivity|].
  destruct tile_dict; try reflexivity. exfalso. eapply H. reflexivity.
Qed.

Lemma find_tile_dyn_no_left (hand : list Tile.t) (items : list (string * PyValue)) :
  dict_get items "left" = None ->
  find_tile_dyn hand (PyDict items)
  = match hand with [] => Ok None | _ :: _ => Raise KeyError end.
Proof.
  intros H. destruct hand as [|t rest]; [reflexivity|].
  cbn [find_tile_dyn py_getitem]. rewrite H. reflexivity.
Qed.

Lemma find_tile_dyn_no_right (hand : list Tile.t) (items : list (string * PyValue))
    (l : PyValue) :
  dict_get items "left" = Some l ->
  dict_get items "right" = None ->
  find_tile_dyn hand (PyDict items)
  = if existsb (fun t => py_int_eq (Tile.left t) l) hand then Raise KeyError else Ok None.
Proof.
  intros Hl Hr. induction hand as [|t rest IH]; [reflexivity|].
  cbn [find_tile_dyn py_getitem existsb]. rewrite Hl. cbn [bind].
  destruct (py_int_eq (Tile.left t) l); cbn [orb].
  - rewrite Hr. reflexivity.
  - exact IH.
Qed.

Lemma find_tile_dyn_both (hand : list Tile.t) (items : list (string * PyValue))
    (l r : PyValue) :
  dict_get items "left" = Some l ->
  dict_get items "right" = Some r ->
  find_tile_dyn hand (PyDict items)
  = Ok (find (fun t => py_int_eq (Tile.left t) l && py_int_eq (Tile.right t) r) hand).
Proof.
  intros Hl Hr. induction hand as [|t rest IH]; [reflexivity|].
  cbn [find_tile_dyn py_getitem find]. rewrite Hl. cbn [bind].
  destruct (py_int_eq (Tile.left t) l); cbn [andb]; [|exact IH].
  rewrite Hr. cbn [bind].
  destruct (py_int_eq (Tile.right t) r); [reflexivity | exact IH].
Qed.

(** The scan finds a tile exactly when the spec names one; the tile found
    is the first one named. *)
Lemma find_tile_dyn_Some (hand : list Tile.t) (tile_dict : PyValue) (t : Tile.t) :
  find_tile_dyn hand tile_dict = Ok (Some t) -> names_tile hand tile_dict t.
Proof.
  intros H.
  destruct tile_dict as [| | | | | |items];
    try (rewrite find_tile_dyn_not_dict in H by discriminate;
         destruct hand; discriminate).
  destruct (dict_get items "left") as [l|] eqn:Hl;
    [|rewrite (find_tile_dyn_no_left _ _ Hl) in H; destruct hand; discriminate].
  destruct (dict_get items "right") as [r|] eqn:Hr.
  - rewrite (find_tile_dyn_both _ _ _ _ Hl Hr) in H. injection H as H.
    apply find_some in H. destruct H as [Hin H]. apply andb_true_iff in H.
    exists items, l, r. tauto.
  - rewrite (find_tile_dyn_no_right _ _ _ Hl Hr) in H.
    destruct (existsb _ hand); discriminate.
Qed.

Lemma names_tile_found (hand : list Tile.t) (tile_dict : PyValue) (t : Tile.t) :
  names_tile hand tile_dict t -> exists t', find_tile_dyn hand tile_dict = Ok (Some t').
Proof.
  intros (items & l & r & -> & Hl & Hr & Hin & El & Er).
  rewrite (find_tile_dyn_both _ _ _ _ Hl Hr).
  destruct (find (fun t0 => py_int_eq (Tile.left t0) l && py_int_eq (Tile.right t0) r) hand)
    as [t'|] eqn:F; [eauto|].
  pose proof (find_none _ _ F t Hin) as N. simpl in N. rewrite El, Er in N. discriminate.
Qed.

(** A tile of the hand is found by its own [to_dict]. *)
Lemma find_tile_self (hand : list Tile.t) (t : Tile.t) :
  In t hand -> find_tile hand (Tile.to_dict t) = Some t.
Proof.
  unfold find_tile. induction hand as [|h rest IH]; intros Hin; [contradiction|].
  cbn [find Tile.to_dict d_left d_right].
  destruct ((Tile.left h =? Tile.left t) && (Tile.right h =? Tile.right t)) eqn:E.
  - apply andb_true_iff in E. rewrite !Z.eqb_eq in E. destruct E as [E1 E2].
    destruct h, t. simpl in *. subst. reflexivity.
  - destruct Hin as [->|Hin]; [|exact (IH Hin)].
    rewrite !Z.eqb_refl in E. discriminate.
Qed.

Lemma playable_get_dyn_cases (d : Playable) (position : PyValue) :
  (unhashable position /\ playable_get_dyn d position = Raise TypeError)
  \/ (~ unhashable position
      /\ ((position <> PyStr "left" /\ position <> PyStr "right"
           /\ playable_get_dyn d position = Raise KeyError)
          \/ (exists key, position = PyStr key
                          /\ (key = "left"%string \/ key = "right"%string)
                          /\ playable_get_dyn d position = playable_get d key))).
Proof.
  assert (Hash : forall v, (forall items, v <> PyList items) ->
                           (forall items, v <> PyDict items) -> ~ unhashable v).
  { intros v Hl Hd [(items & E)|(items & E)]; [eapply Hl | eapply Hd]; exact E. }
  destruct position as [|b|n|f|key|items|items].
  1-4: right; split; [apply Hash; discriminate|];
       left; repeat split; try discriminate; reflexivity.
  - right. split; [apply Hash; discriminate|].
    cbn [playable_get_dyn]. unfold playable_get.
    destruct (String.eqb_spec key "left") as [->|Nl]; [right; eauto|].
    destruct (String.eqb_spec key "right") as [->|Nr]; [right; eauto 6|].
    left. repeat split; congruence.
  - left. split; [left; eauto | reflexivity].
  - left. split; [right; eauto | reflexivity].
Qed.

(** *** [play_player_tile] on request values *)

(** Once the scan has found a tile and the side is a str, the call is the
    call on arguments of the annotated types, with the tile's own dict. *)
Lemma play_player_tile_dyn_found (s : State) (tile_dict : PyValue) (t : Tile.t)
    (key : string) :
  find_tile_dyn (player_hand s) tile_dict = Ok (Some t) ->
  play_player_tile_dyn s tile_dict (PyStr key) = play_player_tile s (Tile.to_dict t) key.
Proof.
  intros F. unfold play_player_tile_dyn, play_player_tile.
  destruct (negb (Player_eqb (current_player s) player) || game_over s); [reflexivity|].
  rewrite F. cbn [bind].
  destruct (find_tile_dyn_Some _ _ _ F) as (_ & _ & _ & _ & _ & _ & Hin & _).
  rewrite (find_tile_self _ _ Hin). reflexivity.
Qed.

(** On arguments of the annotated types, a dict with two ints and a str,
    the call on request values is [play_player_tile]. *)
Lemma play_player_tile_dyn_typed (s : State) (items : list (string * PyValue))
    (l r : Z) (key : string) :
  dict_get items "left" = Some (PyInt l) ->
  dict_get items "right" = Some (PyInt r) ->
  play_player_tile_dyn s (PyDict items) (PyStr key)
  = play_player_tile s (mkTileDict l r) key.
Proof.
  intros Hl Hr. unfold play_player_tile_dyn, play_player_tile.
  destruct (negb (Player_eqb (current_player s) player) || game_over s); [reflexivity|].
  rewrite (find_tile_dyn_both _ _ _ _ Hl Hr). cbn [bind].
  change (find (fun t => py_int_eq (Tile.left t) (PyInt l)
                         && py_int_eq (Tile.right t) (PyInt r)) (player_hand s))
    with (find_tile (player_hand s) (mkTileDict l r)).
  destruct (find_tile (player_hand s) (mkTileDict l r)); reflexivity.
Qed.

(** The ways a call on request values can go: it leaves the state as it
    is and reports a failure; or it raises; or it is a call on arguments of
    the annotated types. *)
Lemma play_player_tile_dyn_cases (s : State) (tile_dict position : PyValue) :
  (exists message,
      play_player_tile_dyn s tile_dict position = Ok (s, mkResponse false message))
  \/ (exists e, play_player_tile_dyn s tile_dict position = Raise e)
  \/ (exists t key,
         position = PyStr key
         /\ play_player_tile_dyn s tile_dict position
            = play_player_tile s (Tile.to_dict t) key).
Proof.
  destruct (find_tile_dyn (player_hand s) tile_dict) as [[t|]|e|] eqn:F.
  - destruct (playable_get_dyn_cases (can_play_tile (board s) t) position)
      as [(_ & P)|(_ & [(_ & _ & P)|(key & -> & _ & _)])].
    + unfold play_player_tile_dyn.
      destruct (negb (Player_eqb (current_player s) player) || game_over s); [eauto|].
      rewrite F. cbn [bind]. rewrite P. cbn [bind]. right. left. eauto.
    + unfold play_player_tile_dyn.
      destruct (negb (Player_eqb (current_player s) player) || game_over s); [eauto|].
      rewrite F. cbn [bind]. rewrite P. cbn [bind]. right. left. eauto.
    + right. right. exists t, key. split; [reflexivity|].
      apply play_player_tile_dyn_found. exact F.
  - unfold play_player_tile_dyn.
    destruct (negb (Player_eqb (current_player s) player) || game_over s); [eauto|].
    rewrite F. cbn [bind]. eauto.
  - unfold play_player_tile_dyn.
    destruct (negb (Player_eqb (current_player s) player) || game_over s); [eauto|].
    rewrite F. cbn [bind]. right. left. eauto.
  - exfalso. revert F. generalize (player_hand s). intros hand.
    induction hand as [|h rest IH]; [discriminate|].
    cbn [find_tile_dyn].
    destruct (py_getitem tile_dict "left") as [l|e|] eqn:L; cbn [bind]; try discriminate.
    + destruct (py_int_eq (Tile.left h) l); [|exact IH].
      destruct (py_getitem tile_dict "right") as [r|e|] eqn:R; cbn [bind];
        try discriminate.
      * destruct (py_int_eq (Tile.right h) r); [discriminate | exact IH].
      * destruct tile_dict; try discriminate. cbn [py_getitem] in R.
        destruct (dict_get items "right"); discriminate.
    + destruct tile_dict; try discriminate. cbn [py_getitem] in L.
      destruct (dict_get items "left"); discriminate.
Qed.

(** Calls on request values reach no state that calls on arguments of
    the annotated types do not reach. *)
Lemma play_player_tile_dyn_reachable (s s' : State) (tile_dict position : PyValue)
    (r : Response) :
  reachable s ->
  play_player_tile_dyn s tile_dict position = Ok (s', r) ->
  reachable s'.
Proof.
  intros Hr H.
  destruct (play_player_tile_dyn_cases s tile_dict position)
    as [(m & E)|[(e & E)|(t & key & _ & E)]]; rewrite E in H.
  - injection H as <- _. exact Hr.
  - discriminate.
  - exact (reachable_step s s' Hr (step_play_player_tile _ _ _ _ _ H)).
Qed.

(** Property X13.  [play_player_tile] checks neither of its arguments,
    and the route hands it whatever the request held.  Over all request
    values (the values [json.loads] builds) it raises exactly when it is
    the player's turn, the game is not over, and one of five things is
    wrong with the request: the tile spec is no dict and the hand is not
    empty ([TypeError]); the spec has no ['left'] entry and the hand is not
    empty ([KeyError]); its ['left'] entry equals the left value of a tile
    of the hand and it has no ['right'] entry ([KeyError]); it names a tile
    of the hand and the side is a list or a dict ([TypeError]); it names a
    tile of the hand and the side is any other value than 'left' and
    'right' ([KeyError]).  Out of turn, or with a spec that names no tile,
    the side is never looked at.  [ai_play] and
    [player_draw_until_playable], which take no argument, never raise, in
    any state: the [remove], [max] and [pop] they perform are always on
    lists that hold what is asked of them. *)
Theorem operations_raise_exactly_when :
  (forall s tile_dict position e,
      play_player_tile_dyn s tile_dict position = Raise e
      <-> current_player s = player /\ game_over s = false
          /\ request_raises (player_hand s) tile_dict position e)
  /\ (forall fuel s e, ai_play fuel s <> Raise e)
  /\ (forall fuel s e, player_draw_until_playable fuel s <> Raise e).
Proof.
  split; [|split; [exact ai_play_never_raises | exact player_draw_never_raises]].
  intros s td pos e.
  assert (Guard : negb (Player_eqb (current_player s) player) || game_over s = true ->
                  play_player_tile_dyn s td pos
                  = Ok (s, mkResponse false "Not your turn or game over")).
  { intros G. unfold play_player_tile_dyn. rewrite G. reflexivity. }
  assert (Scan : forall x, find_tile_dyn (player_hand s) td = Raise x ->
                           negb (Player_eqb (current_player s) player) || game_over s = false ->
                           play_player_tile_dyn s td pos = Raise x).
  { intros x F G. unfold play_player_tile_dyn. rewrite G, F. reflexivity. }
  assert (Absent : find_tile_dyn (player_hand s) td = Ok None ->
                   play_player_tile_dyn s td pos <> Raise e).
  { intros F. unfold play_player_tile_dyn.
    destruct (negb (Player_eqb (current_player s) player) || game_over s); [discriminate|].
    rewrite F. discriminate. }
  assert (Side : forall t, find_tile_dyn (player_hand s) td = Ok (Some t) ->
                   negb (Player_eqb (current_player s) player) || game_over s = false ->
                   play_player_tile_dyn s td pos = Raise e
                   <-> (unhashable pos /\ e = TypeError)
                       \/ (~ unhashable pos /\ pos <> PyStr "left"
                           /\ pos <> PyStr "right" /\ e = KeyError)).
  { intros t F G.
    destruct (playable_get_dyn_cases (can_play_tile (board s) t) pos)
      as [(U & P)|(U & [(Nl & Nr & P)|(key & -> & K & _)])].
    - unfold play_player_tile_dyn. rewrite G, F. cbn [bind]. rewrite P. cbn [bind].
      split; [intros H; injection H as <-; auto | intros [(_ & ->)|(X & _)]; tauto].
    - unfold play_player_tile_dyn. rewrite G, F. cbn [bind]. rewrite P. cbn [bind].
      split; [intros H; injection H as <-; auto | intros [(X & _)|(_ & _ & _ & ->)]; tauto].
    - rewrite (play_player_tile_dyn_found _ _ _ _ F). rewrite play_player_tile_raises_iff.
      split.
      + intros (_ & _ & _ & _ & Nl & Nr). destruct K; contradiction.
      + intros [(X & _)|(_ & Nl & Nr & _)]; [contradiction|].
        destruct K as [-> | ->]; [destruct Nl | destruct Nr]; reflexivity. }
  destruct (negb (Player_eqb (current_player s) player) || game_over s) eqn:G.
  { rewrite (Guard eq_refl). split; [discriminate|].
    intros (Hcp & Hgo & _).
    assert (X : negb (Player_eqb (current_player s) player) || game_over s = false)
      by (apply players_turn; auto).
    congruence. }
  pose proof G as G'. apply players_turn in G'. destruct G' as [Hcp Hgo].
  split.
  - intros H. split; [exact Hcp|]. split; [exact Hgo|].
    destruct (find_tile_dyn (player_hand s) td) as [[t|]|x|] eqn:F.
    + apply (Side t eq_refl eq_refl) in H.
      pose proof (find_tile_dyn_Some _ _ _ F) as N.
      destruct H as [(U & ->)|(U & Nl & Nr & ->)].
      * exact (raises_unhashable_side _ _ _ t N U).
      * exact (raises_unknown_side _ _ _ t N U Nl Nr).
    + exfalso. exact (Absent eq_refl H).
    + rewrite (Scan x eq_refl eq_refl) in H. injection H as <-.
      destruct td as [| | | | | |items];
        try (rewrite find_tile_dyn_not_dict in F by discriminate;
             destruct (player_hand s) eqn:P; [discriminate|];
             injection F as <-;
             apply raises_not_a_dict; discriminate).
      destruct (dict_get items "left") as [l|] eqn:Hl.
      * destruct (dict_get items "right") as [r|] eqn:Hr;
          [rewrite (find_tile_dyn_both _ _ _ _ Hl Hr) in F; discriminate|].
        rewrite (find_tile_dyn_no_right _ _ _ Hl Hr) in F.
        destruct (existsb (fun t => py_int_eq (Tile.left t) l) (player_hand s)) eqn:X;
          [|discriminate].
        injection F as <-. apply existsb_exists in X. destruct X as (t & Hin & Et).
        exact (raises_no_right _ _ _ items l t eq_refl Hl Hr Hin Et).
      * rewrite (find_tile_dyn_no_left _ _ Hl) in F.
        destruct (player_hand s) eqn:P; [discriminate|]. injection F as <-.
        apply (raises_no_left _ _ _ items); [discriminate | reflexivity | exact Hl].
    + exfalso.
      destruct (play_player_tile_dyn_cases s td pos)
        as [(m & E)|[(x & E)|(t & key & -> & E)]].
      * unfold play_player_tile_dyn in E. rewrite G, F in E. discriminate.
      * unfold play_player_tile_dyn in E. rewrite G, F in E. discriminate.
      * unfold play_player_tile_dyn in H. rewrite G, F in H. discriminate.
  - intros (_ & _ & R). destruct R as [Hne Hnd|items Hne -> Hl|items l t -> Hl Hr Hin Et|t N U|t N U Nl Nr].
    + apply Scan; [|reflexivity]. rewrite (find_tile_dyn_not_dict _ _ Hnd).
      destruct (player_hand s); [contradiction | reflexivity].
    + apply Scan; [|reflexivity]. rewrite (find_tile_dyn_no_left _ _ Hl).
      destruct (player_hand s); [contradiction | reflexivity].
    + apply Scan; [|reflexivity]. rewrite (find_tile_dyn_no_right _ _ _ Hl Hr).
      assert (X : existsb (fun t0 => py_int_eq (Tile.left t0) l) (player_hand s) = true)
        by (apply existsb_exists; eauto).
      rewrite X. reflexivity.
    + destruct (names_tile_found _ _ _ N) as (t' & F).
      apply (Side t' F eq_refl). left. auto.
    + destruct (names_tile_found _ _ _ N) as (t' & F).
      apply (Side t' F eq_refl). right. auto.
Qed.

(** The statement of X13 in [game1], where the player holds [6|6]: no
    tile spec at all, a spec without its ['right'] entry, a list as the
    side and no side at all each raise; a spec that names no tile is
    answered whatever the side. *)
Lemma operations_raise_exactly_when_witness :
  play_player_tile_dyn game1 PyNone (PyStr "left") = Raise TypeError
  /\ play_player_tile_dyn game1 (PyDict [("left"%string, PyInt 6)]) (PyStr "left")
     = Raise KeyError
  /\ play_player_tile_dyn game1
       (PyDict [("left"%string, PyInt 6); ("right"%string, PyInt 6)]) (PyList [])
     = Raise TypeError
  /\ play_player_tile_dyn game1
       (PyDict [("left"%string, PyInt 6); ("right"%string, PyInt 6)]) PyNone
     = Raise KeyError
  /\ play_player_tile_dyn game1
       (PyDict [("left"%string, PyInt 7); ("right"%string, PyInt 7)]) PyNone
     <> Raise KeyError.
Proof.
  assert (Held : names_tile (player_hand game1)
                   (PyDict [("left"%string, PyInt 6); ("right"%string, PyInt 6)]) (6:|:6)).
  { exists [("left"%string, PyInt 6); ("right"%string, PyInt 6)], (PyInt 6), (PyInt 6).
    repeat split; try reflexivity. vm_compute. tauto. }
  assert (Hashable : ~ unhashable PyNone)
    by (intros [(items & E)|(items & E)]; discriminate).
  destruct operations_raise_exactly_when as (H & _).
  split; [|split; [|split; [|split]]].
  - apply H. repeat split; try reflexivity.
    apply raises_not_a_dict; [vm_compute|]; discriminate.
  - apply H. repeat split; try reflexivity.
    apply (raises_no_right _ _ _ [("left"%string, PyInt 6)] (PyInt 6) (6:|:6));
      try reflexivity. vm_compute. tauto.
  - apply H. repeat split; try reflexivity.
    apply (raises_unhashable_side _ _ _ (6:|:6) Held). left. eauto.
  - apply H. repeat split; try reflexivity.
    apply (raises_unknown_side _ _ _ (6:|:6) Held Hashable); discriminate.
  - intros E. apply H in E. destruct E as (_ & _ & R).
    assert (No : forall t,
               ~ names_tile (player_hand game1)
                   (PyDict [("left"%string, PyInt 7); ("right"%string, PyInt 7)]) t).
    { intros t (items & l & r & E & Hl & Hr & Hin & El & Er).
      injection E as <-. vm_compute in Hl. injection Hl as <-. vm_compute in Hin.
      repeat (destruct Hin as [<-|Hin]; [vm_compute in El; discriminate|]). exact Hin. }
    destruct R as [Hne Hnd|items Hne E Hl|items l t E Hl Hr Hin Et|t N U|t N U Nl Nr].
    + eapply Hnd. reflexivity.
    + injection E as <-. discriminate.
    + injection E as <-. discriminate.
    + exact (No t N).
    + exact (No t N).
Defined.

(** Property X14.  In a reachable state a tile spec with a pip outside
    [0, 6] never matches a tile of the hand: whatever the side, known or
    not, [play_player_tile] does not raise, leaves the state as it is, and
    answers "Tile not in your hand" when it is the player's turn in a game
    not over. *)
Theorem out_of_range_spec_rejected (s : State) (tile_dict : TileDict) (position : string) :
  reachable s ->
  ~ (0 <= d_left tile_dict <= 6 /\ 0 <= d_right tile_dict <= 6) ->
  find_tile (player_hand s) tile_dict = None
  /\ (exists message,
         play_player_tile s tile_dict position = Ok (s, mkResponse false message))
  /\ (current_player s = player -> game_over s = false ->
      play_player_tile s tile_dict position
      = Ok (s, mkResponse false "Tile not in your hand")).
Proof.
  intros Hr Hbad.
  assert (F : find_tile (player_hand s) tile_dict = None).
  { apply find_tile_None. intros t Hin [Hl Hr']. apply Hbad. rewrite <- Hl, <- Hr'.
    apply (reachable_pips s t Hr). unfold all_tiles. apply in_or_app. auto. }
  split; [exact F|].
  destruct (play_player_tile_cases s tile_dict position)
    as [[G E]|(Hcp & Hgo & [[_ E]|(t & F' & _)])]; try congruence.
  - split; [rewrite E; eauto|]. intros Hcp Hgo. destruct G; congruence.
  - split; [rewrite E; eauto|]. intros _ _. exact E.
Qed.

(** The statement of X14 in [game1], with a pip 7 and an unknown side. *)
Lemma out_of_range_spec_rejected_witness :
  play_player_tile game1 (mkTileDict 6 7) "middle"
  = Ok (game1, mkResponse false "Tile not in your hand").
Proof.
  destruct (out_of_range_spec_rejected game1 (mkTileDict 6 7) "middle" game1_reachable)
    as (_ & _ & H).
  - simpl. lia.
  - apply H; reflexivity.
Defined.

(** * The routes of [app.py] *)

(** ** Facts about the registry and about single calls *)

Lemma games_get_set_same (gs : Games) (k : string) (g : State) :
  games_get (games_set gs k g) k = Some g.
Proof.
  induction gs as [|[k0 g0] rest IH]; simpl.
  - rewrite String.eqb_refl. reflexivity.
  - destruct (String.eqb k0 k) eqn:E; simpl; rewrite E; [reflexivity | exact IH].
Qed.

Lemma games_get_set_other (gs : Games) (k k' : string) (g : State) :
  k' <> k -> games_get (games_set gs k g) k' = games_get gs k'.
Proof.
  intros Hne. induction gs as [|[k0 g0] rest IH]; simpl.
  - destruct (String.eqb_spec k k'); [congruence | reflexivity].
  - destruct (String.eqb_spec k0 k) as [->|N]; simpl.
    + destruct (String.eqb_spec k k'); [congruence | reflexivity].
    + destruct (String.eqb k0 k'); [reflexivity | exact IH].
Qed.

Lemma games_set_same (gs : Games) (k : string) (g : State) :
  games_get gs k = Some g -> games_set gs k g = gs.
Proof.
  induction gs as [|[k0 g0] rest IH]; simpl; [discriminate|].
  destruct (String.eqb k0 k) eqn:E.
  - intros H. injection H as ->. reflexivity.
  - intros H. rewrite (IH H). reflexivity.
Qed.

Lemma find_game_Some (w : World) (gid : string) (game : State) :
  find_game w = Some (gid, game) ->
  game_id (session w) = Some gid /\ games_get (games w) gid = Some game.
Proof.
  unfold find_game. destruct (game_id (session w)) as [k|]; [|discriminate].
  destruct (String.eqb k ""); [discriminate|].
  destruct (games_get (games w) k) as [g|] eqn:G; [|discriminate].
  intros H. injection H as <- <-. auto.
Qed.

Lemma game_state_fields (g : State) :
  gs_game_over (get_game_state g) = game_over g
  /\ gs_winner (get_game_state g) = winner g
  /\ gs_current_player (get_game_state g) = current_player g.
Proof.
  unfold get_game_state. destruct (get_board_ends (board g)). simpl. auto.
Qed.

Lemma init_player_to_move (shuffled : list Tile.t) (s : State) :
  __init__ shuffled = Ok s -> current_player s = player.
Proof.
  intros H. unfold __init__, _deal_tiles in H.
  apply determine_starting_player_cases in H.
  destruct H as [->|(t & _ & hand' & _ & ->)]; reflexivity.
Qed.

(** [ai_play] either refuses, changing nothing, or leaves the player to
    move. *)
Lemma ai_play_turn (fuel : nat) (s s' : State) (r : AiResult) :
  ai_play fuel s = Ok (s', r) ->
  (s' = s /\ r = AiRefused /\ (current_player s <> ai \/ game_over s = true))
  \/ (current_player s = ai /\ game_over s = false /\ current_player s' = player
      /\ r <> AiRefused).
Proof.
  unfold ai_play.
  destruct (negb (Player_eqb (current_player s) ai) || game_over s) eqn:G.
  - intros H. injection H as <- <-. left. repeat split.
    destruct (current_player s), (game_over s); simpl in G; try discriminate; auto;
      left; discriminate.
  - apply ais_turn in G. destruct G as [Hcp Hgo].
    intros H. right. destruct (ai_play_loop_sound _ _ _ _ _ H) as (n & R & _).
    destruct (ai_run_summary _ _ _ _ _ R) as (more & _ & _ & _ & Hc & _ & HR).
    repeat split; auto.
    destruct HR as [(t & p & -> & _)|(-> & _)]; discriminate.
Qed.

(** The forced draw refuses, changing nothing, or stops with the player
    still to move, or passes to the AI in a game not over. *)
Lemma player_draw_turn (fuel : nat) (s s' : State) (r : DrawResult) :
  player_draw_until_playable fuel s = Ok (s', r) ->
  (s' = s /\ draw_passed r = false /\ exists message, r = DrawRefused message)
  \/ (draw_passed r = false /\ current_player s' = player /\ game_over s' = false
      /\ current_player s = player)
  \/ (draw_passed r = true /\ current_player s' = ai /\ game_over s' = false).
Proof.
  unfold player_draw_until_playable.
  destruct (negb (Player_eqb (current_player s) player) || game_over s) eqn:G.
  { intros H. injection H as <- <-. left. eauto. }
  apply players_turn in G. destruct G as [Hcp Hgo].
  destruct (negb (nonempty (boneyard s))).
  { intros H. injection H as <- <-. left. eauto. }
  intros H. right. destruct (player_draw_loop_sound _ _ _ _ _ H) as (n & R & _).
  destruct (draw_run_summary _ _ _ _ _ R)
    as (more & _ & _ & _ & _ & _ & HG & _ & _ & HR).
  destruct HR as [(-> & _ & Hc)|(-> & _ & _ & Hc)]; [left | right]; simpl;
    repeat split; congruence.
Qed.

Lemma ai_play_returns (fuel : nat) (s : State) :
  (length (boneyard s) < fuel)%nat -> exists s' r, ai_play fuel s = Ok (s', r).
Proof.
  intros Hf. unfold ai_play.
  destruct (negb (Player_eqb (current_player s) ai) || game_over s); [eauto|].
  destruct (ai_run_exists (length (boneyard s)) s [] eq_refl) as (s' & r & n & R & Hn).
  destruct (ai_run_fuel _ _ _ _ _ R) as (_ & Hge & _).
  exists s', r. apply Hge. lia.
Qed.

Lemma player_draw_returns (fuel : nat) (s : State) :
  (length (boneyard s) < fuel)%nat ->
  exists s' r, player_draw_until_playable fuel s = Ok (s', r)
               /\ (length (boneyard s') <= length (boneyard s))%nat.
Proof.
  intros Hf. unfold player_draw_until_playable.
  destruct (negb (Player_eqb (current_player s) player) || game_over s); [eauto|].
  destruct (negb (nonempty (boneyard s))); [eauto|].
  destruct (draw_run_exists (length (boneyard s)) s [] eq_refl) as (s' & r & n & R & Hn).
  destruct (draw_run_fuel _ _ _ _ _ R) as (Hge & _).
  destruct (draw_run_summary _ _ _ _ _ R) as (more & _ & HB & _).
  exists s', r. split; [apply Hge; lia|].
  rewrite HB, length_app. lia.
Qed.

Lemma play_player_tile_boneyard (s s' : State) (tile_dict : TileDict) (position : string)
    (r : Response) :
  play_player_tile s tile_dict position = Ok (s', r) ->
  boneyard s' = boneyard s
  /\ (success r = false -> s' = s)
  /\ (success r = true -> current_player s' = ai).
Proof.
  intros H.
  destruct (play_player_tile_cases s tile_dict position)
    as [[_ E]|(_ & _ & [[_ E]|(t & _ & [(_ & _ & E)|[[_ E]|(_ & p & h & b & _ & _ & _ & _ & E)]])])];
    rewrite E in H; try discriminate; injection H as <- <-;
    try (repeat split; auto; simpl; discriminate).
  unfold after_player_play.
  destruct (check_game_over_collections
              (set_current_player ai (set_player_hand h (set_board b s))))
    as (_ & _ & _ & E4 & E5).
  rewrite E4, E5. repeat split; auto. simpl. discriminate.
Qed.

Lemma reachable_winner_named (s : State) :
  reachable s -> winner_named (winner s) = game_over s.
Proof.
  intros Hr.
  assert (H : winner_iff_over s).
  { induction Hr as [shuffled s Hperm Hinit | s s' _ IH Hstep].
    - unfold __init__, _deal_tiles in Hinit.
      apply determine_starting_player_cases in Hinit.
      destruct Hinit as [->|(t & _ & hand' & _ & ->)]; split; simpl; congruence.
    - revert IH. apply (step_preserves winner_iff_over); try exact Hstep.
      + intros s0 p H. exact H.
      + intros s0 x rest H _ _. exact H.
      + intros s0 x rest H _ _. exact H.
      + intros s0 tile position b' h' H _ _. apply winner_iff_over_check. exact H.
      + intros s0 tile position b' h' H _ _ _. apply winner_iff_over_check. exact H. }
  destruct H as [Hf Ht]. destruct (game_over s).
  - specialize (Ht eq_refl). destruct (winner s); [reflexivity | contradiction].
  - rewrite (Hf eq_refl). reflexivity.
Qed.

(** ** Worlds the server can be in *)

Lemma all_served_set (w : World) (k : string) (g : State) (sess : Session) :
  all_served w -> served g -> all_served (mkWorld (games_set (games w) k g) sess).
Proof.
  intros Hw Hg k' g' H. simpl in H.
  destruct (String.eqb_spec k' k) as [->|N].
  - rewrite games_get_set_same in H. injection H as <-. exact Hg.
  - rewrite (games_get_set_other _ _ _ _ N) in H. exact (Hw k' g' H).
Qed.

Lemma served_after_ai (fuel : nat) (g g' : State) (r : AiResult) :
  reachable g -> (current_player g = ai \/ game_over g = true) ->
  ai_play fuel g = Ok (g', r) -> served g'.
Proof.
  intros Hr Hc H. split.
  - exact (reachable_step g g' Hr (step_ai_play _ _ _ _ H)).
  - destruct (ai_play_turn _ _ _ _ H) as [(-> & _ & [N|G])|(_ & _ & C & _)]; auto.
    destruct Hc as [C|G]; [contradiction | auto].
Qed.

Lemma wstep_served (w w' : World) : wstep w w' -> all_served w -> all_served w'.
Proof.
  intros [new_id shuffled w0 w1 body Hperm H | fuel w0 tile position w1 reply H
          | fuel w0 w1 reply H | w0] Hw.
  - unfold new_game in H.
    destruct (__init__ shuffled) as [game| |] eqn:I; simpl in H; try discriminate.
    injection H as <- _. apply all_served_set; [exact Hw|].
    split; [exact (reachable_init _ _ Hperm I)|].
    left. exact (init_player_to_move _ _ I).
  - unfold route_play_tile in H.
    destruct (find_game w0) as [[gid game]|] eqn:F; [|injection H as <- _; exact Hw].
    destruct (find_game_Some _ _ _ F) as [_ G]. destruct (Hw gid game G) as [Hr Hc].
    destruct (play_player_tile game tile position) as [[game1 result]| |] eqn:P;
      cbn [bind] in H; try discriminate.
    pose proof (reachable_step game game1 Hr (step_play_player_tile _ _ _ _ _ P)) as Hr1.
    destruct (play_player_tile_boneyard _ _ _ _ _ P) as (_ & Hfalse & Htrue).
    destruct (success result).
    + destruct (ai_play fuel game1) as [[game2 ai_result]| |] eqn:A;
        cbn [bind] in H; try discriminate.
      injection H as <- _. apply all_served_set; [exact Hw|].
      apply (served_after_ai fuel game1 game2 ai_result Hr1); auto.
    + injection H as <- _. apply all_served_set; [exact Hw|].
      rewrite (Hfalse eq_refl). split; assumption.
  - unfold route_draw_tile in H.
    destruct (find_game w0) as [[gid game]|] eqn:F; [|injection H as <- _; exact Hw].
    destruct (find_game_Some _ _ _ F) as [_ G]. destruct (Hw gid game G) as [Hr Hc].
    destruct (player_draw_until_playable fuel game) as [[game1 result]| |] eqn:P;
      cbn [bind] in H; try discriminate.
    pose proof (reachable_step game game1 Hr (step_player_draw _ _ _ _ P)) as Hr1.
    destruct (player_draw_turn _ _ _ _ P)
      as [(-> & D & _)|[(D & C & _)|(D & C & O)]]; rewrite D in H.
    + injection H as <- _. apply all_served_set; [exact Hw | split; assumption].
    + injection H as <- _. apply all_served_set; [exact Hw | split; auto].
    + destruct (ai_play fuel game1) as [[game2 ai_result]| |] eqn:A;
        cbn [bind] in H; try discriminate.
      injection H as <- _. apply all_served_set; [exact Hw|].
      apply (served_after_ai fuel game1 game2 ai_result Hr1); auto.
  - intros k g H. exact (Hw k g H).
Qed.

Lemma wreachable_all_served (w : World) : wreachable w -> all_served w.
Proof.
  induction 1 as [|w w' _ IH Hstep].
  - intros k g H. discriminate.
  - exact (wstep_served w w' Hstep IH).
Qed.

(** Property X15.  Every game stored by the server, after any sequence
    of [new_game], [play_tile], [draw_tile] and [reset_session_score]
    requests, is a state the engine can reach, and in it the player is to
    move unless the game is over: the AI's reply is always made inside the
    request that gives it the turn. *)
Theorem served_games_await_the_player (w : World) :
  wreachable w ->
  forall k g, games_get (games w) k = Some g ->
              reachable g /\ (current_player g = player \/ game_over g = true).
Proof. intros H. exact (wreachable_all_served w H). Qed.

Lemma world1_reachable : wreachable world1.
Proof.
  apply (wreachable_step _ world1 wreachable_start).
  apply (wstep_new_game "g1" deal1 _ _
           (mkNewGameBody "g1" None (view game1 (session world1))) deal1_shuffled).
  vm_compute. reflexivity.
Qed.

(** The statement of X15 at [world1]. *)
Lemma served_games_await_the_player_witness :
  reachable game1 /\ (current_player game1 = player \/ game_over game1 = true).
Proof.
  exact (served_games_await_the_player world1 world1_reachable "g1"%string game1 eq_refl).
Defined.

(** ** The score *)

Lemma find_game_after_set (w : World) (gid : string) (game g' : State) (sess : Session) :
  find_game w = Some (gid, game) ->
  game_id sess = game_id (session w) ->
  find_game (mkWorld (games_set (games w) gid g') sess) = Some (gid, g').
Proof.
  unfold find_game. simpl. intros H E. rewrite E.
  destruct (game_id (session w)) as [k|]; [|discriminate].
  destruct (String.eqb k "") eqn:K; [discriminate|].
  destruct (games_get (games w) k) as [g|]; [|discriminate].
  injection H as <- <-. rewrite games_get_set_same. reflexivity.
Qed.

Lemma count_win_game_id (gs : GameState) (sess : Session) :
  game_id (count_win gs sess) = game_id sess.
Proof.
  unfold count_win.
  destruct (gs_game_over gs && winner_named (gs_winner gs)); [|reflexivity].
  destruct (gs_winner gs) as [[|]|]; reflexivity.
Qed.

Lemma world_eta (w : World) : mkWorld (games w) (session w) = w.
Proof. destruct w. reflexivity. Qed.

(** Property X16.  For a world the server can be in, an answered
    [play_tile] request acts on the session's game as follows.  If the
    player's move is rejected, nothing changes: neither the stored games
    nor the session, and there is no AI move.  If it succeeds, the game was
    not over, the AI's reply is made in the same request, and the score
    changes exactly when the game is over afterwards: one win more for the
    player when the player won, one more for the AI when the AI won, and no
    change while the game goes on.  The score in the reply is the session's
    score after the request. *)
Theorem play_tile_counts_the_win (fuel : nat) (w w' : World) (tile : TileDict)
    (position : string) (body : PlayTileBody) :
  wreachable w ->
  route_play_tile fuel w tile position = Ok (w', Json body) ->
  exists gid game game',
    find_game w = Some (gid, game)
    /\ find_game w' = Some (gid, game')
    /\ v_session_score (pt_view body) = get_session_score w'
    /\ (success (pt_result body) = false -> w' = w /\ pt_ai_move body = None)
    /\ (success (pt_result body) = true ->
        game_over game = false
        /\ pt_ai_move body <> None
        /\ (game_over game' = false -> session w' = session w)
        /\ (game_over game' = true -> winner game' = Some player ->
            get_session_score w'
            = (fst (get_session_score w) + 1, snd (get_session_score w)))
        /\ (game_over game' = true -> winner game' = Some ai ->
            get_session_score w'
            = (fst (get_session_score w), snd (get_session_score w) + 1))
        /\ (game_over game' = true -> winner game' <> None)).
Proof.
  intros Hw H. pose proof (wreachable_all_served w Hw) as Hs.
  unfold route_play_tile in H.
  destruct (find_game w) as [[gid game]|] eqn:F; [|discriminate].
  destruct (find_game_Some _ _ _ F) as [Hid G]. destruct (Hs gid game G) as [Hr Hc].
  destruct (play_player_tile game tile position) as [[game1 result]| |] eqn:P;
    cbn [bind] in H; try discriminate.
  pose proof (reachable_step game game1 Hr (step_play_player_tile _ _ _ _ _ P)) as Hr1.
  destruct (play_player_tile_boneyard _ _ _ _ _ P) as (_ & Hfalse & Htrue).
  destruct (success result) eqn:S.
  - destruct (ai_play fuel game1) as [[game2 ai_result]| |] eqn:A;
      cbn [bind] in H; try discriminate.
    injection H as <- <-.
    pose proof (reachable_step game1 game2 Hr1 (step_ai_play _ _ _ _ A)) as Hr2.
    pose proof (reachable_winner_named game2 Hr2) as Hwn.
    destruct (game_state_fields game2) as (Eg & Ew & _).
    exists gid, game, game2. split; [reflexivity|].
    split; [apply (find_game_after_set w gid game game2 _ F (count_win_game_id _ _))|].
    split; [reflexivity|]. simpl. rewrite S.
    split; [discriminate|]. intros _.
    split.
    { destruct (play_player_tile_cases game tile position)
        as [[_ E]|(_ & Hgo & _)]; [|exact Hgo].
      rewrite E in P. injection P as <- <-. discriminate. }
    split; [discriminate|].
    unfold count_win, get_session_score. rewrite Eg, Ew. simpl.
    destruct (game_over game2); simpl in *.
    + destruct (winner game2) as [[|]|]; simpl in *; try discriminate;
        repeat split; intros; try discriminate; try reflexivity.
    + repeat split; intros; try discriminate; reflexivity.
  - injection H as <- <-.
    exists gid, game, game1. split; [reflexivity|].
    split; [apply (find_game_after_set w gid game game1 _ F eq_refl)|].
    split; [reflexivity|]. simpl. rewrite S.
    split; [|discriminate]. intros _.
    rewrite (Hfalse eq_refl), (games_set_same _ _ _ G), world_eta. auto.
Qed.

(** The statement of X16 at [world1]: the player opens with [6|6], the
    AI draws the whole boneyard and passes, nobody has won. *)
Lemma play_tile_counts_the_win_witness :
  exists w' body,
    route_play_tile 15 world1 (mkTileDict 6 6) "left" = Ok (w', Json body)
    /\ v_session_score (pt_view body) = get_session_score w'.
Proof.
  destruct (route_play_tile 15 world1 (mkTileDict 6 6) "left") as [[w' [|body]]| |] eqn:E;
    try (vm_compute in E; discriminate).
  exists w', body. split; [reflexivity|].
  destruct (play_tile_counts_the_win 15 world1 w' (mkTileDict 6 6) "left" body
              world1_reachable E) as (gid & game & game' & _ & _ & H & _).
  exact H.
Defined.

(** ** A finished game on the server *)







(** ** The routes return *)

(** A call of [play_player_tile] that returns leaves the boneyard as it
    was, whatever its arguments. *)
Lemma play_player_tile_dyn_boneyard (s s' : State) (tile_dict position : PyValue)
    (r : Response) :
  play_player_tile_dyn s tile_dict position = Ok (s', r) ->
  boneyard s' = boneyard s.
Proof.
  intros H.
  destruct (play_player_tile_dyn_cases s tile_dict position)
    as [(m & E)|[(e & E)|(t & key & _ & E)]]; rewrite E in H.
  - injection H as <- _. reflexivity.
  - discriminate.
  - exact (proj1 (play_player_tile_boneyard _ _ _ _ _ H)).
Qed.

(** A request whose tile spec has both entries and whose side is one of
    the two keys is never met with an exception. *)
Lemma play_player_tile_dyn_returns (s : State) (items : list (string * PyValue))
    (l r : PyValue) (side : string) :
  dict_get items "left" = Some l ->
  dict_get items "right" = Some r ->
  side = "left"%string \/ side = "right"%string ->
  exists s' result, play_player_tile_dyn s (PyDict items) (PyStr side) = Ok (s', result).
Proof.
  intros Hl Hr Hside.
  destruct (find (fun t => py_int_eq (Tile.left t) l && py_int_eq (Tile.right t) r)
              (player_hand s)) as [t|] eqn:F.
  - assert (F' : find_tile_dyn (player_hand s) (PyDict items) = Ok (Some t))
      by (rewrite (find_tile_dyn_both _ _ _ _ Hl Hr), F; reflexivity).
    rewrite (play_player_tile_dyn_found _ _ _ _ F').
    destruct (play_player_tile_raises_only_KeyError s (Tile.to_dict t) side) as [H|H];
      [exact H|].
    apply play_player_tile_raises_iff in H.
    destruct H as (_ & _ & _ & _ & Nl & Nr). destruct Hside; contradiction.
  - unfold play_player_tile_dyn.
    destruct (negb (Player_eqb (current_player s) player) || game_over s); [eauto|].
    rewrite (find_tile_dyn_both _ _ _ _ Hl Hr), F. cbn [bind]. eauto.
Qed.

(** What the route [play_tile] does with the value of a request: it
    answers, or it raises what [data.get] or [play_player_tile] raised. *)
Lemma route_play_tile_dyn_outcome (fuel : nat) (w : World) (gid : string) (game : State)
    (data : PyValue) :
  find_game w = Some (gid, game) ->
  (length (boneyard game) < fuel)%nat ->
  (exists w' body, route_play_tile_dyn fuel w data = Ok (w', Json body))
  \/ (exists e,
         route_play_tile_dyn fuel w data = Raise e
         /\ (py_get data "tile" = Raise e
             \/ exists tile position,
                 py_get data "tile" = Ok tile
                 /\ py_get data "position" = Ok position
                 /\ play_player_tile_dyn game tile position = Raise e)).
Proof.
  intros F Hf. unfold route_play_tile_dyn. rewrite F.
  destruct data as [| | | | | |items];
    try (right; exists AttributeError; split; [reflexivity | left; reflexivity]).
  assert (T : exists tile, py_get (PyDict items) "tile" = Ok tile)
    by (cbn [py_get]; destruct (dict_get items "tile"); eauto).
  assert (P : exists position, py_get (PyDict items) "position" = Ok position)
    by (cbn [py_get]; destruct (dict_get items "position"); eauto).
  destruct T as (tile & T), P as (position & P). rewrite T, P. cbn [bind].
  destruct (play_player_tile_dyn game tile position) as [[game1 result]|e|] eqn:E;
    cbn [bind].
  - left. destruct (success result); [|eauto].
    pose proof (play_player_tile_dyn_boneyard _ _ _ _ _ E) as B.
    destruct (ai_play_returns fuel game1) as (game2 & r & A); [rewrite B; exact Hf|].
    rewrite A. cbn [bind]. eauto.
  - right. exists e. split; [reflexivity|]. right. eauto.
  - exfalso.
    destruct (play_player_tile_dyn_cases game tile position)
      as [(m & X)|[(e & X)|(t & key & _ & X)]]; rewrite E in X; try discriminate.
    destruct (play_player_tile_raises_only_KeyError game (Tile.to_dict t) key)
      as [(s' & r & Y)|Y]; rewrite Y in X; discriminate.
Qed.

(** Property X18.  With more fuel than the session's game has tiles in
    its boneyard, no route runs out of fuel, so a request makes at most
    [2 * (|boneyard| + 1)] iterations of the two drawing loops and then
    returns or raises: this holds for [play_tile] whatever value the
    request holds, and for [draw_tile], which reads nothing from the
    request and always answers.  A [play_tile] request that holds a tile
    spec with both entries and one of the two sides is always answered. *)
Theorem routes_return (fuel : nat) (w : World) (gid : string) (game : State) :
  find_game w = Some (gid, game) ->
  (length (boneyard game) < fuel)%nat ->
  (forall data, route_play_tile_dyn fuel w data <> OutOfFuel)
  /\ (forall items tile_items l r side,
         dict_get items "tile" = Some (PyDict tile_items) ->
         dict_get tile_items "left" = Some l ->
         dict_get tile_items "right" = Some r ->
         dict_get items "position" = Some (PyStr side) ->
         side = "left"%string \/ side = "right"%string ->
         exists w' body, route_play_tile_dyn fuel w (PyDict items) = Ok (w', Json body))
  /\ (forall tile position, route_play_tile fuel w tile position <> OutOfFuel)
  /\ (exists w' body, route_draw_tile fuel w = Ok (w', Json body)).
Proof.
  intros F Hf. split; [|split; [|split]].
  - intros data.
    destruct (route_play_tile_dyn_outcome fuel w gid game data F Hf)
      as [(w' & body & E)|(e & E & _)]; rewrite E; discriminate.
  - intros items tile_items l r side Ht Hl Hr Hp Hside.
    destruct (route_play_tile_dyn_outcome fuel w gid game (PyDict items) F Hf)
      as [H|(e & _ & [E|(tile & position & Et & Ep & E)])]; [exact H | |].
    + cbn [py_get] in E. rewrite Ht in E. discriminate.
    + cbn [py_get] in Et, Ep. rewrite Ht in Et. rewrite Hp in Ep.
      injection Et as <-. injection Ep as <-.
      destruct (play_player_tile_dyn_returns game tile_items l r side Hl Hr Hside)
        as (s' & result & R).
      rewrite R in E. discriminate.
  - intros tile position. unfold route_play_tile. rewrite F.
    destruct (play_player_tile_raises_only_KeyError game tile position)
      as [(game1 & result & P)|P]; rewrite P; cbn [bind]; [|discriminate].
    destruct (success result); [|discriminate].
    destruct (play_player_tile_boneyard _ _ _ _ _ P) as (B & _).
    destruct (ai_play_returns fuel game1) as (game2 & r & A); [rewrite B; exact Hf|].
    rewrite A. cbn [bind]. discriminate.
  - unfold route_draw_tile. rewrite F.
    destruct (player_draw_returns fuel game Hf) as (game1 & result & P & B).
    rewrite P. cbn [bind]. destruct (draw_passed result); [|eauto].
    destruct (ai_play_returns fuel game1) as (game2 & r & A); [lia|].
    rewrite A. cbn [bind]. eauto.
Qed.

(** The statement of X18 at [world1], whose game has fourteen tiles in
    the boneyard: the request to lay [6|6] on the left is answered, a
    request without a body of the expected shape does not loop, and
    [draw_tile] answers. *)
Lemma routes_return_witness :
  (exists w' body,
      route_play_tile_dyn 15 world1
        (PyDict [("tile"%string,
                  PyDict [("left"%string, PyInt 6); ("right"%string, PyInt 6)]);
                 ("position"%string, PyStr "left")])
      = Ok (w', Json body))
  /\ route_play_tile_dyn 15 world1 (PyList []) <> OutOfFuel
  /\ (exists w' body, route_draw_tile 15 world1 = Ok (w', Json body)).
Proof.
  destruct (routes_return 15 world1 "g1"%string game1 eq_refl (Nat.lt_succ_diag_r 14))
    as (Hany & Hgood & _ & Hdraw).
  split; [|split; [apply Hany | exact Hdraw]].
  apply (Hgood _ [("left"%string, PyInt 6); ("right"%string, PyInt 6)]
               (PyInt 6) (PyInt 6) "left"%string); try reflexivity.
  left. reflexivity.
Defined.
